(** * tcp_gen: framing, fragmentation, pacing and the timed send loop

    A shallow embedding of [tools/tcp_gen.py].  Python integers are [Z],
    [bytes] values are lists of [byte], Python floats are the binary64
    primitive floats, exceptions are values of [exn], and the mutable
    objects of a run (the statistics record, the CSV writer, the two
    generators, the fragmentation random source and the operating system
    behind the socket and the clock) are fields of one explicit machine
    state that the send loop threads through its calls. *)

From Stdlib Require Import ZArith List Bool Lia.
From Stdlib Require Import Strings.String Strings.Byte.
From Stdlib Require Import Floats.PrimFloat Floats.FloatOps Floats.SpecFloat.
From Stdlib Require Import Floats.FloatAxioms.
Import ListNotations.

Open Scope Z_scope.

(* ------------------------------------------------------------------ *)
(** ** Values, exceptions and outcomes *)

Definition bytes := list byte.

(** Python's [len], as an integer. *)
Definition len {A : Type} (l : list A) : Z := Z.of_nat (List.length l).

(** The exceptions the program raises or lets through. *)
Inductive exn : Type :=
| ValueError (msg : string)
| RuntimeError (msg : string)
| StructError
| OverflowError
| StopIteration
| SocketTimeout
| OSError (msg : string).

(** What a call does: it returns, it raises, or (for the one loop that
    need not terminate) the evaluation budget ran out. *)
Inductive outcome (A : Type) : Type :=
| Ret (a : A)
| Raise (e : exn)
| OutOfFuel.

Arguments Ret {A} a.
Arguments Raise {A} e.
Arguments OutOfFuel {A}.

Definition obind {A B : Type} (m : outcome A) (k : A -> outcome B) : outcome B :=
  match m with
  | Ret a => k a
  | Raise e => Raise e
  | OutOfFuel => OutOfFuel
  end.

Declare Scope outcome_scope.
Delimit Scope outcome_scope with outcome.
Notation "'let?' x ':=' m 'in' k" := (obind m (fun x => k))
  (at level 10, x pattern, m at level 100, k at level 200) : outcome_scope.
Open Scope outcome_scope.

Definition byte_to_Z (b : byte) : Z := Z.of_N (Byte.to_N b).

(** Python slices [l[i:j]] for [0 <= i]. *)
Definition slice {A : Type} (l : list A) (i j : Z) : list A :=
  firstn (Z.to_nat (j - i)) (skipn (Z.to_nat i) l).

(** [l[i] = v] on a bytearray; an index outside the array raises. *)
Fixpoint set_item {A : Type} (l : list A) (i : nat) (v : A) : option (list A) :=
  match l, i with
  | [], _ => None
  | _ :: t, O => Some (v :: t)
  | h :: t, S i' => option_map (cons h) (set_item t i' v)
  end.

(* ------------------------------------------------------------------ *)
(** ** struct.pack *)

(** One ["B"] field: an unsigned byte, [struct.error] outside 0..255. *)
Definition pack_B (v : Z) : outcome byte :=
  if (0 <=? v) && (v <=? 255) then
    match Byte.of_N (Z.to_N v) with
    | Some b => Ret b
    | None => Raise StructError
    end
  else Raise StructError.

(** [struct.pack("BB", a, b)]. *)
Definition struct_pack_BB (a b : Z) : outcome bytes :=
  let? x := pack_B a in
  let? y := pack_B b in
  Ret [x; y].

(** [struct.pack(">I", v)]: four bytes, most significant first. *)
Definition struct_pack_BE_I (v : Z) : outcome bytes :=
  if (0 <=? v) && (v <=? 4294967295) then
    let? b3 := pack_B (Z.land (Z.shiftr v 24) 255) in
    let? b2 := pack_B (Z.land (Z.shiftr v 16) 255) in
    let? b1 := pack_B (Z.land (Z.shiftr v 8) 255) in
    let? b0 := pack_B (Z.land v 255) in
    Ret [b3; b2; b1; b0]
  else Raise StructError.

(* ------------------------------------------------------------------ *)
(** ** Configuration and statistics *)

Record GenConfig : Type := {
  host : string;
  port : Z;
  duration_s : float;
  rate_mps : float;
  seed : Z;
  tcp_nodelay : bool;
  recv_replies : bool;
  reply_timeout_s : float;
  log_csv : option string;
  msg_type : Z;
  payload_len : Z;
  burst : bool;
  burst_msgs : Z;
  burst_idle_ms : Z;
  fragment : bool;
  fragment_max_chunk : Z;
  coalesce : bool
}.

Record MsgStats : Type := {
  sent : Z;
  send_bytes : Z;
  send_fail : Z;
  replies : Z;
  recv_bytes : Z;
  t0 : float;
  t_last_report : float
}.

(* ------------------------------------------------------------------ *)
(** ** The pseudo-random source

    [random.Random] is library code; the program uses its constructor,
    [randrange] and [randint].  Both draw through [_randbelow n], whose
    contract is a value in [0, n). *)

Class RandomSource (R : Type) : Type := {
  Random : Z -> R;
  _randbelow : Z -> R -> Z * R;
  _randbelow_range : forall n r, 0 < n -> 0 <= fst (_randbelow n r) < n
}.

Section Rng.
Context {R : Type} `{RandomSource R}.

(** [rng.randrange(start, stop)]. *)
Definition randrange (start stop : Z) (rng : R) : outcome Z * R :=
  let width := stop - start in
  if 0 <? width then
    let (v, rng') := _randbelow width rng in (Ret (start + v), rng')
  else (Raise (ValueError "empty range for randrange()"), rng).

(** [rng.randint(a, b)], both ends included. *)
Definition randint (a b : Z) (rng : R) : outcome Z * R :=
  randrange a (b + 1) rng.
End Rng.

(* ------------------------------------------------------------------ *)
(** ** Framing helpers *)

Definition build_message (msg_type : Z) (payload : bytes) : outcome bytes :=
  if negb ((0 <=? msg_type) && (msg_type <=? 255)) then
    Raise (ValueError "msg_type must fit in 1 byte")
  else if 254 <? len payload then
    Raise (ValueError "payload too large for 1-byte LEN framing")
  else
    let length := 1 + len payload in
    let? hdr := struct_pack_BB length msg_type in
    Ret (hdr ++ payload).

Section Payload.
Context {R : Type} `{RandomSource R}.

(** [for i in range(i, i + count): out[i] = rng.randrange(0, 256)]. *)
Fixpoint fill_random (count : nat) (i : nat) (out : bytes) (rng : R)
  : outcome bytes * R :=
  match count with
  | O => (Ret out, rng)
  | S count' =>
      match randrange 0 256 rng with
      | (Ret v, rng') =>
          match pack_B v with
          | Ret b =>
              match set_item out i b with
              | Some out' => fill_random count' (S i) out' rng'
              | None => (Raise (ValueError "bytearray index out of range"), rng')
              end
          | _ => (Raise (ValueError "byte must be in range(0, 256)"), rng')
          end
      | (Raise e, rng') => (Raise e, rng')
      | (OutOfFuel, rng') => (OutOfFuel, rng')
      end
  end.

Definition make_payload (cfg : GenConfig) (seq : Z) (rng : R)
  : outcome bytes * R :=
  let n := payload_len cfg in
  if n =? 0 then (Ret [], rng)
  else if n <? 0 then (Raise (ValueError "negative count"), rng)
  else
    let out := repeat x00 (Z.to_nat n) in
    if 4 <=? n then
      match struct_pack_BE_I (Z.land seq 4294967295) with
      | Ret tmp =>
          let out := tmp ++ skipn 4 out in
          fill_random (Z.to_nat n - 4) 4 out rng
      | Raise e => (Raise e, rng)
      | OutOfFuel => (OutOfFuel, rng)
      end
    else
      match struct_pack_BE_I (Z.land seq 4294967295) with
      | Ret tmp => (Ret (slice tmp 0 n), rng)
      | Raise e => (Raise e, rng)
      | OutOfFuel => (OutOfFuel, rng)
      end.
End Payload.

(** Reading a frame back by the layout [LEN][TYPE][PAYLOAD], where
    PAYLOAD_LEN = LEN - 1: the first byte announces how many bytes follow
    it, the second is the type, the rest is the payload. *)
Definition decode_frame (frame : bytes) : option (Z * bytes) :=
  match frame with
  | l :: t :: rest =>
      if len rest =? byte_to_Z l - 1 then Some (byte_to_Z t, rest) else None
  | _ => None
  end.

(* ------------------------------------------------------------------ *)
(** ** The operating system: clock, socket and log file *)

(** A line of the CSV log: the header, or one record per send attempt.
    The send time is kept as the float it was read as (the source prints
    it with nine decimals). *)
Inductive csv_line : Type :=
| Header (cols : list string)
| Row (seq : Z) (send_time_s : float) (bytes_sent : Z) (note : string).

(** The calls into the operating system.

    Everything the program reaches through [time], [socket], [os] and
    [open] is one value of type [W]; each call returns its result (or the
    exception it raises) and the next state.  [csv_writerow] is
    [csv_writer.writerow]: like any write to a file it can raise. *)
Class OS (W : Type) : Type := {
  perf_counter : W -> float * W;
  sleep : float -> W -> (exn + unit) * W;
  socket_create : W -> (exn + unit) * W;
  sock_settimeout : option float -> W -> (exn + unit) * W;
  sock_connect : string -> Z -> W -> (exn + unit) * W;
  sock_setsockopt_nodelay : W -> (exn + unit) * W;
  sock_send : bytes -> W -> (exn + Z) * W;
  sock_recv : Z -> W -> (exn + bytes) * W;
  sock_close : W -> (exn + unit) * W;
  open_csv : string -> W -> (exn + unit) * W;
  csv_writerow : csv_line -> W -> (exn + unit) * W;
  close_csv : W -> (exn + unit) * W
}.

(* ------------------------------------------------------------------ *)
(** ** Socket send utilities *)

Section Send.
Context {W : Type} `{OS W} {R : Type} `{RandomSource R}.

(** The [while total < len(data)] loop of [send_all]. *)
Fixpoint send_all_loop (fuel : nat) (data : bytes) (total : Z) (w : W)
  : outcome unit * W :=
  if total <? len data then
    match fuel with
    | O => (OutOfFuel, w)
    | S fuel' =>
        match sock_send (skipn (Z.to_nat total) data) w with
        | (inr n, w') =>
            if n <=? 0 then
              (Raise (RuntimeError "socket.send returned <= 0"), w')
            else send_all_loop fuel' data (total + n) w'
        | (inl e, w') => (Raise e, w')
        end
    end
  else (Ret tt, w).

(** Every pass adds at least one to [total], so [len(data)] passes are
    a budget the loop cannot exhaust ([send_all_total]). *)
Definition send_all (data : bytes) (w : W) : outcome unit * W :=
  send_all_loop (List.length data) data 0 w.

(** The [while i < len(data)] loop of [send_fragmented].  The last
    component lists the slices handed to [send_all], in order. *)
Fixpoint send_fragmented_loop (fuel : nat) (data : bytes) (max_chunk : Z)
    (i : Z) (w : W) (rng : R) : outcome unit * W * R * list bytes :=
  if i <? len data then
    match fuel with
    | O => (OutOfFuel, w, rng, [])
    | S fuel' =>
        match randint 1 (Z.min max_chunk (len data - i)) rng with
        | (Ret chunk_len, rng') =>
            let chunk := slice data i (i + chunk_len) in
            match send_all chunk w with
            | (Ret _, w') =>
                let '(r, w'', rng'', chunks) :=
                  send_fragmented_loop fuel' data max_chunk
                                       (i + chunk_len) w' rng' in
                (r, w'', rng'', chunk :: chunks)
            | (Raise e, w') => (Raise e, w', rng', [chunk])
            | (OutOfFuel, w') => (OutOfFuel, w', rng', [chunk])
            end
        | (Raise e, rng') => (Raise e, w, rng', [])
        | (OutOfFuel, rng') => (OutOfFuel, w, rng', [])
        end
    end
  else (Ret tt, w, rng, []).

Definition send_fragmented (data : bytes) (max_chunk : Z) (w : W) (rng : R)
  : outcome unit * W * R * list bytes :=
  if max_chunk <=? 0 then
    (Raise (ValueError "max_chunk must be > 0"), w, rng, [])
  else send_fragmented_loop (List.length data) data max_chunk 0 w rng.

(** How many passes the chunking loop makes. *)
Definition fragment_iterations (data : bytes) (max_chunk : Z) (w : W) (rng : R)
  : nat :=
  List.length (snd (send_fragmented data max_chunk w rng)).
End Send.

(* ------------------------------------------------------------------ *)
(** ** Generator loop: the machine state of one run *)

(** One call of [_send_one], as an observer sees it: the sequence number
    it was given, the message it was given, and whether the write went
    through.  The list of these is an observation trace; no decision of
    the program reads it. *)
Record attempt : Type := {
  a_seq : Z;
  a_msg : bytes;
  a_ok : bool
}.

(** The generator object of [message_stream]: not started yet, suspended
    at its [yield] with its locals [rng] and [seq], or finished by an
    exception. *)
Inductive msg_gen (R : Type) : Type :=
| MGStart
| MGYielded (rng : R) (seq : Z)
| MGDone.

Arguments MGStart {R}.
Arguments MGYielded {R} rng seq.
Arguments MGDone {R}.

(** The generator object of [rate_controller_next_deadline]: not started
    yet, inside the unthrottled loop, or suspended in the paced loop with
    its locals [period] and [t]. *)
Inductive deadline_gen : Type :=
| DGStart
| DGUnthrottled
| DGPaced (period t : float).

Inductive loop_ctl : Type := Continue | Break.

(** [float(i)] for a Python integer, rounded to nearest even;
    integers beyond the float range raise. *)
Definition float_of_int (i : Z) : outcome float :=
  let f := SF2Prim (binary_normalize prec emax i 0 false) in
  if is_infinity f then Raise OverflowError else Ret f.

Section Run.
Context {W : Type} `{OS W} {R : Type} `{RandomSource R}.

Record Machine : Type := {
  m_world : W;
  m_stats : MsgStats;
  m_csv : option (list csv_line);
  m_gen : msg_gen R;
  m_deadlines : deadline_gen;
  m_rng : R;
  m_seq : Z;
  m_attempts : list attempt
}.

Definition set_world (w : W) (m : Machine) : Machine :=
  {| m_world := w; m_stats := m_stats m; m_csv := m_csv m; m_gen := m_gen m;
     m_deadlines := m_deadlines m; m_rng := m_rng m; m_seq := m_seq m;
     m_attempts := m_attempts m |}.
Definition set_stats (st : MsgStats) (m : Machine) : Machine :=
  {| m_world := m_world m; m_stats := st; m_csv := m_csv m; m_gen := m_gen m;
     m_deadlines := m_deadlines m; m_rng := m_rng m; m_seq := m_seq m;
     m_attempts := m_attempts m |}.
Definition set_csv (c : option (list csv_line)) (m : Machine) : Machine :=
  {| m_world := m_world m; m_stats := m_stats m; m_csv := c; m_gen := m_gen m;
     m_deadlines := m_deadlines m; m_rng := m_rng m; m_seq := m_seq m;
     m_attempts := m_attempts m |}.
Definition set_gen (g : msg_gen R) (m : Machine) : Machine :=
  {| m_world := m_world m; m_stats := m_stats m; m_csv := m_csv m; m_gen := g;
     m_deadlines := m_deadlines m; m_rng := m_rng m; m_seq := m_seq m;
     m_attempts := m_attempts m |}.
Definition set_deadlines (d : deadline_gen) (m : Machine) : Machine :=
  {| m_world := m_world m; m_stats := m_stats m; m_csv := m_csv m; m_gen := m_gen m;
     m_deadlines := d; m_rng := m_rng m; m_seq := m_seq m;
     m_attempts := m_attempts m |}.
Definition set_rng (r : R) (m : Machine) : Machine :=
  {| m_world := m_world m; m_stats := m_stats m; m_csv := m_csv m; m_gen := m_gen m;
     m_deadlines := m_deadlines m; m_rng := r; m_seq := m_seq m;
     m_attempts := m_attempts m |}.
Definition set_seq (s : Z) (m : Machine) : Machine :=
  {| m_world := m_world m; m_stats := m_stats m; m_csv := m_csv m; m_gen := m_gen m;
     m_deadlines := m_deadlines m; m_rng := m_rng m; m_seq := s;
     m_attempts := m_attempts m |}.
Definition set_attempts (l : list attempt) (m : Machine) : Machine :=
  {| m_world := m_world m; m_stats := m_stats m; m_csv := m_csv m; m_gen := m_gen m;
     m_deadlines := m_deadlines m; m_rng := m_rng m; m_seq := m_seq m;
     m_attempts := l |}.

(** Computations of the run: they read and update the machine and
    return, raise, or run out of budget. *)
Definition M (A : Type) : Type := Machine -> outcome A * Machine.

Definition ret {A : Type} (a : A) : M A := fun m => (Ret a, m).
Definition raise {A : Type} (e : exn) : M A := fun m => (Raise e, m).
Definition bind {A B : Type} (c : M A) (k : A -> M B) : M B :=
  fun m =>
    match c m with
    | (Ret a, m') => k a m'
    | (Raise e, m') => (Raise e, m')
    | (OutOfFuel, m') => (OutOfFuel, m')
    end.

(** A call into the operating system. *)
Definition os_call {A : Type} (f : W -> (exn + A) * W) : M A :=
  fun m =>
    match f (m_world m) with
    | (inr a, w') => (Ret a, set_world w' m)
    | (inl e, w') => (Raise e, set_world w' m)
    end.

(** [time.perf_counter()]. *)
Definition clock : M float :=
  fun m => let (t, w') := perf_counter (m_world m) in (Ret t, set_world w' m).

Definition lift {A : Type} (r : outcome A) : M A := fun m => (r, m).
End Run.

Arguments Machine W R : clear implicits.
Arguments M W R A : clear implicits.

Declare Scope run_scope.
Delimit Scope run_scope with run.
Notation "x <- c ;; k" := (bind c (fun x => k))
  (at level 61, c at next level, right associativity) : run_scope.
Notation "c ;; k" := (bind c (fun _ => k))
  (at level 61, right associativity) : run_scope.

Section Loop.
Context {W : Type} `{OS W} {R : Type} `{RandomSource R}.
Local Open Scope run_scope.
Local Abbreviation Machine := (Machine W R).
Local Abbreviation M := (M W R).

(** The body of [message_stream] from the top of its [while True] to
    the [yield], with the locals [rng] and [seq]. *)
Definition message_stream_body (cfg : GenConfig) (rng : R) (seq : Z)
  : M bytes :=
  fun m =>
    match make_payload cfg seq rng with
    | (Ret payload, rng') =>
        match build_message (msg_type cfg) payload with
        | Ret msg => (Ret msg, set_gen (MGYielded rng' seq) m)
        | Raise e => (Raise e, set_gen MGDone m)
        | OutOfFuel => (OutOfFuel, m)
        end
    | (Raise e, _) => (Raise e, set_gen MGDone m)
    | (OutOfFuel, _) => (OutOfFuel, m)
    end.

(** [next(gen)] on the generator of [message_stream(cfg)]: the first
    call seeds the source and starts at 0, a later one resumes after
    the [yield] with [seq += 1]. *)
Definition next_message (cfg : GenConfig) : M bytes :=
  fun m =>
    match m_gen m with
    | MGStart => message_stream_body cfg (Random (seed cfg)) 0 m
    | MGYielded rng seq => message_stream_body cfg rng (seq + 1) m
    | MGDone => (Raise StopIteration, m)
    end.

(** [next(g)] on a generator [g] of
    [rate_controller_next_deadline(rate_mps)], with the operating system
    in state [w].  Creating the generator runs none of its body: the
    clock is read when the paced branch is entered, at the first [next]. *)
Definition rate_controller_next_deadline (rate_mps : float)
    (g : deadline_gen) (w : W) : float * deadline_gen * W :=
  match g with
  | DGStart =>
      if (rate_mps <=? 0)%float then (0%float, DGUnthrottled, w)
      else
        let period := (1 / rate_mps)%float in
        let (t, w') := perf_counter w in
        let t := (t + period)%float in
        (t, DGPaced period t, w')
  | DGUnthrottled => (0%float, DGUnthrottled, w)
  | DGPaced period t =>
      let t := (t + period)%float in
      (t, DGPaced period t, w)
  end.

(** [next(deadlines)] in [run]. *)
Definition next_deadline (rate_mps : float) : M float :=
  fun m =>
    let '(d, g, w') :=
      rate_controller_next_deadline rate_mps (m_deadlines m) (m_world m) in
    (Ret d, set_deadlines g (set_world w' m)).

(** The deadlines a generator yields when it is asked once in each of the
    operating-system states [ws], in that order; whatever happens to the
    clock between two requests is in the next state of the list. *)
Fixpoint deadlines_at (rate_mps : float) (g : deadline_gen) (ws : list W)
  : list float :=
  match ws with
  | [] => []
  | w :: ws' =>
      let '(d, g', _) := rate_controller_next_deadline rate_mps g w in
      d :: deadlines_at rate_mps g' ws'
  end.

Definition maybe_sleep_until (deadline : float) : M unit :=
  if (deadline <=? 0)%float then ret tt
  else
    now <- clock ;;
    let dt := (deadline - now)%float in
    if (0 <? dt)%float then os_call (sleep dt) else ret tt.

Definition maybe_set_nodelay (enabled : bool) : M unit :=
  if enabled then os_call sock_setsockopt_nodelay else ret tt.

(** The write inside the [try] of [_send_one]. *)
Definition write_message (cfg : GenConfig) (msg : bytes) : M unit :=
  fun m =>
    if fragment cfg then
      let '(r, w', rng', _) :=
        send_fragmented msg (fragment_max_chunk cfg) (m_world m) (m_rng m) in
      (r, set_rng rng' (set_world w' m))
    else
      let (r, w') := send_all msg (m_world m) in
      (r, set_world w' m).

(** [if csv_writer: csv_writer.writerow(line)].  [m_csv] lists the rows
    handed to the writer so far, the header first; the write itself is
    the operating system's and can raise. *)
Definition writerow (line : csv_line) : M unit :=
  fun m =>
    match m_csv m with
    | Some rows =>
        os_call (csv_writerow line) (set_csv (Some (rows ++ [line])) m)
    | None => (Ret tt, m)
    end.

Definition record_attempt (a : attempt) (m : Machine) : Machine :=
  set_attempts (m_attempts m ++ [a]) m.

Definition on_send_ok (msg : bytes) (st : MsgStats) : MsgStats :=
  {| sent := sent st + 1; send_bytes := send_bytes st + len msg;
     send_fail := send_fail st; replies := replies st;
     recv_bytes := recv_bytes st; t0 := t0 st;
     t_last_report := t_last_report st |}.

Definition on_send_fail (st : MsgStats) : MsgStats :=
  {| sent := sent st; send_bytes := send_bytes st;
     send_fail := send_fail st + 1; replies := replies st;
     recv_bytes := recv_bytes st; t0 := t0 st;
     t_last_report := t_last_report st |}.

(** The [except Exception] clause of [_send_one], entered with the
    exception [e]: the failure is counted, the [send_fail] row is written
    and [e] is raised again; an exception of that write replaces [e]. *)
Definition send_failed (seq : Z) (t_send : float) (e : exn) : M unit :=
  fun m =>
    match writerow (Row seq t_send 0 "send_fail")
            (set_stats (on_send_fail (m_stats m)) m) with
    | (Ret _, m') => (Raise e, m')
    | (Raise e', m') => (Raise e', m')
    | (OutOfFuel, m') => (OutOfFuel, m')
    end.

(** [_send_one].  The counters and the [ok] row follow the write inside
    the same [try], so an exception of that row's write enters the
    [except] clause too, after the message was counted as sent. *)
Definition _send_one (cfg : GenConfig) (msg : bytes) (seq : Z) : M unit :=
  fun m =>
    let (t_send, w1) := perf_counter (m_world m) in
    match write_message cfg msg (set_world w1 m) with
    | (Ret _, m2) =>
        let m3 :=
          record_attempt {| a_seq := seq; a_msg := msg; a_ok := true |}
            (set_stats (on_send_ok msg (m_stats m2)) m2) in
        match writerow (Row seq t_send (len msg) "ok") m3 with
        | (Ret _, m4) => (Ret tt, m4)
        | (Raise e, m4) => send_failed seq t_send e m4
        | (OutOfFuel, m4) => (OutOfFuel, m4)
        end
    | (Raise e, m2) =>
        send_failed seq t_send e
          (record_attempt {| a_seq := seq; a_msg := msg; a_ok := false |} m2)
    | (OutOfFuel, m2) => (OutOfFuel, m2)
    end.

(** The statement pair
    [_send_one(cfg, sock, next(gen), rng, stats, csv_writer, seq); seq += 1]
    that both the burst loop and the paced path execute. *)
Definition send_next (cfg : GenConfig) : M unit :=
  msg <- next_message cfg ;;
  (fun m => _send_one cfg msg (m_seq m) m) ;;
  (fun m => (Ret tt, set_seq (m_seq m + 1) m)).

Definition _maybe_report (every_s : float) : M unit :=
  now <- clock ;;
  fun m =>
    let st := m_stats m in
    if (every_s <=? now - t_last_report st)%float then
      (Ret tt,
       set_stats {| sent := sent st; send_bytes := send_bytes st;
                    send_fail := send_fail st; replies := replies st;
                    recv_bytes := recv_bytes st; t0 := t0 st;
                    t_last_report := now |} m)
    else (Ret tt, m).

(** Only the clock read of [_final_report] is kept; its printing is not
    modelled. *)
Definition _final_report : M unit :=
  _ <- clock ;; ret tt.

(** [for _ in range(n)] of burst mode. *)
Fixpoint burst_loop (cfg : GenConfig) (end_time : float) (n : nat) : M unit :=
  match n with
  | O => ret tt
  | S n' =>
      now <- clock ;;
      if (end_time <=? now)%float then ret tt
      else send_next cfg ;; burst_loop cfg end_time n'
  end.

(** The placeholder reply read after a paced send. *)
Definition recv_reply : M loop_ctl :=
  fun m =>
    match sock_recv 4096 (m_world m) with
    | (inr data, w') =>
        let m' := set_world w' m in
        match data with
        | [] => (Ret Break, m')
        | _ :: _ =>
            let st := m_stats m' in
            (Ret Continue,
             set_stats {| sent := sent st; send_bytes := send_bytes st;
                          send_fail := send_fail st; replies := replies st + 1;
                          recv_bytes := recv_bytes st + len data; t0 := t0 st;
                          t_last_report := t_last_report st |} m')
        end
    | (inl SocketTimeout, w') => (Ret Continue, set_world w' m)
    | (inl e, w') => (Raise e, set_world w' m)
    end.

(** One pass of the [while] loop of [run]. *)
Definition loop_body (cfg : GenConfig) (end_time : float) : M loop_ctl :=
  if burst cfg then
    burst_loop cfg end_time (Z.to_nat (burst_msgs cfg)) ;;
    ms <- lift (float_of_int (burst_idle_ms cfg)) ;;
    os_call (sleep (ms / 1000)%float) ;;
    ret Continue
  else
    deadline <- next_deadline (rate_mps cfg) ;;
    maybe_sleep_until deadline ;;
    send_next cfg ;;
    c <- (if recv_replies cfg then recv_reply else ret Continue) ;;
    match c with
    | Break => ret Break
    | Continue => _maybe_report 1%float ;; ret Continue
    end.

(** [while time.perf_counter() < end_time], with a budget of passes. *)
Fixpoint main_loop (cfg : GenConfig) (end_time : float) (fuel : nat) : M unit :=
  match fuel with
  | O => lift OutOfFuel
  | S fuel' =>
      now <- clock ;;
      if (now <? end_time)%float then
        c <- loop_body cfg end_time ;;
        match c with
        | Break => ret tt
        | Continue => main_loop cfg end_time fuel'
        end
      else ret tt
  end.

(** The first four statements of the [try] of [run]: connect timeout,
    connect, the low-latency option, the timeout for replies. *)
Definition run_connect (cfg : GenConfig) : M unit :=
  os_call (sock_settimeout (Some 5%float)) ;;
  os_call (sock_connect (host cfg) (port cfg)) ;;
  maybe_set_nodelay (tcp_nodelay cfg) ;;
  os_call (sock_settimeout
             (if recv_replies cfg then Some (reply_timeout_s cfg) else None)).

(** The assignments before the loop: the two generators are created
    (none of their code runs yet), the fragmentation source is seeded
    with [cfg.seed ^ 0xA5A5A5A5], [end_time] is computed and [seq = 0]. *)
Definition run_setup (cfg : GenConfig) : M float :=
  fun m =>
    let m' := set_seq 0
                (set_rng (Random (Z.lxor (seed cfg) 2779096485))
                   (set_deadlines DGStart (set_gen MGStart m))) in
    (Ret (if (0 <? duration_s cfg)%float
          then (t0 (m_stats m') + duration_s cfg)%float
          else infinity), m').

(** The body of the [try] of [run]. *)
Definition run_try (cfg : GenConfig) (fuel : nat) : M Z :=
  run_connect cfg ;;
  end_time <- run_setup cfg ;;
  main_loop cfg end_time fuel ;;
  _final_report ;;
  ret 0.

(** Truth value of [cfg.log_csv]: set and not the empty string. *)
Definition log_enabled (cfg : GenConfig) : bool :=
  match log_csv cfg with
  | Some EmptyString => false
  | Some _ => true
  | None => false
  end.

Definition csv_header : csv_line :=
  Header ["seq"%string; "send_time_s"%string; "bytes_sent"%string; "note"%string].

(** The machine on entry to the [try] of [run]. *)
Definition initial_machine (cfg : GenConfig) (t_start : float) (w : W)
  : Machine :=
  {| m_world := w;
     m_stats := {| sent := 0; send_bytes := 0; send_fail := 0; replies := 0;
                   recv_bytes := 0; t0 := t_start; t_last_report := t_start |};
     m_csv := if log_enabled cfg then Some [csv_header] else None;
     m_gen := MGStart;
     m_deadlines := DGStart;
     m_rng := Random (Z.lxor (seed cfg) 2779096485);
     m_seq := 0;
     m_attempts := [] |}.

(** The [finally] of [run]: the socket is closed with any exception
    swallowed, then the log file is closed. *)
Definition run_finally (cfg : GenConfig) (r : outcome Z) (m : Machine)
  : outcome Z * Machine :=
  let (_, w1) := sock_close (m_world m) in
  if log_enabled cfg then
    match close_csv w1 with
    | (inr _, w2) => (r, set_world w2 m)
    | (inl e, w2) => (Raise e, set_world w2 m)
    end
  else (r, set_world w1 m).

(** [run(cfg)].  Opening the log, writing its header and creating the
    socket happen before the [try], so their exceptions leave [run]
    uncaught; inside it any exception makes the result 1. *)
Definition run (cfg : GenConfig) (fuel : nat) (w : W) : outcome Z * Machine :=
  let (t_start, w1) := perf_counter w in
  match (if log_enabled cfg
         then open_csv (match log_csv cfg with Some p => p | None => EmptyString end) w1
         else (inr tt, w1)) with
  | (inl e, w2) => (Raise e, set_csv None (initial_machine cfg t_start w2))
  | (inr _, w2) =>
      match (if log_enabled cfg then csv_writerow csv_header w2
             else (inr tt, w2)) with
      | (inl e, w2') => (Raise e, initial_machine cfg t_start w2')
      | (inr _, w2') =>
          match socket_create w2' with
          | (inl e, w3) => (Raise e, initial_machine cfg t_start w3)
          | (inr _, w3) =>
              match run_try cfg fuel (initial_machine cfg t_start w3) with
              | (Ret code, m) => run_finally cfg (Ret code) m
              | (Raise _, m) => run_finally cfg (Ret 1) m
              | (OutOfFuel, m) => (OutOfFuel, m)
              end
          end
      end
  end.
End Loop.

(* ------------------------------------------------------------------ *)
(** ** Command line *)

(** The namespace [a] that [argparse] hands back in [parse_args]. *)
Record Args : Type := {
  arg_host : string;
  arg_port : Z;
  arg_duration : float;
  arg_rate : float;
  arg_seed : Z;
  arg_nodelay : bool;
  arg_msg_type : Z;
  arg_payload_len : Z;
  arg_burst : bool;
  arg_burst_msgs : Z;
  arg_burst_idle_ms : Z;
  arg_fragment : bool;
  arg_fragment_max_chunk : Z;
  arg_recv_replies : bool;
  arg_reply_timeout : float;
  arg_log_csv : option string
}.

(** The [GenConfig(...)] that [parse_args] builds from the namespace. *)
Definition parse_args (a : Args) : GenConfig :=
  {| host := arg_host a;
     port := arg_port a;
     duration_s := arg_duration a;
     rate_mps := arg_rate a;
     seed := arg_seed a;
     tcp_nodelay := arg_nodelay a;
     recv_replies := arg_recv_replies a;
     reply_timeout_s := arg_reply_timeout a;
     log_csv := arg_log_csv a;
     msg_type := Z.land (arg_msg_type a) 255;
     payload_len := arg_payload_len a;
     burst := arg_burst a;
     burst_msgs := arg_burst_msgs a;
     burst_idle_ms := arg_burst_idle_ms a;
     fragment := arg_fragment a;
     fragment_max_chunk := arg_fragment_max_chunk a;
     coalesce := false |}.

Section Main.
Context {W : Type} `{OS W} {R : Type} `{RandomSource R}.
Local Abbreviation Machine := (Machine W R).

(** [main()], from the parsed namespace on: exit code 2 without a run
    when the payload length is out of range, else the result of [run]. *)
Definition main (a : Args) (fuel : nat) (w : W)
  : outcome Z * option Machine :=
  let cfg := parse_args a in
  if (payload_len cfg <? 0) || (254 <? payload_len cfg) then (Ret 2, None)
  else let (r, m) := run cfg fuel w in (r, Some m).
End Main.

(* ------------------------------------------------------------------ *)
(** ** A scripted environment to run the model on

    A linear congruential generator stands in for [random.Random], and a
    simulated host for the operating system: its clock advances by a fixed
    tick at every reading, its socket answers [send] from a script (then
    accepts everything) and records the bytes it accepted, its [recv]
    always times out, and its log file takes every row. *)

Definition lcg_next (s : Z) : Z := (s * 1103515245 + 12345) mod 2147483648.

#[export] Instance LcgRandom : RandomSource Z := {|
  Random := fun seed => seed mod 2147483648;
  _randbelow := fun n s => (lcg_next s mod n, lcg_next s);
  _randbelow_range := fun n s Hn => Z.mod_pos_bound (lcg_next s) n Hn
|}.

Record SimHost : Type := {
  sim_now : float;
  sim_tick : float;
  sim_sends : list (exn + Z);
  sim_wire : bytes;
  sim_connected : bool;
  sim_closed : bool
}.

Definition sim_set_now (t : float) (h : SimHost) : SimHost :=
  {| sim_now := t; sim_tick := sim_tick h; sim_sends := sim_sends h;
     sim_wire := sim_wire h; sim_connected := sim_connected h;
     sim_closed := sim_closed h |}.

Definition sim_send (view : bytes) (h : SimHost) : (exn + Z) * SimHost :=
  match sim_sends h with
  | inl e :: rest =>
      (inl e,
       {| sim_now := sim_now h; sim_tick := sim_tick h; sim_sends := rest;
          sim_wire := sim_wire h; sim_connected := sim_connected h;
          sim_closed := sim_closed h |})
  | inr n :: rest =>
      let k := Z.max 0 (Z.min n (len view)) in
      (inr k,
       {| sim_now := sim_now h; sim_tick := sim_tick h; sim_sends := rest;
          sim_wire := sim_wire h ++ firstn (Z.to_nat k) view;
          sim_connected := sim_connected h; sim_closed := sim_closed h |})
  | [] =>
      (inr (len view),
       {| sim_now := sim_now h; sim_tick := sim_tick h; sim_sends := [];
          sim_wire := sim_wire h ++ view;
          sim_connected := sim_connected h; sim_closed := sim_closed h |})
  end.

#[export] Instance SimOS : OS SimHost := {|
  perf_counter := fun h => (sim_now h, sim_set_now (sim_now h + sim_tick h)%float h);
  sleep := fun d h =>
    if (d <? 0)%float
    then (inl (ValueError "sleep length must be non-negative"), h)
    else (inr tt, sim_set_now (sim_now h + d)%float h);
  socket_create := fun h => (inr tt, h);
  sock_settimeout := fun _ h => (inr tt, h);
  sock_connect := fun _ _ h =>
    (inr tt,
     {| sim_now := sim_now h; sim_tick := sim_tick h; sim_sends := sim_sends h;
        sim_wire := sim_wire h; sim_connected := true;
        sim_closed := sim_closed h |});
  sock_setsockopt_nodelay := fun h => (inr tt, h);
  sock_send := sim_send;
  sock_recv := fun _ h => (inl SocketTimeout, h);
  sock_close := fun h =>
    (inr tt,
     {| sim_now := sim_now h; sim_tick := sim_tick h; sim_sends := sim_sends h;
        sim_wire := sim_wire h; sim_connected := sim_connected h;
        sim_closed := true |});
  open_csv := fun _ h => (inr tt, h);
  csv_writerow := fun _ h => (inr tt, h);
  close_csv := fun h => (inr tt, h)
|}.

(** A host at time 0 whose clock advances by [tick] per reading and whose
    socket follows [script]. *)
Definition sim_host (tick : float) (script : list (exn + Z)) : SimHost :=
  {| sim_now := 0; sim_tick := tick; sim_sends := script; sim_wire := [];
     sim_connected := false; sim_closed := false |}.

(** A paced, unfragmented configuration to vary in examples. *)
Definition sample_config : GenConfig :=
  {| host := "board"; port := 5000; duration_s := 10; rate_mps := 0;
     seed := 1; tcp_nodelay := false; recv_replies := false;
     reply_timeout_s := 0x1.47ae147ae147bp-7; log_csv := Some "out.csv"%string;
     msg_type := 68; payload_len := 3; burst := false; burst_msgs := 100;
     burst_idle_ms := 100; fragment := false; fragment_max_chunk := 8;
     coalesce := false |}.

(** The big-endian digits of a 32-bit value, most significant first. *)
Definition be32_digits (v : Z) : list Z :=
  [v / 16777216; (v / 65536) mod 256; (v / 256) mod 256; v mod 256].

(** The [n] low-order bytes of a big-endian encoding: its last [n]. *)
Definition low_bytes {A : Type} (n : Z) (enc : list A) : list A :=
  skipn (List.length enc - Z.to_nat n) enc.

(** The [n] high-order bytes of a big-endian encoding: its first [n]. *)
Definition high_bytes {A : Type} (n : Z) (enc : list A) : list A :=
  firstn (Z.to_nat n) enc.

(** A configuration with another payload length. *)
Definition with_payload_len (n : Z) (cfg : GenConfig) : GenConfig :=
  {| host := host cfg; port := port cfg; duration_s := duration_s cfg;
     rate_mps := rate_mps cfg; seed := seed cfg; tcp_nodelay := tcp_nodelay cfg;
     recv_replies := recv_replies cfg; reply_timeout_s := reply_timeout_s cfg;
     log_csv := log_csv cfg; msg_type := msg_type cfg; payload_len := n;
     burst := burst cfg; burst_msgs := burst_msgs cfg;
     burst_idle_ms := burst_idle_ms cfg; fragment := fragment cfg;
     fragment_max_chunk := fragment_max_chunk cfg; coalesce := coalesce cfg |}.

(** A transport that, from any state satisfying [P], takes at least one
    byte of every non-empty view without raising and stays in [P]. *)
Definition reliable {W : Type} `{OS W} (P : W -> Prop) : Prop :=
  forall view w, P w -> view <> [] ->
    exists n w', sock_send view w = (inr n, w') /\ 0 < n /\ P w'.

(** The simulated socket never fails once its script holds only positive
    byte counts. *)
Definition sim_script_positive (h : SimHost) : Prop :=
  Forall (fun r => exists n, r = inr n /\ 0 < n) (sim_sends h).

(** Nine bytes to fragment in examples. *)
Definition sample_data : bytes :=
  [x01; x02; x03; x04; x05; x06; x07; x08; x09].

(** [anchor] after [n] float additions of [period], left to right:
    [((anchor + period) + period) + ...]. *)
Fixpoint accumulate (anchor period : float) (n : nat) : float :=
  match n with
  | O => anchor
  | S k => (accumulate anchor period k + period)%float
  end.

(** A host whose clock reads [t] at the next reading. *)
Definition sim_host_at (t : float) : SimHost := sim_set_now t (sim_host 1 []).

(** A namespace as [argparse] returns it for the default options, to vary
    in examples. *)
Definition sample_args : Args :=
  {| arg_host := "board"; arg_port := 5000; arg_duration := 10; arg_rate := 0;
     arg_seed := 1; arg_nodelay := false; arg_msg_type := 68;
     arg_payload_len := 16; arg_burst := false; arg_burst_msgs := 100;
     arg_burst_idle_ms := 100; arg_fragment := false;
     arg_fragment_max_chunk := 8; arg_recv_replies := false;
     arg_reply_timeout := 0x1.47ae147ae147bp-7; arg_log_csv := None |}.

Definition with_arg_msg_type (t : Z) (a : Args) : Args :=
  {| arg_host := arg_host a; arg_port := arg_port a;
     arg_duration := arg_duration a; arg_rate := arg_rate a;
     arg_seed := arg_seed a; arg_nodelay := arg_nodelay a; arg_msg_type := t;
     arg_payload_len := arg_payload_len a; arg_burst := arg_burst a;
     arg_burst_msgs := arg_burst_msgs a;
     arg_burst_idle_ms := arg_burst_idle_ms a; arg_fragment := arg_fragment a;
     arg_fragment_max_chunk := arg_fragment_max_chunk a;
     arg_recv_replies := arg_recv_replies a;
     arg_reply_timeout := arg_reply_timeout a; arg_log_csv := arg_log_csv a |}.

(* ------------------------------------------------------------------ *)
(** ** Predicates on the machine of a run *)

Section RunPredicates.
Context {W : Type} {OSW : OS W} {R : Type} {RS : RandomSource R}.

(** What of the machine the send counters, the log and the two sequence
    counters are made of; the operating system, the pacing generator,
    the fragmentation source and the report times are left out. *)
Definition observed (m : Machine W R) :=
  (sent (m_stats m), send_bytes (m_stats m), send_fail (m_stats m),
   m_csv m, m_gen m, m_seq m, m_attempts m).

(** A computation that leaves all of that alone. *)
Definition neutral {A : Type} (c : M W R A) : Prop :=
  forall m, observed (snd (c m)) = observed m.

(** The log line of an attempt: its sequence number, some send time, the
    message length and "ok", or 0 and "send_fail". *)
Definition row_of (a : attempt) (line : csv_line) : Prop :=
  exists t, line = Row (a_seq a) t
                       (if a_ok a then len (a_msg a) else 0)
                       (if a_ok a then "ok"%string else "send_fail"%string).

(** The log holds the header and one line per attempt, in order, when
    logging is on, and does not exist otherwise. *)
Definition csv_matches (cfg : GenConfig) (attempts : list attempt)
    (csv : option (list csv_line)) : Prop :=
  match csv with
  | Some lines =>
      log_enabled cfg = true /\
      exists rows, lines = csv_header :: rows /\ Forall2 row_of attempts rows
  | None => log_enabled cfg = false
  end.

(** The message of an attempt is the frame around the payload that
    [make_payload] gives for the attempt's sequence number. *)
Definition framed (cfg : GenConfig) (a : attempt) : Prop :=
  exists (rng rng' : R) (payload : bytes),
    make_payload cfg (a_seq a) rng = (Ret payload, rng') /\
    build_message (msg_type cfg) payload = Ret (a_msg a).

Definition ok_count (l : list attempt) : Z :=
  fold_right (fun a s => (if a_ok a then 1 else 0) + s) 0 l.

Definition fail_count (l : list attempt) : Z :=
  fold_right (fun a s => (if a_ok a then 0 else 1) + s) 0 l.

Definition ok_bytes (l : list attempt) : Z :=
  fold_right (fun a s => (if a_ok a then len (a_msg a) else 0) + s) 0 l.

(** What holds of the attempts, the counters and the log at every point
    of a run, as long as no write of an "ok" row to the log has
    raised. *)
Record Trace (cfg : GenConfig) (m : Machine W R) : Prop := {
  tr_numbered :
    forall i a, nth_error (m_attempts m) i = Some a -> a_seq a = Z.of_nat i;
  tr_framed : Forall (framed cfg) (m_attempts m);
  tr_failure_last :
    forall i a, nth_error (m_attempts m) i = Some a -> a_ok a = false ->
                S i = List.length (m_attempts m);
  tr_sent : sent (m_stats m) = ok_count (m_attempts m);
  tr_bytes : send_bytes (m_stats m) = ok_bytes (m_attempts m);
  tr_fail : send_fail (m_stats m) = fail_count (m_attempts m);
  tr_csv : csv_matches cfg (m_attempts m) (m_csv m)
}.

(** The generator is about to produce sequence number [k]. *)
Definition gen_sync (g : msg_gen R) (k : Z) : Prop :=
  match g with
  | MGStart => k = 0
  | MGYielded _ s => k = s + 1
  | MGDone => False
  end.

(** What holds in addition between two sends as long as nothing was
    raised: every attempt went through, and the counter of [run] and the
    counter of the generator both stand at the number of attempts. *)
Record Sync (m : Machine W R) : Prop := {
  sy_all_ok : Forall (fun a => a_ok a = true) (m_attempts m);
  sy_seq : m_seq m = len (m_attempts m);
  sy_gen : gen_sync (m_gen m) (m_seq m)
}.

(** The one other state a run can end in: the write of the last message
    went through and was counted, then the write of its "ok" row raised,
    so the same message was counted as a failure too and a "send_fail"
    row follows its "ok" row in what was handed to the log. *)
Record LogFailed (cfg : GenConfig) (m : Machine W R) : Prop := {
  lf_numbered :
    forall i a, nth_error (m_attempts m) i = Some a -> a_seq a = Z.of_nat i;
  lf_framed : Forall (framed cfg) (m_attempts m);
  lf_all_ok : Forall (fun a => a_ok a = true) (m_attempts m);
  lf_some : m_attempts m <> [];
  lf_sent : sent (m_stats m) = len (m_attempts m);
  lf_bytes : send_bytes (m_stats m) = ok_bytes (m_attempts m);
  lf_fail : send_fail (m_stats m) = 1;
  lf_log : log_enabled cfg = true;
  lf_csv :
    exists rows t,
      m_csv m =
        Some (csv_header :: rows ++
                [Row (len (m_attempts m) - 1) t 0 "send_fail"]) /\
      Forall2 row_of (m_attempts m) rows
}.

(** No message was ever handed to [_send_one]. *)
Definition nothing_sent (m : Machine W R) : Prop :=
  m_attempts m = [] /\ sent (m_stats m) = 0 /\ send_bytes (m_stats m) = 0.

Definition is_raise {A : Type} (r : outcome A) : bool :=
  match r with Raise _ => true | _ => false end.

End RunPredicates.

Definition with_log_csv (l : option string) (cfg : GenConfig) : GenConfig :=
  {| host := host cfg; port := port cfg; duration_s := duration_s cfg;
     rate_mps := rate_mps cfg; seed := seed cfg; tcp_nodelay := tcp_nodelay cfg;
     recv_replies := recv_replies cfg; reply_timeout_s := reply_timeout_s cfg;
     log_csv := l; msg_type := msg_type cfg; payload_len := payload_len cfg;
     burst := burst cfg; burst_msgs := burst_msgs cfg;
     burst_idle_ms := burst_idle_ms cfg; fragment := fragment cfg;
     fragment_max_chunk := fragment_max_chunk cfg; coalesce := coalesce cfg |}.

Definition with_msg_type (t : Z) (cfg : GenConfig) : GenConfig :=
  {| host := host cfg; port := port cfg; duration_s := duration_s cfg;
     rate_mps := rate_mps cfg; seed := seed cfg; tcp_nodelay := tcp_nodelay cfg;
     recv_replies := recv_replies cfg; reply_timeout_s := reply_timeout_s cfg;
     log_csv := log_csv cfg; msg_type := t; payload_len := payload_len cfg;
     burst := burst cfg; burst_msgs := burst_msgs cfg;
     burst_idle_ms := burst_idle_ms cfg; fragment := fragment cfg;
     fragment_max_chunk := fragment_max_chunk cfg; coalesce := coalesce cfg |}.

(** A computation keeps the pair of invariants [I], [J]: started where
    [I] holds, it ends where [I] holds when it returns or runs out of
    budget, and where [J] holds when it raises. *)
Definition keeps {W R A : Type} (I J : Machine W R -> Prop) (c : M W R A) : Prop :=
  forall m, I m ->
    if is_raise (fst (c m)) then J (snd (c m)) else I (snd (c m)).

(** A host whose socket takes the first message whole, the second in two
    pieces, and raises on the third. *)
Definition failing_host : SimHost :=
  sim_host 1 [inr 5; inr 2; inr 3; inl (OSError "connection reset")].

(** A host whose socket raises on the first write. *)
Definition dead_host : SimHost :=
  sim_host 1 [inl (OSError "connection reset")].

(* ------------------------------------------------------------------ *)
(** ** A stream transport seen from the receiving end

    [wire w] is what the peer has been sent so far.  The transport is
    honest when [send] accepts a prefix of what it is given, no longer
    than that, appends exactly the accepted bytes to the wire, and
    nothing else touches the wire. *)

Record honest {W : Type} `{OS W} (wire : W -> bytes) : Prop := {
  h_send :
    forall view w,
      match sock_send view w with
      | (inr n, w') =>
          if 0 <? n
          then n <= len view /\ wire w' = wire w ++ firstn (Z.to_nat n) view
          else wire w' = wire w
      | (inl _, w') => wire w' = wire w
      end;
  h_perf_counter : forall w, wire (snd (perf_counter w)) = wire w;
  h_sleep : forall d w, wire (snd (sleep d w)) = wire w;
  h_socket_create : forall w, wire (snd (socket_create w)) = wire w;
  h_settimeout : forall t w, wire (snd (sock_settimeout t w)) = wire w;
  h_connect : forall h p w, wire (snd (sock_connect h p w)) = wire w;
  h_nodelay : forall w, wire (snd (sock_setsockopt_nodelay w)) = wire w;
  h_recv : forall n w, wire (snd (sock_recv n w)) = wire w;
  h_close : forall w, wire (snd (sock_close w)) = wire w;
  h_open_csv : forall p w, wire (snd (open_csv p w)) = wire w;
  h_csv_writerow : forall l w, wire (snd (csv_writerow l w)) = wire w;
  h_close_csv : forall w, wire (snd (close_csv w)) = wire w
}.

(** The bytes a list of attempts accounts for on the wire, in order: the
    whole message of an attempt that went through, some prefix of the
    message of one that failed. *)
Inductive wired : list attempt -> bytes -> Prop :=
| wired_nil : wired [] []
| wired_ok (a : attempt) (l : list attempt) (bs : bytes) :
    a_ok a = true -> wired l bs -> wired (a :: l) (a_msg a ++ bs)
| wired_fail (a : attempt) (l : list attempt) (p rest bs : bytes) :
    a_ok a = false -> a_msg a = p ++ rest -> wired l bs ->
    wired (a :: l) (p ++ bs).

(** The wire holds [base] followed by what the attempts account for. *)
Definition Wired {W R : Type} (wire : W -> bytes) (base : bytes)
    (m : Machine W R) : Prop :=
  exists bs, wired (m_attempts m) bs /\ wire (m_world m) = base ++ bs.

(** The reply counters: every counted reply brought at least one byte,
    and nothing is counted when replies are not read. *)
Definition replies_counted {W R : Type} (cfg : GenConfig) (m : Machine W R) : Prop :=
  0 <= replies (m_stats m) <= recv_bytes (m_stats m) /\
  (recv_replies cfg = false ->
   replies (m_stats m) = 0 /\ recv_bytes (m_stats m) = 0).

(** [count] successive draws of [rng.randrange(0, 256)]: the values and
    the source afterwards. *)
Fixpoint draw {R : Type} `{RandomSource R} (count : nat) (rng : R) : list Z * R :=
  match count with
  | O => ([], rng)
  | S k =>
      let (v, rng1) := _randbelow 256 rng in
      let (vs, rng2) := draw k rng1 in
      (v :: vs, rng2)
  end.

(** A configuration every frame can be built for. *)
Definition valid_config (cfg : GenConfig) : Prop :=
  0 <= msg_type cfg <= 255 /\ 0 <= payload_len cfg <= 254.

Definition with_arg_payload_len (n : Z) (a : Args) : Args :=
  {| arg_host := arg_host a; arg_port := arg_port a;
     arg_duration := arg_duration a; arg_rate := arg_rate a;
     arg_seed := arg_seed a; arg_nodelay := arg_nodelay a;
     arg_msg_type := arg_msg_type a; arg_payload_len := n;
     arg_burst := arg_burst a; arg_burst_msgs := arg_burst_msgs a;
     arg_burst_idle_ms := arg_burst_idle_ms a; arg_fragment := arg_fragment a;
     arg_fragment_max_chunk := arg_fragment_max_chunk a;
     arg_recv_replies := arg_recv_replies a;
     arg_reply_timeout := arg_reply_timeout a; arg_log_csv := arg_log_csv a |}.

(** A host that refuses every connection: the simulated host with a
    [connect] that raises, and a [sleep] that returns at once. *)
Record DownHost : Type := { down_inner : SimHost }.

Definition down_lift {A : Type} (r : A * SimHost) : A * DownHost :=
  (fst r, {| down_inner := snd r |}).

#[export] Instance DownOS : OS DownHost := {|
  perf_counter := fun h => down_lift (perf_counter (down_inner h));
  sleep := fun _ h => (inr tt, h);
  socket_create := fun h => down_lift (socket_create (down_inner h));
  sock_settimeout := fun t h => down_lift (sock_settimeout t (down_inner h));
  sock_connect := fun _ _ h => (inl (OSError "connection refused"), h);
  sock_setsockopt_nodelay :=
    fun h => down_lift (sock_setsockopt_nodelay (down_inner h));
  sock_send := fun view h => down_lift (sock_send view (down_inner h));
  sock_recv := fun n h => down_lift (sock_recv n (down_inner h));
  sock_close := fun h => down_lift (sock_close (down_inner h));
  open_csv := fun p h => down_lift (open_csv p (down_inner h));
  csv_writerow := fun l h => down_lift (csv_writerow l (down_inner h));
  close_csv := fun h => down_lift (close_csv (down_inner h))
|}.

(** A host whose log file takes [disk_room] more rows and then raises on
    every write: the simulated host with a [csv_writerow] that counts. *)
Record FullDiskHost : Type := { disk_inner : SimHost; disk_room : nat }.

Definition disk_lift {A : Type} (room : nat) (r : A * SimHost)
  : A * FullDiskHost :=
  (fst r, {| disk_inner := snd r; disk_room := room |}).

#[export] Instance FullDiskOS : OS FullDiskHost := {|
  perf_counter := fun h => disk_lift (disk_room h) (perf_counter (disk_inner h));
  sleep := fun d h => disk_lift (disk_room h) (sleep d (disk_inner h));
  socket_create := fun h => disk_lift (disk_room h) (socket_create (disk_inner h));
  sock_settimeout :=
    fun t h => disk_lift (disk_room h) (sock_settimeout t (disk_inner h));
  sock_connect :=
    fun a p h => disk_lift (disk_room h) (sock_connect a p (disk_inner h));
  sock_setsockopt_nodelay :=
    fun h => disk_lift (disk_room h) (sock_setsockopt_nodelay (disk_inner h));
  sock_send := fun view h => disk_lift (disk_room h) (sock_send view (disk_inner h));
  sock_recv := fun n h => disk_lift (disk_room h) (sock_recv n (disk_inner h));
  sock_close := fun h => disk_lift (disk_room h) (sock_close (disk_inner h));
  open_csv := fun p h => disk_lift (disk_room h) (open_csv p (disk_inner h));
  csv_writerow := fun _ h =>
    match disk_room h with
    | O => (inl (OSError "No space left on device"), h)
    | S room => (inr tt, {| disk_inner := disk_inner h; disk_room := room |})
    end;
  close_csv := fun h => disk_lift (disk_room h) (close_csv (disk_inner h))
|}.

(** A host with room for [room] rows of log on the simulated host [h]. *)
Definition full_disk_host (room : nat) (h : SimHost) : FullDiskHost :=
  {| disk_inner := h; disk_room := room |}.

(** A burst configuration with a batch size to vary in examples. *)
Definition burst_config (n : Z) : GenConfig :=
  {| host := "board"; port := 5000; duration_s := 10; rate_mps := 0;
     seed := 1; tcp_nodelay := false; recv_replies := false;
     reply_timeout_s := 1; log_csv := None;
     msg_type := 68; payload_len := 16; burst := true; burst_msgs := n;
     burst_idle_ms := 100; fragment := false; fragment_max_chunk := 8;
     coalesce := false |}.

(** Reading a byte stream as a sequence of frames by the layout
    [LEN][TYPE][PAYLOAD] with PAYLOAD_LEN = LEN - 1, one frame after the
    other: each pass takes the length byte, the type byte and
    [LEN - 1] payload bytes; a length of 0 or a stream that ends inside a
    frame does not parse. *)
Fixpoint decode_stream (fuel : nat) (stream : bytes) : option (list (Z * bytes)) :=
  match stream with
  | [] => Some []
  | l :: rest =>
      match fuel, rest with
      | S fuel', t :: body =>
          let n := byte_to_Z l in
          if (1 <=? n) && (n - 1 <=? len body) then
            option_map
              (cons (byte_to_Z t, firstn (Z.to_nat (n - 1)) body))
              (decode_stream fuel' (skipn (Z.to_nat (n - 1)) body))
          else None
      | _, _ => None
      end
  end.

(** Every frame has at least two bytes, so the length of the stream
    bounds the number of frames. *)
Definition decode_wire (stream : bytes) : option (list (Z * bytes)) :=
  decode_stream (List.length stream) stream.

(** Three messages to frame in examples. *)
Definition sample_messages : list (Z * bytes) :=
  [(68, [x01; x02; x03]); (65, []); (255, [xff])].

(** The attempts of [m'] are those of [m] followed by at most [k] more. *)
Definition extends_by {W R : Type} (k : nat) (m m' : Machine W R) : Prop :=
  exists more, m_attempts m' = m_attempts m ++ more /\ (List.length more <= k)%nat.

(* ================================================================== *)
(** * Properties *)

(* ------------------------------------------------------------------ *)
(** ** Framing *)

Lemma len_nonneg {A : Type} (l : list A) : 0 <= len l.
Proof. unfold len. lia. Qed.

Lemma len_app {A : Type} (l1 l2 : list A) : len (l1 ++ l2) = len l1 + len l2.
Proof. unfold len. rewrite length_app. lia. Qed.

Lemma len_cons {A : Type} (a : A) (l : list A) : len (a :: l) = 1 + len l.
Proof. unfold len. cbn [List.length]. lia. Qed.

Lemma pack_B_ok (v : Z) :
  0 <= v <= 255 -> exists b, pack_B v = Ret b /\ byte_to_Z b = v.
Proof.
  intros Hv. unfold pack_B.
  replace ((0 <=? v) && (v <=? 255)) with true
    by (symmetry; apply andb_true_iff; split; apply Z.leb_le; lia).
  destruct (Byte.of_N (Z.to_N v)) as [b|] eqn:E.
  - exists b. split; [reflexivity|].
    apply Byte.to_of_N in E. unfold byte_to_Z. rewrite E. lia.
  - apply Byte.of_N_None_iff in E. lia.
Qed.

Lemma pack_B_range (v : Z) (b : byte) :
  pack_B v = Ret b -> 0 <= v <= 255 /\ byte_to_Z b = v.
Proof.
  unfold pack_B. destruct ((0 <=? v) && (v <=? 255)) eqn:E; [|discriminate].
  apply andb_true_iff in E. destruct E as [E1 E2].
  apply Z.leb_le in E1. apply Z.leb_le in E2.
  destruct (pack_B_ok v (conj E1 E2)) as (b' & Hb & Hz).
  unfold pack_B in Hb. rewrite (proj2 (Z.leb_le _ _) E1), (proj2 (Z.leb_le _ _) E2) in Hb.
  cbn [andb] in Hb. intros Hr. rewrite Hr in Hb. injection Hb as <-. auto.
Qed.

Lemma byte_to_Z_range (b : byte) : 0 <= byte_to_Z b <= 255.
Proof.
  unfold byte_to_Z. pose proof (Byte.to_N_bounded b). lia.
Qed.

Lemma build_message_ok (mt : Z) (payload : bytes) :
  0 <= mt <= 255 -> len payload <= 254 ->
  exists l t, build_message mt payload = Ret (l :: t :: payload) /\
              byte_to_Z l = 1 + len payload /\ byte_to_Z t = mt.
Proof.
  intros Hmt Hlen. unfold build_message.
  replace ((0 <=? mt) && (mt <=? 255)) with true
    by (symmetry; apply andb_true_iff; split; apply Z.leb_le; lia).
  cbn [negb].
  replace (254 <? len payload) with false by (symmetry; apply Z.ltb_ge; lia).
  pose proof (len_nonneg payload).
  destruct (pack_B_ok (1 + len payload)) as (l & Hl & Hlz); [lia|].
  destruct (pack_B_ok mt Hmt) as (t & Ht & Htz).
  exists l, t. unfold struct_pack_BB. rewrite Hl, Ht. cbn. auto.
Qed.

(** C2: for a type in 0..255 and a payload of at most 254 bytes,
    [build_message] returns a frame of exactly [2 + len(payload)] bytes
    whose byte 0 is [1 + len(payload)], whose byte 1 is the type and whose
    remaining bytes are the payload; reading the frame back by the
    [LEN][TYPE][PAYLOAD] rule gives the type and the payload again. *)
Theorem build_message_roundtrip (mt : Z) (payload : bytes) :
  0 <= mt <= 255 -> len payload <= 254 ->
  exists frame,
    build_message mt payload = Ret frame /\
    len frame = 2 + len payload /\
    option_map byte_to_Z (nth_error frame 0) = Some (1 + len payload) /\
    option_map byte_to_Z (nth_error frame 1) = Some mt /\
    skipn 2 frame = payload /\
    decode_frame frame = Some (mt, payload).
Proof.
  intros Hmt Hlen.
  destruct (build_message_ok mt payload Hmt Hlen) as (l & t & Hb & Hl & Ht).
  exists (l :: t :: payload). repeat split.
  - exact Hb.
  - rewrite !len_cons. lia.
  - cbn. now rewrite Hl.
  - cbn. now rewrite Ht.
  - cbn [decode_frame]. rewrite Hl, Ht.
    replace (len payload =? 1 + len payload - 1) with true
      by (symmetry; apply Z.eqb_eq; lia).
    reflexivity.
Qed.

Lemma build_message_roundtrip_witness :
  exists frame,
    build_message 68 [x00; x00; x01] = Ret frame /\
    len frame = 2 + len [x00; x00; x01] /\
    option_map byte_to_Z (nth_error frame 0) = Some (1 + len [x00; x00; x01]) /\
    option_map byte_to_Z (nth_error frame 1) = Some 68 /\
    skipn 2 frame = [x00; x00; x01] /\
    decode_frame frame = Some (68, [x00; x00; x01]).
Proof.
  apply (build_message_roundtrip 68 [x00; x00; x01]).
  - lia.
  - vm_compute. discriminate.
Defined.

(** C5: [build_message] raises exactly when the type is outside 0..255
    or the payload is longer than 254 bytes (so for 255 bytes), and then
    gives no frame; it returns a frame exactly when both constraints
    hold. *)
Theorem build_message_rejects (mt : Z) (payload : bytes) :
  ((exists e, build_message mt payload = Raise e) <->
   (mt < 0 \/ 255 < mt \/ 254 < len payload)) /\
  ((exists frame, build_message mt payload = Ret frame) <->
   (0 <= mt <= 255 /\ len payload <= 254)) /\
  (len payload = 255 -> exists e, build_message mt payload = Raise e).
Proof.
  assert (Hbad : mt < 0 \/ 255 < mt \/ 254 < len payload ->
                 exists e, build_message mt payload = Raise e).
  { intros Hb. unfold build_message.
    destruct ((0 <=? mt) && (mt <=? 255)) eqn:E; cbn [negb].
    - apply andb_true_iff in E. destruct E as [E1 E2].
      apply Z.leb_le in E1. apply Z.leb_le in E2.
      replace (254 <? len payload) with true by (symmetry; apply Z.ltb_lt; lia).
      eauto.
    - eauto. }
  assert (Hgood : 0 <= mt <= 255 /\ len payload <= 254 ->
                  exists frame, build_message mt payload = Ret frame).
  { intros [H1 H2]. destruct (build_message_ok mt payload H1 H2) as (l & t & Hb & _).
    eauto. }
  split; [|split].
  - split; [|exact Hbad].
    intros [e He].
    destruct (Z_lt_dec mt 0); [auto|]. destruct (Z_lt_dec 255 mt); [auto|].
    destruct (Z_lt_dec 254 (len payload)); [auto|].
    destruct Hgood as [f Hf]; [lia|]. congruence.
  - split; [|exact Hgood].
    intros [f Hf].
    destruct (Z_lt_dec mt 0) as [Hc|]; [destruct Hbad as [e He]; [auto|congruence]|].
    destruct (Z_lt_dec 255 mt) as [Hc|]; [destruct Hbad as [e He]; [auto|congruence]|].
    destruct (Z_lt_dec 254 (len payload)) as [Hc|];
      [destruct Hbad as [e He]; [auto|congruence]|].
    lia.
  - intros H255. apply Hbad. lia.
Qed.

Lemma build_message_rejects_witness :
  (exists e, build_message 68 (repeat x00 255) = Raise e) /\
  (exists e, build_message 256 [x00] = Raise e).
Proof.
  split.
  - apply (proj2 (proj2 (build_message_rejects 68 (repeat x00 255)))).
    vm_compute. reflexivity.
  - apply (proj1 (build_message_rejects 256 [x00])). right. left. lia.
Defined.

(* ------------------------------------------------------------------ *)
(** ** Payloads *)

Lemma land_255 (x : Z) : Z.land x 255 = x mod 256.
Proof. change 255 with (Z.ones 8). rewrite Z.land_ones by lia. reflexivity. Qed.

Lemma land_mask32 (x : Z) : Z.land x 4294967295 = x mod 4294967296.
Proof. change 4294967295 with (Z.ones 32). rewrite Z.land_ones by lia. reflexivity. Qed.

Lemma struct_pack_BE_I_ok (v : Z) :
  0 <= v < 4294967296 ->
  exists b3 b2 b1 b0,
    struct_pack_BE_I v = Ret [b3; b2; b1; b0] /\
    map byte_to_Z [b3; b2; b1; b0] = be32_digits v.
Proof.
  intros Hv. unfold struct_pack_BE_I.
  replace ((0 <=? v) && (v <=? 4294967295)) with true
    by (symmetry; apply andb_true_iff; split; apply Z.leb_le; lia).
  rewrite !land_255, !Z.shiftr_div_pow2 by lia.
  change (2 ^ 24) with 16777216. change (2 ^ 16) with 65536. change (2 ^ 8) with 256.
  assert (H3 : (v / 16777216) mod 256 = v / 16777216).
  { apply Z.mod_small. split.
    - apply Z.div_pos; lia.
    - apply Z.div_lt_upper_bound; lia. }
  destruct (pack_B_ok ((v / 16777216) mod 256)) as (b3 & E3 & Z3);
    [pose proof (Z.mod_pos_bound (v / 16777216) 256); lia|].
  destruct (pack_B_ok ((v / 65536) mod 256)) as (b2 & E2 & Z2);
    [pose proof (Z.mod_pos_bound (v / 65536) 256); lia|].
  destruct (pack_B_ok ((v / 256) mod 256)) as (b1 & E1 & Z1);
    [pose proof (Z.mod_pos_bound (v / 256) 256); lia|].
  destruct (pack_B_ok (v mod 256)) as (b0 & E0 & Z0);
    [pose proof (Z.mod_pos_bound v 256); lia|].
  exists b3, b2, b1, b0. rewrite E3, E2, E1, E0. cbn [obind].
  split; [reflexivity|].
  unfold be32_digits. cbn [map]. rewrite Z3, Z2, Z1, Z0, H3. reflexivity.
Qed.

Lemma make_payload_short {R : Type} {RS : RandomSource R}
    (cfg : GenConfig) (seq : Z) (rng : R) :
  0 < payload_len cfg < 4 ->
  exists payload,
    make_payload cfg seq rng = (Ret payload, rng) /\
    len payload = payload_len cfg /\
    map byte_to_Z payload =
      high_bytes (payload_len cfg) (be32_digits (seq mod 4294967296)).
Proof.
  intros Hn. unfold make_payload.
  replace (payload_len cfg =? 0) with false by (symmetry; apply Z.eqb_neq; lia).
  replace (payload_len cfg <? 0) with false by (symmetry; apply Z.ltb_ge; lia).
  replace (4 <=? payload_len cfg) with false by (symmetry; apply Z.leb_gt; lia).
  rewrite land_mask32.
  destruct (struct_pack_BE_I_ok (seq mod 4294967296))
    as (b3 & b2 & b1 & b0 & Hp & Hd); [apply Z.mod_pos_bound; lia|].
  rewrite Hp. eexists. split; [reflexivity|].
  unfold slice, high_bytes. rewrite Z.sub_0_r. cbn [skipn Z.to_nat].
  rewrite <- Hd, <- firstn_map. split; [|reflexivity].
  unfold len. rewrite length_firstn. cbn [List.length].
  rewrite Nat.min_l by lia. lia.
Qed.

(** C3 (as amended): for a payload length [n] with [0 < n < 4] and any
    sequence number, [make_payload] returns the first [n] bytes, that is
    the [n] most significant ones, of the big-endian 4-byte encoding of
    the sequence number modulo 2^32, and draws nothing from the random
    source.  For type 0x44, length 3 and sequence 1 the payload is
    [00 00 00] and the frame is [04 44 00 00 00]. *)
Theorem make_payload_short_keeps_high_bytes :
  (forall (R : Type) (RS : RandomSource R) (cfg : GenConfig) (seq : Z) (rng : R),
      0 < payload_len cfg < 4 ->
      exists payload,
        make_payload cfg seq rng = (Ret payload, rng) /\
        len payload = payload_len cfg /\
        map byte_to_Z payload =
          high_bytes (payload_len cfg) (be32_digits (seq mod 4294967296))) /\
  (forall (R : Type) (RS : RandomSource R) (rng : R),
      make_payload (with_payload_len 3 sample_config) 1 rng
        = (Ret [x00; x00; x00], rng) /\
      build_message 68 [x00; x00; x00] = Ret [x04; x44; x00; x00; x00]).
Proof.
  split.
  - intros R RS cfg seq rng Hn. apply make_payload_short. exact Hn.
  - intros R RS rng. split; vm_compute; reflexivity.
Qed.

Lemma make_payload_short_keeps_high_bytes_witness :
  exists payload,
    make_payload (with_payload_len 2 sample_config) 16909060 (Random 1 : Z)
      = (Ret payload, Random 1) /\
    len payload = 2 /\
    map byte_to_Z payload = [1; 2].
Proof.
  destruct (proj1 make_payload_short_keeps_high_bytes Z LcgRandom
              (with_payload_len 2 sample_config) 16909060 (Random 1))
    as (payload & Hp & Hl & Hm).
  - cbn. lia.
  - exists payload. split; [exact Hp|]. split; [exact Hl|]. exact Hm.
Defined.

(** C3, as stated, fails: with type 0x44, length 3 and sequence 1 the
    payload is not the three low-order bytes [00 00 01] of [00 00 00 01]
    and the frame is not [04 44 00 00 01]. *)
Lemma make_payload_low_bytes_counterexample :
  exists payload,
    fst (make_payload (with_payload_len 3 sample_config) 1 (Random 1 : Z))
      = Ret payload /\
    map byte_to_Z payload <> low_bytes 3 (be32_digits (1 mod 4294967296)) /\
    payload <> [x00; x00; x01] /\
    build_message 68 payload <> Ret [x04; x44; x00; x00; x01].
Proof.
  exists [x00; x00; x00]. split; [vm_compute; reflexivity|].
  split; [vm_compute; discriminate|]. split; [discriminate|].
  vm_compute. discriminate.
Qed.

Lemma set_item_keeps {A : Type} (l : list A) :
  forall (i : nat) (v : A) (l' : list A),
    set_item l i v = Some l' ->
    List.length l' = List.length l /\
    forall k, (k <= i)%nat -> firstn k l' = firstn k l.
Proof.
  induction l as [|h t IH]; intros i v l' Hs; [discriminate|].
  destruct i as [|i]; cbn [set_item] in Hs.
  - injection Hs as <-. split; [reflexivity|].
    intros k Hk. replace k with 0%nat by lia. reflexivity.
  - destruct (set_item t i v) as [t'|] eqn:Et; [|discriminate].
    injection Hs as <-. destruct (IH i v t' Et) as [Hl Hf].
    split; [cbn; now rewrite Hl|].
    intros [|k] Hk; [reflexivity|]. cbn [firstn]. rewrite Hf by lia. reflexivity.
Qed.

Lemma set_item_some {A : Type} (l : list A) :
  forall (i : nat) (v : A), (i < List.length l)%nat -> exists l', set_item l i v = Some l'.
Proof.
  induction l as [|h t IH]; intros i v Hi; [cbn in Hi; lia|].
  destruct i as [|i]; cbn [set_item]; [eauto|].
  destruct (IH i v) as [t' Ht]; [cbn in Hi; lia|]. rewrite Ht. cbn. eauto.
Qed.

Section PayloadFacts.
Context {R : Type} {RS : RandomSource R}.

Lemma randrange_range (start stop : Z) (rng : R) :
  start < stop ->
  exists v rng', randrange start stop rng = (Ret v, rng') /\ start <= v < stop.
Proof.
  intros Hlt. unfold randrange.
  replace (0 <? stop - start) with true by (symmetry; apply Z.ltb_lt; lia).
  pose proof (_randbelow_range (stop - start) rng) as Hr.
  destruct (_randbelow (stop - start) rng) as [v rng'].
  cbn [fst] in Hr. exists (start + v), rng'. split; [reflexivity|lia].
Qed.

Lemma fill_random_keeps (count : nat) :
  forall (i : nat) (out : bytes) (rng : R) (out' : bytes) (rng' : R),
    fill_random count i out rng = (Ret out', rng') ->
    List.length out' = List.length out /\
    forall k, (k <= i)%nat -> firstn k out' = firstn k out.
Proof.
  induction count as [|count IH]; intros i out rng out' rng' Hf;
    cbn [fill_random] in Hf.
  - injection Hf as <- <-. auto.
  - destruct (randrange 0 256 rng) as [[v|e|] rng1]; try discriminate.
    destruct (pack_B v) as [b|e|]; try discriminate.
    destruct (set_item out i b) as [out1|] eqn:Es; [|discriminate].
    destruct (set_item_keeps out i b out1 Es) as [Hl1 Hf1].
    destruct (IH (S i) out1 rng1 out' rng' Hf) as [Hl2 Hf2].
    split; [congruence|].
    intros k Hk. rewrite Hf2 by lia. apply Hf1. exact Hk.
Qed.

Lemma fill_random_ok (count : nat) :
  forall (i : nat) (out : bytes) (rng : R),
    (i + count <= List.length out)%nat ->
    exists out' rng', fill_random count i out rng = (Ret out', rng').
Proof.
  induction count as [|count IH]; intros i out rng Hlen; cbn [fill_random].
  - eauto.
  - destruct (randrange_range 0 256 rng) as (v & rng1 & Hv & Hr); [lia|].
    rewrite Hv.
    destruct (pack_B_ok v) as (b & Hb & _); [lia|].
    rewrite Hb.
    destruct (set_item_some out i b) as [out1 Hs]; [lia|]. rewrite Hs.
    apply IH. destruct (set_item_keeps out i b out1 Hs) as [Hl _]. lia.
Qed.

(** Every payload [make_payload] returns has the configured length, and
    its first four bytes (all of them when it is shorter) are the
    leading bytes of the big-endian encoding of [seq mod 2^32]. *)
Lemma make_payload_prefix (cfg : GenConfig) (seq : Z) (rng : R)
    (payload : bytes) (rng' : R) :
  make_payload cfg seq rng = (Ret payload, rng') ->
  len payload = payload_len cfg /\
  map byte_to_Z (firstn 4 payload) =
    high_bytes (Z.min (payload_len cfg) 4) (be32_digits (seq mod 4294967296)).
Proof.
  intros Hm.
  destruct (Z_lt_dec 0 (payload_len cfg)) as [Hpos|Hneg].
  - destruct (Z_lt_dec (payload_len cfg) 4) as [Hshort|Hlong].
    + destruct (make_payload_short cfg seq rng) as (p & Hp & Hl & Hd); [lia|].
      rewrite Hp in Hm. injection Hm as <- _. split; [exact Hl|].
      rewrite firstn_all2 by (unfold len in Hl; lia).
      rewrite Z.min_l by lia. exact Hd.
    + unfold make_payload in Hm.
      replace (payload_len cfg =? 0) with false in Hm
        by (symmetry; apply Z.eqb_neq; lia).
      replace (payload_len cfg <? 0) with false in Hm
        by (symmetry; apply Z.ltb_ge; lia).
      replace (4 <=? payload_len cfg) with true in Hm
        by (symmetry; apply Z.leb_le; lia).
      rewrite land_mask32 in Hm.
      destruct (struct_pack_BE_I_ok (seq mod 4294967296))
        as (b3 & b2 & b1 & b0 & Hp & Hd); [apply Z.mod_pos_bound; lia|].
      rewrite Hp in Hm.
      destruct (fill_random_keeps _ _ _ _ _ _ Hm) as [Hl Hf].
      split.
      * unfold len. rewrite Hl, length_app, length_skipn, repeat_length.
        cbn [List.length]. lia.
      * rewrite (Hf 4%nat) by lia. rewrite Z.min_r by lia.
        unfold high_bytes. cbn [Z.to_nat Pos.to_nat Pos.iter_op Nat.add].
        rewrite <- Hd. cbn [app firstn map]. reflexivity.
  - unfold make_payload in Hm.
    destruct (payload_len cfg =? 0) eqn:E0.
    + apply Z.eqb_eq in E0. injection Hm as <- _. rewrite E0.
      split; reflexivity.
    + apply Z.eqb_neq in E0.
      replace (payload_len cfg <? 0) with true in Hm
        by (symmetry; apply Z.ltb_lt; lia).
      discriminate.
Qed.

(** [make_payload] returns for every payload length from 0 on. *)
Lemma make_payload_ok (cfg : GenConfig) (seq : Z) (rng : R) :
  0 <= payload_len cfg ->
  exists payload rng', make_payload cfg seq rng = (Ret payload, rng').
Proof.
  intros Hn. unfold make_payload.
  destruct (payload_len cfg =? 0) eqn:E0; [eauto|]. apply Z.eqb_neq in E0.
  replace (payload_len cfg <? 0) with false by (symmetry; apply Z.ltb_ge; lia).
  rewrite land_mask32.
  destruct (struct_pack_BE_I_ok (seq mod 4294967296))
    as (b3 & b2 & b1 & b0 & Hp & Hd); [apply Z.mod_pos_bound; lia|].
  rewrite Hp.
  destruct (4 <=? payload_len cfg) eqn:E4; [|eauto].
  apply Z.leb_le in E4. apply fill_random_ok.
  rewrite length_app, length_skipn, repeat_length. cbn [List.length]. lia.
Qed.

End PayloadFacts.

(* ------------------------------------------------------------------ *)
(** ** Socket send utilities *)

Section SendFacts.
Context {W : Type} {OSW : OS W} {R : Type} {RS : RandomSource R}.

Lemma randint_range (a b : Z) (rng : R) :
  a <= b ->
  exists v rng', randint a b rng = (Ret v, rng') /\ a <= v <= b.
Proof.
  intros Hab. unfold randint.
  destruct (randrange_range a (b + 1) rng) as (v & rng' & Hv & Hr); [lia|].
  exists v, rng'. split; [exact Hv|lia].
Qed.

Lemma send_all_loop_total (fuel : nat) (data : bytes) :
  forall (total : Z) (w : W),
    len data - total <= Z.of_nat fuel ->
    fst (send_all_loop fuel data total w) <> OutOfFuel.
Proof.
  induction fuel as [|fuel IH]; intros total w Hf; cbn [send_all_loop].
  - replace (total <? len data) with false by (symmetry; apply Z.ltb_ge; lia).
    cbn. discriminate.
  - destruct (total <? len data) eqn:Et; [|cbn; discriminate].
    destruct (sock_send (skipn (Z.to_nat total) data) w) as [[e|n] w'].
    + cbn. discriminate.
    + destruct (n <=? 0) eqn:En; [cbn; discriminate|].
      apply Z.leb_gt in En. apply IH. lia.
Qed.

Lemma send_all_total (data : bytes) (w : W) :
  fst (send_all data w) <> OutOfFuel.
Proof.
  unfold send_all. apply send_all_loop_total. unfold len. lia.
Qed.

Lemma send_all_loop_reliable (P : W -> Prop) (fuel : nat) (data : bytes) :
  reliable P ->
  forall (total : Z) (w : W),
    0 <= total -> P w -> len data - total <= Z.of_nat fuel ->
    exists w', send_all_loop fuel data total w = (Ret tt, w') /\ P w'.
Proof.
  intros Hrel. induction fuel as [|fuel IH]; intros total w Ht HP Hf;
    cbn [send_all_loop].
  - replace (total <? len data) with false by (symmetry; apply Z.ltb_ge; lia).
    eauto.
  - destruct (total <? len data) eqn:Et; [|eauto].
    apply Z.ltb_lt in Et.
    destruct (Hrel (skipn (Z.to_nat total) data) w HP) as (n & w' & Hs & Hn & HP').
    { intros Hnil. apply (f_equal (@List.length byte)) in Hnil.
      rewrite length_skipn in Hnil. cbn in Hnil. unfold len in Et. lia. }
    rewrite Hs. replace (n <=? 0) with false by (symmetry; apply Z.leb_gt; lia).
    apply IH; [lia|exact HP'|lia].
Qed.

Lemma send_all_reliable (P : W -> Prop) (data : bytes) (w : W) :
  reliable P -> P w ->
  exists w', send_all data w = (Ret tt, w') /\ P w'.
Proof.
  intros Hrel HP. unfold send_all.
  apply (send_all_loop_reliable P); [exact Hrel|lia|exact HP|unfold len; lia].
Qed.

Lemma slice_split (data : bytes) (i c : Z) :
  0 <= i -> 0 <= c -> i + c <= len data ->
  len (slice data i (i + c)) = c /\
  skipn (Z.to_nat i) data = slice data i (i + c) ++ skipn (Z.to_nat (i + c)) data.
Proof.
  intros Hi Hc Hlen. unfold slice.
  replace (i + c - i) with c by lia. split.
  - unfold len in *. rewrite length_firstn, length_skipn. lia.
  - replace (Z.to_nat (i + c)) with (Z.to_nat c + Z.to_nat i)%nat by lia.
    rewrite <- skipn_skipn. symmetry. apply firstn_skipn.
Qed.

(** What one call of the chunking loop guarantees, whatever the transport
    does: it ends within its budget, every chunk has between 1 and
    [max_chunk] bytes, the chunks lay out the bytes from offset [i] on in
    order, all of them when the call returns, and an exception can only
    come out of a write. *)
Lemma send_fragmented_loop_spec (data : bytes) (max_chunk : Z) (fuel : nat) :
  1 <= max_chunk ->
  forall (i : Z) (w : W) (rng : R) r w' rng' chunks,
    0 <= i <= len data ->
    len data - i <= Z.of_nat fuel ->
    send_fragmented_loop fuel data max_chunk i w rng = (r, w', rng', chunks) ->
    r <> OutOfFuel /\
    Forall (fun c => 1 <= len c <= max_chunk) chunks /\
    (exists rest, skipn (Z.to_nat i) data = List.concat chunks ++ rest /\
                  (r = Ret tt -> rest = [])) /\
    len chunks <= len data - i /\
    (forall e, r = Raise e -> chunks <> []) /\
    (i = len data -> r = Ret tt /\ chunks = [] /\ w' = w /\ rng' = rng).
Proof.
  intros Hmax. induction fuel as [|fuel IH];
    intros i w rng r w' rng' chunks Hi Hf Hrun; cbn [send_fragmented_loop] in Hrun.
  - replace (i <? len data) with false in Hrun by (symmetry; apply Z.ltb_ge; lia).
    injection Hrun as <- <- <- <-.
    repeat split; try discriminate; auto.
    + exists (skipn (Z.to_nat i) data). split; [reflexivity|].
      intros _. apply skipn_all2. unfold len in *. lia.
    + unfold len in *. cbn. lia.
  - destruct (i <? len data) eqn:Ei.
    + apply Z.ltb_lt in Ei.
      destruct (randint_range 1 (Z.min max_chunk (len data - i)) rng)
        as (c & rng1 & Hc & Hcr); [lia|].
      rewrite Hc in Hrun.
      destruct (slice_split data i c) as [Hsl Hsp]; [lia|lia|lia|].
      pose proof (send_all_total (slice data i (i + c)) w) as Hsa.
      destruct (send_all (slice data i (i + c)) w) as [[u|e|] w1]; cbn [fst] in Hsa.
      * destruct (send_fragmented_loop fuel data max_chunk (i + c) w1 rng1)
          as [[[r2 w2] rng2] chunks2] eqn:Hrec.
        injection Hrun as <- <- <- <-.
        destruct (IH (i + c) w1 rng1 r2 w2 rng2 chunks2)
          as (Hof & Hall & (rest & Hrest & Hdone) & Hcount & Hexc & _);
          [lia|lia|exact Hrec|].
        split; [exact Hof|]. split.
        { constructor; [lia|exact Hall]. }
        split.
        { exists rest. split; [|exact Hdone].
          cbn [List.concat]. rewrite <- app_assoc, <- Hrest. exact Hsp. }
        split.
        { rewrite len_cons. lia. }
        split; [intros; discriminate|]. lia.
      * injection Hrun as <- <- <- <-.
        split; [discriminate|]. split.
        { constructor; [lia|constructor]. }
        split.
        { exists (skipn (Z.to_nat (i + c)) data). split; [|discriminate].
          cbn [List.concat]. rewrite app_nil_r. exact Hsp. }
        split.
        { rewrite len_cons. unfold len at 1. cbn [List.length]. lia. }
        split; [intros; discriminate|]. lia.
      * exfalso. apply Hsa. reflexivity.
    + apply Z.ltb_ge in Ei. injection Hrun as <- <- <- <-.
      repeat split; try discriminate; auto.
      * exists (skipn (Z.to_nat i) data). split; [reflexivity|].
        intros _. apply skipn_all2. unfold len in *. lia.
      * unfold len in *. cbn. lia.
Qed.

Lemma send_fragmented_loop_reliable (P : W -> Prop) (data : bytes)
    (max_chunk : Z) (fuel : nat) :
  1 <= max_chunk -> reliable P ->
  forall (i : Z) (w : W) (rng : R),
    0 <= i <= len data -> len data - i <= Z.of_nat fuel -> P w ->
    exists w' rng' chunks,
      send_fragmented_loop fuel data max_chunk i w rng = (Ret tt, w', rng', chunks)
      /\ P w'.
Proof.
  intros Hmax Hrel. induction fuel as [|fuel IH]; intros i w rng Hi Hf HP;
    cbn [send_fragmented_loop].
  - replace (i <? len data) with false by (symmetry; apply Z.ltb_ge; lia). eauto.
  - destruct (i <? len data) eqn:Ei; [|eauto].
    apply Z.ltb_lt in Ei.
    destruct (randint_range 1 (Z.min max_chunk (len data - i)) rng)
      as (c & rng1 & Hc & Hcr); [lia|].
    rewrite Hc.
    destruct (send_all_reliable P (slice data i (i + c)) w Hrel HP)
      as (w1 & Hs & HP1).
    rewrite Hs.
    destruct (IH (i + c) w1 rng1) as (w2 & rng2 & chunks2 & Hrec & HP2);
      [lia|lia|exact HP1|].
    rewrite Hrec. eauto.
Qed.

End SendFacts.

Lemma send_fragmented_loop_fuel {W : Type} {OSW : OS W} {R : Type}
    {RS : RandomSource R} (data : bytes) (max_chunk : Z) (fuel : nat) :
  forall (fuel' : nat) (i : Z) (w : W) (rng : R),
    (fuel <= fuel')%nat ->
    fst (fst (fst (send_fragmented_loop fuel data max_chunk i w rng))) <> OutOfFuel ->
    send_fragmented_loop fuel' data max_chunk i w rng
      = send_fragmented_loop fuel data max_chunk i w rng.
Proof.
  induction fuel as [|fuel IH]; intros fuel' i w rng Hle Hok.
  - cbn [send_fragmented_loop] in *.
    destruct (i <? len data) eqn:Ei; [cbn in Hok; congruence|].
    destruct fuel'; cbn [send_fragmented_loop]; rewrite Ei; reflexivity.
  - destruct fuel' as [|fuel']; [lia|].
    cbn [send_fragmented_loop] in *.
    destruct (i <? len data); [|reflexivity].
    destruct (randint 1 (Z.min max_chunk (len data - i)) rng) as [[c|e|] rng1];
      try reflexivity.
    destruct (send_all (slice data i (i + c)) w) as [[u|e|] w1]; try reflexivity.
    rewrite (IH fuel' (i + c) w1 rng1); [reflexivity|lia|].
    destruct (send_fragmented_loop fuel data max_chunk (i + c) w1 rng1)
      as [[[r2 w2] rng2] chunks2].
    exact Hok.
Qed.

(** C1: for every [data] and every [max_chunk >= 1], every chunk that
    [send_fragmented] hands to [send_all] has between 1 and [max_chunk]
    bytes; the chunks, concatenated in the order they are emitted, are a
    prefix of [data] and are [data] exactly when the call returns; empty
    data gives no chunk; and over a transport that does not fail the call
    does return, so the chunks then reconstruct [data]. *)
Theorem send_fragmented_reconstructs {W : Type} {OSW : OS W} {R : Type}
    {RS : RandomSource R} (data : bytes) (max_chunk : Z) (w : W) (rng : R) :
  1 <= max_chunk ->
  let '(r, _, _, chunks) := send_fragmented data max_chunk w rng in
  Forall (fun c => 1 <= len c <= max_chunk) chunks /\
  (exists rest, data = List.concat chunks ++ rest /\ (r = Ret tt -> rest = [])) /\
  (r = Ret tt -> List.concat chunks = data) /\
  (data = [] -> r = Ret tt /\ chunks = []) /\
  (forall P : W -> Prop, reliable P -> P w ->
     r = Ret tt /\ List.concat chunks = data).
Proof.
  intros Hmax.
  destruct (send_fragmented data max_chunk w rng) as [[[r w'] rng'] chunks] eqn:Hrun.
  unfold send_fragmented in Hrun.
  replace (max_chunk <=? 0) with false in Hrun by (symmetry; apply Z.leb_gt; lia).
  pose proof (len_nonneg data) as Hlen.
  destruct (send_fragmented_loop_spec data max_chunk (List.length data) Hmax
              0 w rng r w' rng' chunks)
    as (Hof & Hall & (rest & Hrest & Hdone) & Hcount & Hexc & Hempty);
    [lia|unfold len; lia|exact Hrun|].
  cbn [Z.to_nat skipn] in Hrest.
  assert (Hret : r = Ret tt -> List.concat chunks = data).
  { intros Hr. rewrite Hrest, (Hdone Hr), app_nil_r. reflexivity. }
  split; [exact Hall|]. split; [eauto|]. split; [exact Hret|]. split.
  - intros ->. destruct Hempty as (Hr & Hc & _); [reflexivity|]. auto.
  - intros P Hrel HP.
    destruct (send_fragmented_loop_reliable P data max_chunk (List.length data)
                Hmax Hrel 0 w rng) as (w2 & rng2 & chunks2 & Hrun2 & _);
      [lia|unfold len; lia|exact HP|].
    rewrite Hrun in Hrun2. injection Hrun2 as -> _ _ _. auto.
Qed.

Lemma send_fragmented_reconstructs_witness :
  1 <= 4 /\
  let '(r, _, _, chunks) :=
    send_fragmented sample_data 4 (sim_host 1 [inr 1]) (Random 7 : Z) in
  Forall (fun c => 1 <= len c <= 4) chunks /\
  (exists rest, sample_data = List.concat chunks ++ rest /\ (r = Ret tt -> rest = [])) /\
  (r = Ret tt -> List.concat chunks = sample_data) /\
  (sample_data = [] -> r = Ret tt /\ chunks = []) /\
  (forall P : SimHost -> Prop, reliable P -> P (sim_host 1 [inr 1]) ->
     r = Ret tt /\ List.concat chunks = sample_data).
Proof.
  split; [lia|].
  apply (send_fragmented_reconstructs sample_data 4 (sim_host 1 [inr 1]) (Random 7 : Z)).
  lia.
Defined.

(** C6: for every [data] and every [max_chunk <= 0], [send_fragmented]
    raises its [ValueError] with the socket and the random source
    untouched and no chunk emitted; for [max_chunk > 0] that branch is not
    taken: the call is the chunking loop, which can only raise out of a
    write of a chunk and returns at once on empty data. *)
Theorem send_fragmented_rejects_nonpositive_chunk {W : Type} {OSW : OS W}
    {R : Type} {RS : RandomSource R} (data : bytes) (max_chunk : Z)
    (w : W) (rng : R) :
  (max_chunk <= 0 ->
   send_fragmented data max_chunk w rng
     = (Raise (ValueError "max_chunk must be > 0"), w, rng, [])) /\
  (0 < max_chunk ->
   send_fragmented data max_chunk w rng
     = send_fragmented_loop (List.length data) data max_chunk 0 w rng /\
   let '(r, _, _, chunks) := send_fragmented data max_chunk w rng in
   (forall e, r = Raise e -> chunks <> []) /\
   (data = [] -> r = Ret tt)).
Proof.
  split; intros Hmax; unfold send_fragmented.
  - replace (max_chunk <=? 0) with true by (symmetry; apply Z.leb_le; lia).
    reflexivity.
  - replace (max_chunk <=? 0) with false by (symmetry; apply Z.leb_gt; lia).
    split; [reflexivity|].
    destruct (send_fragmented_loop (List.length data) data max_chunk 0 w rng)
      as [[[r w'] rng'] chunks] eqn:Hrun.
    pose proof (len_nonneg data) as Hlen.
    destruct (send_fragmented_loop_spec data max_chunk (List.length data)
                ltac:(lia) 0 w rng r w' rng' chunks)
      as (_ & _ & _ & _ & Hexc & Hempty);
      [lia|unfold len; lia|exact Hrun|].
    split; [exact Hexc|].
    intros ->. apply Hempty. reflexivity.
Qed.

Lemma send_fragmented_rejects_nonpositive_chunk_witness :
  send_fragmented sample_data 0 (sim_host 1 []) (Random 7 : Z)
    = (Raise (ValueError "max_chunk must be > 0"), sim_host 1 [], Random 7, []) /\
  send_fragmented sample_data 4 (sim_host 1 []) (Random 7 : Z)
    = send_fragmented_loop 9 sample_data 4 0 (sim_host 1 []) (Random 7 : Z).
Proof.
  split.
  - apply (proj1 (send_fragmented_rejects_nonpositive_chunk
                    sample_data 0 (sim_host 1 []) (Random 7 : Z))).
    lia.
  - apply (proj2 (send_fragmented_rejects_nonpositive_chunk
                    sample_data 4 (sim_host 1 []) (Random 7 : Z))).
    lia.
Defined.

(** C10: for every [data] and every [max_chunk >= 1] the chunking loop
    terminates: the budget of [len(data)] passes is never exhausted and a
    larger budget changes nothing; every pass emits a chunk of at least
    one byte, so the offset strictly increases; and the loop makes at most
    [len(data)] passes. *)
Theorem send_fragmented_terminates {W : Type} {OSW : OS W} {R : Type}
    {RS : RandomSource R} (data : bytes) (max_chunk : Z) (w : W) (rng : R) :
  1 <= max_chunk ->
  fst (fst (fst (send_fragmented data max_chunk w rng))) <> OutOfFuel /\
  (forall fuel, (List.length data <= fuel)%nat ->
     send_fragmented_loop fuel data max_chunk 0 w rng
       = send_fragmented data max_chunk w rng) /\
  Forall (fun c => 1 <= len c) (snd (send_fragmented data max_chunk w rng)) /\
  (fragment_iterations data max_chunk w rng <= List.length data)%nat.
Proof.
  intros Hmax. unfold fragment_iterations, send_fragmented.
  replace (max_chunk <=? 0) with false by (symmetry; apply Z.leb_gt; lia).
  destruct (send_fragmented_loop (List.length data) data max_chunk 0 w rng)
    as [[[r w'] rng'] chunks] eqn:Hrun.
  pose proof (len_nonneg data) as Hlen.
  destruct (send_fragmented_loop_spec data max_chunk (List.length data) Hmax
              0 w rng r w' rng' chunks)
    as (Hof & Hall & _ & Hcount & _);
    [lia|unfold len; lia|exact Hrun|].
  cbn [fst snd]. split; [exact Hof|]. split; [|split].
  - intros fuel Hfuel. rewrite <- Hrun.
    apply send_fragmented_loop_fuel; [exact Hfuel|]. rewrite Hrun. exact Hof.
  - eapply Forall_impl; [|exact Hall]. cbn. intros c Hc. lia.
  - unfold len in Hcount. lia.
Qed.

Lemma send_fragmented_terminates_witness :
  fst (fst (fst (send_fragmented sample_data 4 (sim_host 1 [inr 1]) (Random 7 : Z))))
    <> OutOfFuel /\
  (fragment_iterations sample_data 4 (sim_host 1 [inr 1%Z]) (Random 7%Z : Z) <= 9)%nat.
Proof.
  destruct (send_fragmented_terminates sample_data 4 (sim_host 1 [inr 1])
              (Random 7 : Z)) as (Hof & _ & _ & Hit).
  - lia.
  - split; [exact Hof|exact Hit].
Defined.

(* ------------------------------------------------------------------ *)
(** ** Binary64 addition never goes down

    What the deadlines need of floating-point arithmetic, from the
    specification of the primitive floats: rounding to nearest is
    monotone and leaves representable numbers alone, so [x + p] is at
    least [x] when [p] is not negative. *)

Lemma digits2_pos_bounds (p : positive) :
  2 ^ (Zpos (digits2_pos p) - 1) <= Zpos p < 2 ^ Zpos (digits2_pos p).
Proof.
  induction p as [p IH|p IH|]; cbn [digits2_pos].
  - rewrite Pos2Z.inj_succ.
    replace (Z.succ (Zpos (digits2_pos p)) - 1)
      with (Z.succ (Zpos (digits2_pos p) - 1)) by lia.
    rewrite !Z.pow_succ_r by lia. lia.
  - rewrite Pos2Z.inj_succ.
    replace (Z.succ (Zpos (digits2_pos p)) - 1)
      with (Z.succ (Zpos (digits2_pos p) - 1)) by lia.
    rewrite !Z.pow_succ_r by lia. lia.
  - cbn. lia.
Qed.

Lemma shr_1_m (mrs : shr_record) :
  0 <= shr_m mrs -> shr_m (shr_1 mrs) = shr_m mrs / 2.
Proof.
  destruct mrs as [m r s]. cbn [shr_m]. intros Hm.
  destruct m as [|[p|p|]|p]; cbn [shr_1 shr_m]; try lia.
  - reflexivity.
  - rewrite (Pos2Z.inj_xI p). apply Z.div_unique with 1; lia.
  - rewrite (Pos2Z.inj_xO p). apply Z.div_unique with 0; lia.
  - reflexivity.
Qed.

Lemma iter_pos_shr_1_m (n : positive) :
  forall mrs, 0 <= shr_m mrs ->
    shr_m (iter_pos shr_1 n mrs) = shr_m mrs / 2 ^ Zpos n.
Proof.
  induction n as [n IH|n IH|]; intros mrs Hm; cbn [iter_pos].
  - assert (H1 : 0 <= shr_m (shr_1 mrs)).
    { rewrite shr_1_m by exact Hm. apply Z.div_pos; lia. }
    assert (H2 : 0 <= shr_m (iter_pos shr_1 n (shr_1 mrs))).
    { rewrite IH by exact H1. apply Z.div_pos; [exact H1|]. apply Z.pow_pos_nonneg; lia. }
    rewrite IH by exact H2. rewrite IH by exact H1. rewrite shr_1_m by exact Hm.
    rewrite !Z.div_div by (try apply Z.pow_pos_nonneg; lia).
    f_equal. rewrite (Pos2Z.inj_xI n).
    replace (2 * Zpos n + 1) with (1 + Zpos n + Zpos n) by lia.
    rewrite !Z.pow_add_r by lia. rewrite Z.pow_1_r. ring.
  - assert (H2 : 0 <= shr_m (iter_pos shr_1 n mrs)).
    { rewrite IH by exact Hm. apply Z.div_pos; [exact Hm|]. apply Z.pow_pos_nonneg; lia. }
    rewrite IH by exact H2. rewrite IH by exact Hm.
    rewrite !Z.div_div by (try apply Z.pow_pos_nonneg; lia).
    f_equal. rewrite (Pos2Z.inj_xO n).
    replace (2 * Zpos n) with (Zpos n + Zpos n) by lia.
    rewrite !Z.pow_add_r by lia. reflexivity.
  - rewrite shr_1_m by exact Hm. reflexivity.
Qed.

Lemma shr_1_exact (k : Z) :
  0 <= k -> shr_1 (Build_shr_record (2 * k) false false) = Build_shr_record k false false.
Proof.
  intros Hk. destruct k as [|p|p]; [reflexivity|reflexivity|lia].
Qed.

Lemma iter_pos_shr_1_exact (n : positive) :
  forall q, 0 <= q ->
    iter_pos shr_1 n (Build_shr_record (q * 2 ^ Zpos n) false false)
    = Build_shr_record q false false.
Proof.
  induction n as [n IH|n IH|]; intros q Hq; cbn [iter_pos].
  - rewrite (Pos2Z.inj_xI n).
    replace (2 * Zpos n + 1) with (1 + Zpos n + Zpos n) by lia.
    rewrite !Z.pow_add_r by lia.
    replace (q * (2 ^ 1 * 2 ^ Zpos n * 2 ^ Zpos n))
      with (2 * ((q * 2 ^ Zpos n) * 2 ^ Zpos n)) by (rewrite Z.pow_1_r; ring).
    assert (0 < 2 ^ Zpos n) by (apply Z.pow_pos_nonneg; lia).
    rewrite shr_1_exact by nia. rewrite IH by nia. apply IH. exact Hq.
  - rewrite (Pos2Z.inj_xO n).
    replace (2 * Zpos n) with (Zpos n + Zpos n) by lia.
    rewrite !Z.pow_add_r by lia.
    replace (q * (2 ^ Zpos n * 2 ^ Zpos n))
      with ((q * 2 ^ Zpos n) * 2 ^ Zpos n) by ring.
    assert (0 < 2 ^ Zpos n) by (apply Z.pow_pos_nonneg; lia).
    rewrite IH by nia. apply IH. exact Hq.
  - rewrite Z.pow_1_r. replace (q * 2) with (2 * q) by ring. apply shr_1_exact. exact Hq.
Qed.
Lemma pos_iter_xO (m d : positive) :
  Zpos (Pos.iter xO m d) = Zpos m * 2 ^ Zpos d.
Proof.
  induction d as [|d IH] using Pos.peano_ind.
  - cbn [Pos.iter]. rewrite Z.pow_1_r. lia.
  - rewrite Pos.iter_succ, (Pos2Z.inj_xO (Pos.iter xO m d)), IH, Pos2Z.inj_succ,
      Z.pow_succ_r by lia.
    ring.
Qed.

Lemma shl_align_spec (m : positive) (e e' : Z) :
  (e' < e ->
   Zpos (fst (shl_align m e e')) = Zpos m * 2 ^ (e - e') /\
   snd (shl_align m e e') = e') /\
  (e <= e' -> shl_align m e e' = (m, e)).
Proof.
  unfold shl_align. split; intros H.
  - destruct (e' - e) as [|d|d] eqn:E; try lia. cbn [fst snd].
    rewrite pos_iter_xO. split; [|reflexivity]. f_equal. f_equal. lia.
  - destruct (e' - e) as [|d|d] eqn:E; try lia; reflexivity.
Qed.

Lemma shr_spec (mrs : shr_record) (e n : Z) :
  0 <= shr_m mrs ->
  shr_m (fst (shr mrs e n)) = shr_m mrs / 2 ^ Z.max n 0 /\
  snd (shr mrs e n) = e + Z.max n 0.
Proof.
  intros Hm. unfold shr. destruct n as [|p|p]; cbn [fst snd].
  - cbn. rewrite Z.div_1_r. lia.
  - rewrite iter_pos_shr_1_m by exact Hm.
    replace (Z.max (Zpos p) 0) with (Zpos p) by lia. auto.
  - replace (Z.max (Zneg p) 0) with 0 by lia. rewrite Z.pow_0_r, Z.div_1_r. lia.
Qed.

Lemma shr_m_of_loc (m : Z) (l : location) : shr_m (shr_record_of_loc m l) = m.
Proof. destruct l as [|[| |]]; reflexivity. Qed.

Lemma round_nearest_even_bounds (m : Z) (l : location) :
  m <= round_nearest_even m l <= m + 1.
Proof.
  unfold round_nearest_even. destruct l as [|[| |]]; try lia.
  destruct (Z.even m); lia.
Qed.

Lemma shr_exact (q e n : Z) :
  0 <= q -> 0 <= n ->
  fst (shr (Build_shr_record (q * 2 ^ n) false false) e n)
  = Build_shr_record q false false.
Proof.
  intros Hq Hn. unfold shr. destruct n as [|p|p]; cbn [fst]; try lia.
  - rewrite Z.pow_0_r, Z.mul_1_r. reflexivity.
  - apply iter_pos_shr_1_exact. exact Hq.
Qed.

Section Binary64.
Local Abbreviation fexp := (SpecFloat.fexp prec emax).
Local Abbreviation emin := (SpecFloat.emin prec emax).

Lemma fexp_eq (e : Z) : fexp e = Z.max (e - 53) (-1074).
Proof. reflexivity. Qed.

(** [binary_round_aux], stage by stage. *)
Lemma binary_round_aux_spec (s : bool) (m e : Z) (l : location) :
  0 <= m ->
  let n := Z.max (fexp (Zdigits2 m + e) - e) 0 in
  let mrs := fst (shr (shr_record_of_loc m l) e (fexp (Zdigits2 m + e) - e)) in
  let m2 := round_nearest_even (m / 2 ^ n) (loc_of_shr_record mrs) in
  let n2 := Z.max (fexp (Zdigits2 m2 + (e + n)) - (e + n)) 0 in
  binary_round_aux prec emax s m e l =
    match m2 / 2 ^ n2 with
    | Z0 => S754_zero s
    | Zpos m3 =>
        if e + n + n2 <=? 971 then S754_finite s m3 (e + n + n2)
        else S754_infinity s
    | Zneg _ => S754_nan
    end.
Proof.
  intros Hm n mrs m2 n2. unfold binary_round_aux, shr_fexp.
  pose proof (shr_spec (shr_record_of_loc m l) e (fexp (Zdigits2 m + e) - e)) as H1.
  rewrite shr_m_of_loc in H1. specialize (H1 Hm). fold n mrs in H1.
  destruct (shr (shr_record_of_loc m l) e (fexp (Zdigits2 m + e) - e))
    as [mrs' e'] eqn:E1.
  cbn [fst snd] in H1, mrs. destruct H1 as [H1 H1']. subst e'.
  subst mrs. rewrite H1. fold m2.
  assert (Hm2 : 0 <= m2).
  { pose proof (round_nearest_even_bounds (m / 2 ^ n) (loc_of_shr_record mrs')).
    fold m2 in H. assert (0 <= m / 2 ^ n); [|lia].
    apply Z.div_pos; [exact Hm|]. apply Z.pow_pos_nonneg; lia. }
  pose proof (shr_spec (shr_record_of_loc m2 loc_Exact) (e + n)
                (fexp (Zdigits2 m2 + (e + n)) - (e + n))) as H2.
  rewrite shr_m_of_loc in H2. specialize (H2 Hm2). fold n2 in H2.
  destruct (shr (shr_record_of_loc m2 loc_Exact) (e + n)
              (fexp (Zdigits2 m2 + (e + n)) - (e + n))) as [mrs'' e''].
  cbn [fst snd] in H2. destruct H2 as [H2 H2']. subst e''. rewrite H2.
  reflexivity.
Qed.


Lemma digits2_pos_unique (p : positive) (d : Z) :
  2 ^ (d - 1) <= Zpos p < 2 ^ d -> Zpos (digits2_pos p) = d.
Proof.
  intros [H1 H2]. pose proof (digits2_pos_bounds p) as [H3 H4].
  set (D := Zpos (digits2_pos p)) in *.
  assert (HD : 1 <= D) by (unfold D; lia).
  assert (Hd : 1 <= d).
  { destruct (Z.le_gt_cases 1 d) as [H|H]; [exact H|exfalso].
    assert (2 ^ d <= 2 ^ 0) by (apply Z.pow_le_mono_r; lia).
    rewrite Z.pow_0_r in H0. lia. }
  destruct (Z.lt_trichotomy D d) as [H|[H|H]]; [exfalso|exact H|exfalso].
  - assert (2 ^ D <= 2 ^ (d - 1)) by (apply Z.pow_le_mono_r; lia). lia.
  - assert (2 ^ d <= 2 ^ (D - 1)) by (apply Z.pow_le_mono_r; lia). lia.
Qed.

Lemma binary_round_spec (s : bool) (M : positive) (e0 : Z) :
  let E := fexp (Zpos (digits2_pos M) + e0) in
  exists m1 m2 : Z,
    (E <= e0 -> m1 = Zpos M * 2 ^ (e0 - E)) /\
    (e0 <= E -> m1 = Zpos M / 2 ^ (E - e0)) /\
    m1 <= m2 <= m1 + 1 /\
    (E <= e0 \/ Zpos M = m1 * 2 ^ (E - e0) -> m2 = m1) /\
    binary_round prec emax s M e0 =
      match m2 / 2 ^ Z.max (fexp (Zdigits2 m2 + E) - E) 0 with
      | Z0 => S754_zero s
      | Zpos m3 =>
          if E + Z.max (fexp (Zdigits2 m2 + E) - E) 0 <=? 971
          then S754_finite s m3 (E + Z.max (fexp (Zdigits2 m2 + E) - E) 0)
          else S754_infinity s
      | Zneg _ => S754_nan
      end.
Proof.
  intros E. unfold binary_round. fold E.
  pose proof (digits2_pos_bounds M) as HdM.
  set (d0 := Zpos (digits2_pos M)) in *.
  destruct (shl_align_spec M e0 E) as [Hlt Hge].
  destruct (Z.lt_ge_cases E e0) as [HE|HE].
  - specialize (Hlt HE). clear Hge.
    destruct (shl_align M e0 E) as [mz ez]. cbn [fst snd] in Hlt.
    destruct Hlt as [Hmz ->].
    assert (Hdz : Zpos (digits2_pos mz) = d0 + (e0 - E)).
    { apply digits2_pos_unique. rewrite Hmz.
      replace (d0 + (e0 - E) - 1) with ((d0 - 1) + (e0 - E)) by lia.
      rewrite !Z.pow_add_r by lia.
      assert (0 < 2 ^ (e0 - E)) by (apply Z.pow_pos_nonneg; lia). nia. }
    exists (Zpos mz), (Zpos mz).
    split; [intros _; exact Hmz|]. split; [intros; lia|].
    split; [lia|]. split; [reflexivity|].
    rewrite binary_round_aux_spec by lia.
    assert (Hn : fexp (Zdigits2 (Zpos mz) + E) - E = 0).
    { cbn [Zdigits2]. rewrite Hdz.
      replace (d0 + (e0 - E) + E) with (d0 + e0) by lia. fold E. lia. }
    rewrite Hn. change (Z.max 0 0) with 0.
    rewrite Z.pow_0_r, Z.div_1_r, !Z.add_0_r.
    cbn [shr fst shr_record_of_loc loc_of_shr_record round_nearest_even].
    rewrite Hn. change (Z.max 0 0) with 0.
    rewrite Z.pow_0_r, Z.div_1_r, !Z.add_0_r. reflexivity.
  - specialize (Hge HE). clear Hlt. rewrite Hge.
    rewrite binary_round_aux_spec by lia.
    cbn [Zdigits2]. fold d0. fold E.
    replace (Z.max (E - e0) 0) with (E - e0) by lia.
    replace (e0 + (E - e0)) with E by lia.
    set (mrs := fst (shr (shr_record_of_loc (Zpos M) loc_Exact) e0 (E - e0))).
    exists (Zpos M / 2 ^ (E - e0)),
           (round_nearest_even (Zpos M / 2 ^ (E - e0)) (loc_of_shr_record mrs)).
    split.
    { intros HE'. replace (E - e0) with 0 by lia. replace (e0 - E) with 0 by lia.
      rewrite Z.pow_0_r, Z.div_1_r. lia. }
    split; [reflexivity|].
    split; [apply round_nearest_even_bounds|].
    split; [|reflexivity].
    intros Hex.
    assert (Hexact : Zpos M = Zpos M / 2 ^ (E - e0) * 2 ^ (E - e0)).
    { destruct Hex as [Hex|Hex]; [|exact Hex].
      replace (E - e0) with 0 by lia. rewrite Z.pow_0_r, Z.div_1_r. lia. }
    subst mrs. cbn [shr_record_of_loc]. rewrite Hexact at 2.
    rewrite shr_exact; [reflexivity| |lia].
    apply Z.div_pos; [lia|]. apply Z.pow_pos_nonneg; lia.
Qed.


Lemma pow2_lt_inv (a b : Z) : 0 <= b -> 2 ^ a < 2 ^ b -> a < b.
Proof.
  intros Hb H. destruct (Z.lt_ge_cases a b) as [Hlt|Hge]; [exact Hlt|exfalso].
  assert (2 ^ b <= 2 ^ a) by (apply Z.pow_le_mono_r; lia). lia.
Qed.

Lemma pow2_pos (a : Z) : 0 <= a -> 0 < 2 ^ a.
Proof. intros. apply Z.pow_pos_nonneg; lia. Qed.

(** Rounding a value that is at least the canonical number
    [mx * 2^ex] gives a number that is at least that, or overflows. *)
Lemma binary_round_ge (s : bool) (M mx : positive) (e0 ex : Z) :
  fexp (Zpos (digits2_pos mx) + ex) = ex ->
  e0 <= ex ->
  Zpos mx * 2 ^ (ex - e0) <= Zpos M ->
  binary_round prec emax s M e0 = S754_infinity s \/
  exists m3 e3,
    binary_round prec emax s M e0 = S754_finite s m3 e3 /\
    (ex < e3 \/ (e3 = ex /\ Zpos mx <= Zpos m3)).
Proof.
  intros Hcan He HM.
  pose proof (digits2_pos_bounds mx) as Hdx.
  pose proof (digits2_pos_bounds M) as Hd0.
  destruct (binary_round_spec s M e0) as (m1 & m2 & Hm1a & Hm1b & Hm2 & _ & ->).
  set (dx := Zpos (digits2_pos mx)) in *.
  set (d0 := Zpos (digits2_pos M)) in *.
  set (E := fexp (d0 + e0)) in *.
  assert (Hdx1 : 1 <= dx) by (unfold dx; lia).
  assert (Hd01 : 1 <= d0) by (unfold d0; lia).
  pose proof (pow2_pos (ex - e0) ltac:(lia)) as Hk.
  assert (Hmag : dx + ex <= d0 + e0).
  { assert (2 ^ (dx - 1 + (ex - e0)) < 2 ^ d0).
    { rewrite Z.pow_add_r by lia. nia. }
    apply pow2_lt_inv in H; lia. }
  assert (HE : ex <= E).
  { unfold E. rewrite fexp_eq in *. lia. }
  assert (HEmin : -1074 <= E) by (unfold E; rewrite fexp_eq; lia).
  assert (H1 : 1 <= m1).
  { destruct (Z.le_gt_cases E e0) as [HEe|HEe].
    - rewrite (Hm1a HEe). pose proof (pow2_pos (e0 - E) ltac:(lia)). nia.
    - rewrite (Hm1b ltac:(lia)).
      apply Z.div_le_lower_bound; [apply pow2_pos; lia|]. rewrite Z.mul_1_r.
      destruct (Z.eq_dec E ex) as [Heq|Hne].
      + rewrite Heq. nia.
      + assert (E = d0 + e0 - 53) by (unfold E in *; rewrite fexp_eq in *; lia).
        assert (2 ^ (E - e0) <= 2 ^ (d0 - 1)) by (apply Z.pow_le_mono_r; lia).
        lia. }
  destruct m2 as [|p2|p2]; try lia.
  pose proof (digits2_pos_bounds p2) as Hd2. cbn [Zdigits2].
  set (d2 := Zpos (digits2_pos p2)) in *.
  set (n2 := Z.max (fexp (d2 + E) - E) 0).
  assert (Hn2 : 0 <= n2 <= d2 - 1).
  { unfold n2. rewrite fexp_eq. unfold d2. lia. }
  assert (H3 : 1 <= Zpos p2 / 2 ^ n2).
  { apply Z.div_le_lower_bound; [apply pow2_pos; lia|]. rewrite Z.mul_1_r.
    assert (2 ^ n2 <= 2 ^ (d2 - 1)) by (apply Z.pow_le_mono_r; lia). lia. }
  destruct (Zpos p2 / 2 ^ n2) as [|m3|m3] eqn:Hm3; try lia.
  destruct (E + n2 <=? 971); [|left; reflexivity].
  right. exists m3, (E + n2). split; [reflexivity|].
  destruct (Z.eq_dec (E + n2) ex) as [Heq|Hne]; [right|left; lia].
  split; [exact Heq|].
  assert (n2 = 0) by lia. assert (E = ex) by lia.
  rewrite H, Z.pow_0_r, Z.div_1_r in Hm3. rewrite <- Hm3.
  assert (Zpos mx <= m1); [|lia].
  rewrite (Hm1b ltac:(lia)). rewrite H0.
  apply Z.div_le_lower_bound; [exact Hk|]. lia.
Qed.

(** Rounding a value that is at most the canonical number
    [mx * 2^ex] gives a number that is at most that, or zero. *)
Lemma binary_round_le (s : bool) (M mx : positive) (e0 ex : Z) :
  fexp (Zpos (digits2_pos mx) + ex) = ex ->
  ex <= 971 ->
  -1074 <= e0 <= ex ->
  Zpos M <= Zpos mx * 2 ^ (ex - e0) ->
  binary_round prec emax s M e0 = S754_zero s \/
  exists m3 e3,
    binary_round prec emax s M e0 = S754_finite s m3 e3 /\
    (e3 < ex \/ (e3 = ex /\ Zpos m3 <= Zpos mx)).
Proof.
  intros Hcan Hb He HM.
  pose proof (digits2_pos_bounds mx) as Hdx.
  pose proof (digits2_pos_bounds M) as Hd0.
  destruct (binary_round_spec s M e0) as (m1 & m2 & Hm1a & Hm1b & Hm2 & Hex & ->).
  set (dx := Zpos (digits2_pos mx)) in *.
  set (d0 := Zpos (digits2_pos M)) in *.
  set (E := fexp (d0 + e0)) in *.
  assert (Hdx1 : 1 <= dx) by (unfold dx; lia).
  assert (Hd01 : 1 <= d0) by (unfold d0; lia).
  pose proof (pow2_pos (ex - e0) ltac:(lia)) as Hk.
  assert (Hmag : d0 + e0 <= dx + ex).
  { assert (2 ^ (d0 - 1) < 2 ^ (dx + (ex - e0))).
    { rewrite Z.pow_add_r by lia. nia. }
    apply pow2_lt_inv in H; lia. }
  assert (HE : E <= ex).
  { unfold E. rewrite fexp_eq in *. lia. }
  assert (HEmin : -1074 <= E) by (unfold E; rewrite fexp_eq; lia).
  assert (H0 : 0 <= m1).
  { destruct (Z.le_gt_cases E e0) as [HEe|HEe].
    - rewrite (Hm1a HEe). pose proof (pow2_pos (e0 - E) ltac:(lia)). nia.
    - rewrite (Hm1b ltac:(lia)). apply Z.div_pos; [lia|apply pow2_pos; lia]. }
  destruct (Z.eq_dec E ex) as [Heq|Hne].
  - (* same exponent as [mx]: the mantissa stays at most [mx] *)
    assert (Hm1 : m1 = Zpos M / 2 ^ (ex - e0)).
    { rewrite (Hm1b ltac:(lia)), Heq. reflexivity. }
    assert (Hle1 : m1 <= Zpos mx).
    { rewrite Hm1. apply Z.div_le_upper_bound; [exact Hk|]. lia. }
    assert (Hle2 : m2 <= Zpos mx).
    { destruct (Z.eq_dec m1 (Zpos mx)) as [Hm|Hm]; [|lia].
      rewrite Hex; [lia|]. right. rewrite Heq.
      pose proof (Z.mul_div_le (Zpos M) (2 ^ (ex - e0)) Hk) as Hd.
      rewrite <- Hm1, Hm in Hd. rewrite Hm. lia. }
    destruct m2 as [|p2|p2]; try lia.
    + left. rewrite Z.div_0_l; [reflexivity|].
      apply Z.neq_sym, Z.lt_neq, pow2_pos. lia.
    + pose proof (digits2_pos_bounds p2) as Hd2. cbn [Zdigits2].
      set (d2 := Zpos (digits2_pos p2)) in *.
      assert (Hd2x : d2 <= dx).
      { assert (2 ^ (d2 - 1) < 2 ^ dx) by lia.
        apply pow2_lt_inv in H; lia. }
      assert (Hn2 : Z.max (fexp (d2 + E) - E) 0 = 0).
      { rewrite Heq. rewrite fexp_eq in *. lia. }
      rewrite Hn2, Z.pow_0_r, Z.div_1_r, Z.add_0_r.
      replace (E <=? 971) with true by (symmetry; apply Z.leb_le; lia).
      right. exists p2, E. split; [reflexivity|]. right. split; [exact Heq|lia].
  - (* a smaller exponent: at most one carry into the next binade *)
    assert (Hlt : E < ex) by lia.
    assert (Hm1 : m1 < 2 ^ 53).
    { destruct (Z.le_gt_cases E e0) as [HEe|HEe].
      - rewrite (Hm1a HEe).
        assert (2 ^ (d0 + (e0 - E)) <= 2 ^ 53).
        { apply Z.pow_le_mono_r; [lia|]. unfold E. rewrite fexp_eq. lia. }
        rewrite Z.pow_add_r in H by lia.
        pose proof (pow2_pos (e0 - E) ltac:(lia)). nia.
      - rewrite (Hm1b ltac:(lia)).
        assert (HEn : E = d0 + e0 - 53) by (unfold E in *; rewrite fexp_eq in *; lia).
        apply Z.div_lt_upper_bound; [apply pow2_pos; lia|].
        rewrite <- Z.pow_add_r by lia.
        replace (E - e0 + 53) with d0 by lia. lia. }
    destruct m2 as [|p2|p2]; try lia.
    + left. rewrite Z.div_0_l; [reflexivity|].
      apply Z.neq_sym, Z.lt_neq, pow2_pos. lia.
    + pose proof (digits2_pos_bounds p2) as Hd2. cbn [Zdigits2].
      set (d2 := Zpos (digits2_pos p2)) in *.
      destruct (Z.eq_dec (Zpos p2) (2 ^ 53)) as [Hc|Hc].
      * assert (Hd54 : d2 = 54).
        { apply digits2_pos_unique. rewrite Hc. split; [|apply Z.pow_lt_mono_r]; lia. }
        assert (Hn2 : Z.max (fexp (d2 + E) - E) 0 = 1).
        { rewrite Hd54, fexp_eq. lia. }
        rewrite Hn2, Hc.
        change (2 ^ 53 / 2 ^ 1) with (Zpos 4503599627370496).
        replace (E + 1 <=? 971) with true by (symmetry; apply Z.leb_le; lia).
        right. exists 4503599627370496%positive, (E + 1). split; [reflexivity|].
        destruct (Z.eq_dec (E + 1) ex) as [Hx|Hx]; [right|left; lia].
        split; [exact Hx|].
        assert (dx = 53) by (rewrite fexp_eq in Hcan; lia).
        rewrite H in Hdx. change (2 ^ (53 - 1)) with 4503599627370496 in Hdx. lia.
      * assert (Hd2x : d2 <= 53).
        { assert (2 ^ (d2 - 1) < 2 ^ 53) by lia.
          apply pow2_lt_inv in H; lia. }
        assert (Hn2 : Z.max (fexp (d2 + E) - E) 0 = 0).
        { rewrite fexp_eq. lia. }
        rewrite Hn2, Z.pow_0_r, Z.div_1_r, Z.add_0_r.
        replace (E <=? 971) with true by (symmetry; apply Z.leb_le; lia).
        right. exists p2, E. split; [reflexivity|]. left. exact Hlt.
Qed.


Lemma bounded_inv (m : positive) (e : Z) :
  bounded prec emax m e = true ->
  fexp (Zpos (digits2_pos m) + e) = e /\ -1074 <= e <= 971.
Proof.
  unfold bounded, canonical_mantissa. intros H.
  apply andb_prop in H. destruct H as [H1 H2].
  apply Z.eqb_eq in H1. apply Z.leb_le in H2.
  split; [exact H1|]. split; [|exact H2].
  rewrite fexp_eq in H1. lia.
Qed.

Lemma shl_align_fst (m : positive) (e e' : Z) :
  e' <= e -> Zpos (fst (shl_align m e e')) = Zpos m * 2 ^ (e - e').
Proof.
  intros H. destruct (shl_align_spec m e e') as [Hlt Hge].
  destruct (Z.eq_dec e e') as [->|Hne].
  - rewrite Hge by lia. cbn [fst]. rewrite Z.sub_diag, Z.pow_0_r. lia.
  - apply Hlt. lia.
Qed.

Lemma binary_round_not_nan (s : bool) (M : positive) (e0 : Z) :
  binary_round prec emax s M e0 = S754_zero s \/
  binary_round prec emax s M e0 = S754_infinity s \/
  exists m e, binary_round prec emax s M e0 = S754_finite s m e.
Proof.
  destruct (binary_round_spec s M e0) as (m1 & m2 & Hm1a & Hm1b & Hm2 & _ & ->).
  set (E := fexp (Zpos (digits2_pos M) + e0)) in *.
  assert (H0 : 0 <= m1).
  { destruct (Z.le_gt_cases E e0) as [HEe|HEe].
    - rewrite (Hm1a HEe). pose proof (pow2_pos (e0 - E) ltac:(lia)). nia.
    - rewrite (Hm1b ltac:(lia)). apply Z.div_pos; [lia|apply pow2_pos; lia]. }
  set (n2 := Z.max (fexp (Zdigits2 m2 + E) - E) 0).
  assert (0 <= m2 / 2 ^ n2).
  { apply Z.div_pos; [lia|]. apply pow2_pos. unfold n2. lia. }
  destruct (m2 / 2 ^ n2) as [|m3|m3]; try lia; [left; reflexivity|].
  destruct (E + n2 <=? 971); eauto.
Qed.

(** Adding a number that is not negative to a number that is neither
    NaN nor minus infinity gives at least that number, and again a
    number that is neither NaN nor minus infinity. *)
Lemma SFadd_ge (x p : spec_float) :
  valid_binary x = true -> valid_binary p = true ->
  SFltb (S754_infinity true) x = true ->
  SFleb (S754_zero false) p = true ->
  SFleb x (SF64add x p) = true /\
  SFltb (S754_infinity true) (SF64add x p) = true.
Proof.
  intros Hvx Hvp Hx Hp.
  destruct x as [sx|[|]| |sx mx ex]; try discriminate Hx;
    destruct p as [sp|[|]| |[|] mp ep]; try discriminate Hp;
    try (split; reflexivity);
    try (destruct sp; split; reflexivity);
    try (destruct sx; try destruct sp; split; reflexivity).
  - (* finite and zero *)
    unfold SF64add, SFadd. unfold SFleb, SFltb, SFcompare.
    rewrite Z.compare_refl, Pos.compare_cont_refl. destruct sx; split; reflexivity.
  - (* finite and finite *)
    cbn [valid_binary] in Hvx, Hvp.
    destruct (bounded_inv _ _ Hvx) as [Hcx Hbx].
    destruct (bounded_inv _ _ Hvp) as [Hcp Hbp].
    unfold SF64add, SFadd.
    set (ez := Z.min ex ep).
    pose proof (shl_align_fst mx ex ez ltac:(unfold ez; lia)) as HX.
    pose proof (shl_align_fst mp ep ez ltac:(unfold ez; lia)) as HP.
    set (X := Zpos (fst (shl_align mx ex ez))) in *.
    set (P := Zpos (fst (shl_align mp ep ez))) in *.
    pose proof (pow2_pos (ex - ez) ltac:(unfold ez; lia)) as Hkx.
    pose proof (pow2_pos (ep - ez) ltac:(unfold ez; lia)) as Hkp.
    assert (HPpos : 0 < P) by (unfold P; lia).
    cbn [cond_Zopp]. destruct sx; cbn [cond_Zopp].
    + (* a negative number: the sum is of either sign *)
      destruct (- X + P) as [|M|M] eqn:HM; cbn [binary_normalize].
      * split; reflexivity.
      * destruct (binary_round_not_nan false M ez) as [->|[->|(m & e & ->)]];
          split; reflexivity.
      * destruct (binary_round_le true M mx ez ex Hcx ltac:(lia) ltac:(unfold ez; lia))
          as [->|(m3 & e3 & -> & Hle)]; [lia|split; reflexivity|].
        split; [|reflexivity].
        unfold SFleb, SFcompare.
        destruct Hle as [Hlt|[-> Hle]].
        -- apply Z.compare_gt_iff in Hlt. rewrite Hlt. reflexivity.
        -- rewrite Z.compare_refl. fold (Pos.compare mx m3).
           destruct (Pos.compare mx m3) eqn:Hc; try reflexivity.
           exfalso. apply Pos.compare_lt_iff, Pos2Z.pos_lt_pos in Hc. lia.
    + (* a number that is not negative: so is the sum *)
      destruct (X + P) as [|M|M] eqn:HM; try lia. cbn [binary_normalize].
      destruct (binary_round_ge false M mx ez ex Hcx ltac:(unfold ez; lia) ltac:(lia))
        as [->|(m3 & e3 & -> & Hge)]; [split; reflexivity|].
      split; [|reflexivity].
      unfold SFleb, SFcompare.
      destruct Hge as [Hlt|[-> Hle]].
      * apply Z.compare_lt_iff in Hlt. rewrite Hlt. reflexivity.
      * rewrite Z.compare_refl. fold (Pos.compare mx m3).
        destruct (Pos.compare mx m3) eqn:Hc; try reflexivity.
        exfalso. apply Pos.compare_gt_iff, Pos2Z.pos_lt_pos in Hc. lia.
Qed.


Lemma binary_round_aux_not_nan (m e : Z) (l : location) :
  0 <= m ->
  SFleb (S754_zero false) (binary_round_aux prec emax false m e l) = true.
Proof.
  intros Hm. rewrite binary_round_aux_spec by exact Hm.
  set (n := Z.max (fexp (Zdigits2 m + e) - e) 0).
  set (mrs := fst (shr (shr_record_of_loc m l) e (fexp (Zdigits2 m + e) - e))).
  pose proof (round_nearest_even_bounds (m / 2 ^ n) (loc_of_shr_record mrs)) as Hb.
  set (m2 := round_nearest_even (m / 2 ^ n) (loc_of_shr_record mrs)) in *.
  set (n2 := Z.max (fexp (Zdigits2 m2 + (e + n)) - (e + n)) 0).
  assert (0 <= m / 2 ^ n) by (apply Z.div_pos; [lia|apply pow2_pos; unfold n; lia]).
  assert (0 <= m2 / 2 ^ n2) by (apply Z.div_pos; [lia|apply pow2_pos; unfold n2; lia]).
  destruct (m2 / 2 ^ n2) as [|m3|m3]; try lia; [reflexivity|].
  destruct (e + n + n2 <=? 971); reflexivity.
Qed.

(** The quotient of 1 by a positive number is not negative. *)
Lemma SFdiv_one_nonneg (r : spec_float) :
  SFltb (S754_zero false) r = true ->
  SFleb (S754_zero false) (SF64div (Prim2SF 1) r) = true.
Proof.
  intros Hr. change (Prim2SF 1) with (S754_finite false 4503599627370496 (-52)).
  destruct r as [sr|[|]| |[|] mr er]; try discriminate Hr; [reflexivity|].
  unfold SF64div, SFdiv, SFdiv_core_binary. cbn [xorb].
  set (sh := -52 - er - _).
  set (m' := match sh with
             | 0 => Zpos 4503599627370496
             | Zpos _ => Z.shiftl (Zpos 4503599627370496) sh
             | Zneg _ => 0
             end).
  assert (Hm' : 0 <= m').
  { unfold m'. destruct sh; try lia. apply Z.shiftl_nonneg. lia. }
  assert (Hq : 0 <= fst (Z.div_eucl m' (Zpos mr))).
  { change (fst (Z.div_eucl m' (Zpos mr))) with (m' / Zpos mr).
    apply Z.div_pos; lia. }
  destruct (Z.div_eucl m' (Zpos mr)) as [q r]. cbn [fst] in Hq.
  apply binary_round_aux_not_nan. exact Hq.
Qed.

End Binary64.

Lemma add_nonneg_ge (x p : float) :
  (neg_infinity <? x)%float = true -> (0 <=? p)%float = true ->
  (x <=? x + p)%float = true /\ (neg_infinity <? x + p)%float = true.
Proof.
  rewrite !ltb_spec, !leb_spec, add_spec.
  change (Prim2SF neg_infinity) with (S754_infinity true).
  change (Prim2SF 0) with (S754_zero false).
  apply SFadd_ge; apply Prim2SF_valid.
Qed.

Lemma div_one_nonneg (rate : float) :
  (0 <? rate)%float = true -> (0 <=? 1 / rate)%float = true.
Proof.
  rewrite ltb_spec, leb_spec, div_spec.
  change (Prim2SF 0) with (S754_zero false).
  apply SFdiv_one_nonneg.
Qed.
Lemma SFleb_trans (a b c : spec_float) :
  SFleb a b = true -> SFleb b c = true -> SFleb a c = true.
Proof.
  unfold SFleb, SFcompare.
  destruct a as [sa|sa| |sa ma ea], b as [sb|sb| |sb mb eb], c as [sc|sc| |sc mc ec];
    repeat match goal with s : bool |- _ => destruct s end;
    try discriminate; try reflexivity;
    fold (Pos.compare ma mb); fold (Pos.compare mb mc); fold (Pos.compare ma mc);
    destruct (Z.compare_spec ea eb); destruct (Z.compare_spec eb ec);
    destruct (Z.compare_spec ea ec); subst;
    try discriminate; try reflexivity; try lia;
    destruct (Pos.compare_spec ma mb); destruct (Pos.compare_spec mb mc);
    destruct (Pos.compare_spec ma mc); subst;
    try discriminate; try reflexivity; try lia;
    intros; exfalso;
    repeat match goal with H : (_ < _)%positive |- _ => apply Pos2Z.pos_lt_pos in H end;
    lia.
Qed.

Lemma leb_trans (a b c : float) :
  (a <=? b)%float = true -> (b <=? c)%float = true -> (a <=? c)%float = true.
Proof. rewrite !leb_spec. apply SFleb_trans. Qed.


Lemma SFleb_refl (x : spec_float) :
  SFltb (S754_infinity true) x = true -> SFleb x x = true.
Proof.
  destruct x as [s|[|]| |s m e]; try discriminate; try reflexivity.
  intros _. unfold SFleb, SFcompare.
  rewrite Z.compare_refl, Pos.compare_cont_refl. destruct s; reflexivity.
Qed.

Lemma leb_refl (x : float) :
  (neg_infinity <? x)%float = true -> (x <=? x)%float = true.
Proof.
  rewrite ltb_spec, leb_spec.
  change (Prim2SF neg_infinity) with (S754_infinity true).
  apply SFleb_refl.
Qed.

Lemma ltb_zero_not_leb (rate : float) :
  (0 <? rate)%float = true -> (rate <=? 0)%float = false.
Proof.
  rewrite ltb_spec, leb_spec. change (Prim2SF 0) with (S754_zero false).
  destruct (Prim2SF rate) as [s|[|]| |[|] m e]; try discriminate; reflexivity.
Qed.

(** From a clock reading that is a number above minus infinity, adding
    a period that is not negative again and again never goes down. *)
Lemma accumulate_step (anchor period : float) :
  (neg_infinity <? anchor)%float = true -> (0 <=? period)%float = true ->
  forall k,
    (neg_infinity <? accumulate anchor period k)%float = true /\
    (accumulate anchor period k <=? accumulate anchor period (S k))%float = true.
Proof.
  intros Ha Hp.
  assert (Hk : forall k, (neg_infinity <? accumulate anchor period k)%float = true).
  { induction k as [|k IH]; [exact Ha|].
    cbn [accumulate]. apply (add_nonneg_ge _ _ IH Hp). }
  intros k. split; [apply Hk|].
  cbn [accumulate]. apply (add_nonneg_ge _ _ (Hk k) Hp).
Qed.

Lemma accumulate_nondecreasing (anchor period : float) :
  (neg_infinity <? anchor)%float = true -> (0 <=? period)%float = true ->
  forall i j, (i <= j)%nat ->
    (accumulate anchor period i <=? accumulate anchor period j)%float = true.
Proof.
  intros Ha Hp i j Hij. induction Hij as [|j Hij IH].
  - apply leb_refl. apply (accumulate_step _ _ Ha Hp).
  - eapply leb_trans; [exact IH|]. apply (accumulate_step _ _ Ha Hp).
Qed.

(* ------------------------------------------------------------------ *)
(** ** Pacing *)

Section PacingFacts.
Context {W : Type} {OSW : OS W}.

Lemma deadlines_at_unthrottled (rate : float) (ws : list W) :
  deadlines_at rate DGUnthrottled ws = repeat 0%float (List.length ws).
Proof.
  induction ws as [|w ws IH]; [reflexivity|].
  cbn [deadlines_at rate_controller_next_deadline List.length repeat].
  now rewrite IH.
Qed.

Lemma deadlines_at_paced (rate period t : float) (ws : list W) :
  deadlines_at rate (DGPaced period t) ws
    = map (fun k => accumulate t period (S k)) (seq 0 (List.length ws)).
Proof.
  revert t. induction ws as [|w ws IH]; intros t; [reflexivity|].
  cbn [deadlines_at rate_controller_next_deadline List.length seq map accumulate].
  f_equal. rewrite IH, <- seq_shift, map_map.
  apply map_ext. intros k. cbn [accumulate].
  f_equal. clear. induction k as [|k IHk]; [reflexivity|].
  cbn [accumulate]. now rewrite IHk.
Qed.

End PacingFacts.

(** C4 (as amended): asked for deadlines in the successive states
    [w :: ws], a fresh generator answers as follows.  When
    [rate_mps <= 0] holds, every deadline is 0.0 and the clock is never
    read.  Otherwise, and so for every [rate_mps > 0], the clock is read
    once, at the first request, and the [n]-th deadline is that reading
    after [n] floating-point additions of [period = 1.0 / rate_mps]:
    each deadline is the previous one plus [period], whatever the clock
    reads later.  For every [rate_mps > 0] the deadlines are
    non-decreasing, from the clock reading on: the reading and the
    deadlines after it, in this order, never go down (the reading being
    a number above minus infinity, as every reading of a clock is). *)
Theorem deadlines_accumulate_period {W : Type} {OSW : OS W}
    (rate : float) (w : W) (ws : list W) :
  deadlines_at rate DGStart (w :: ws) =
    (if (rate <=? 0)%float then repeat 0%float (S (List.length ws))
     else map (fun k => accumulate (fst (perf_counter w)) (1 / rate)%float (S k))
              (seq 0 (S (List.length ws)))) /\
  snd (rate_controller_next_deadline rate DGStart w) =
    (if (rate <=? 0)%float then w else snd (perf_counter w)) /\
  snd (rate_controller_next_deadline rate DGUnthrottled w) = w /\
  (forall period t, snd (rate_controller_next_deadline rate (DGPaced period t) w) = w) /\
  ((0 <? rate)%float = true ->
   (neg_infinity <? fst (perf_counter w))%float = true ->
   forall (i j : nat) (d d' : float),
     (i <= j)%nat ->
     nth_error (fst (perf_counter w) :: deadlines_at rate DGStart (w :: ws)) i
       = Some d ->
     nth_error (fst (perf_counter w) :: deadlines_at rate DGStart (w :: ws)) j
       = Some d' ->
     (d <=? d')%float = true).
Proof.
  assert (Hds : deadlines_at rate DGStart (w :: ws) =
                (if (rate <=? 0)%float then repeat 0%float (S (List.length ws))
                 else map (fun k => accumulate (fst (perf_counter w))
                                               (1 / rate)%float (S k))
                          (seq 0 (S (List.length ws))))).
  { cbn [deadlines_at rate_controller_next_deadline].
    destruct (rate <=? 0)%float.
    + rewrite deadlines_at_unthrottled. reflexivity.
    + destruct (perf_counter w) as [t w'] eqn:Ht. cbn [fst].
      rewrite deadlines_at_paced. cbn [seq map accumulate]. f_equal.
      rewrite <- seq_shift, map_map. apply map_ext. intros k.
      cbn [accumulate]. f_equal.
      clear. induction k as [|k IHk]; [reflexivity|].
      cbn [accumulate]. now rewrite IHk. }
  split; [exact Hds|]. split; [|split; [|split]].
  - cbn [rate_controller_next_deadline]. destruct (rate <=? 0)%float; [reflexivity|].
    destruct (perf_counter w). reflexivity.
  - reflexivity.
  - reflexivity.
  - intros Hrate Hanchor i j d d' Hij Hi Hj.
    rewrite Hds, (ltb_zero_not_leb rate Hrate) in Hi, Hj.
    set (anchor := fst (perf_counter w)) in *.
    set (period := (1 / rate)%float) in *.
    assert (Hnth : forall k x,
               nth_error
                 (anchor :: map (fun k => accumulate anchor period (S k))
                                (seq 0 (S (List.length ws)))) k = Some x ->
               x = accumulate anchor period k).
    { intros [|k] x Hk; cbn [nth_error] in Hk; [injection Hk as <-; reflexivity|].
      rewrite nth_error_map in Hk.
      destruct (nth_error (seq 0 (S (List.length ws))) k) as [k'|] eqn:Hs;
        [|discriminate].
      injection Hk as <-.
      assert (Hlt : (k < List.length (seq 0 (S (List.length ws))))%nat)
        by (apply nth_error_Some; congruence).
      rewrite length_seq in Hlt.
      rewrite (nth_error_nth' _ 0%nat) in Hs by (rewrite length_seq; exact Hlt).
      rewrite seq_nth in Hs by exact Hlt. injection Hs as <-. reflexivity. }
    rewrite (Hnth i d Hi), (Hnth j d' Hj).
    apply accumulate_nondecreasing; [exact Hanchor| |exact Hij].
    apply div_one_nonneg. exact Hrate.
Qed.

Lemma deadlines_accumulate_period_witness :
  let ds := deadlines_at 10 DGStart (repeat (sim_host_at 0) 6) in
  (0 <=? nth 0 ds 0)%float = true /\
  (nth 4 ds 0 <=? nth 5 ds 0)%float = true.
Proof.
  pose proof (proj2 (proj2 (proj2 (proj2
                (deadlines_accumulate_period 10 (sim_host_at 0)
                   (repeat (sim_host_at 0) 5)))))) as H.
  split.
  - apply (H eq_refl eq_refl 0%nat 1%nat); [lia|reflexivity|reflexivity].
  - apply (H eq_refl eq_refl 5%nat 6%nat); [lia|reflexivity|reflexivity].
Defined.

(** Why the clock reading has to be a number: from a reading that is
    NaN every deadline is NaN, and no NaN is less than or equal to
    another. *)
Example deadlines_of_nan_reading :
  let ds := deadlines_at 10 DGStart (repeat (sim_host_at nan) 2) in
  (nth 0 ds 0 <=? nth 1 ds 0)%float = false.
Proof.
  vm_compute. reflexivity.
Qed.

(** C4, as stated, fails: at 10 messages a second with the clock reading
    0.0 at the first request, the sixth deadline is not 0.0 + 6 * (1/10),
    and the sixth and fifth deadlines do not differ by 1/10. *)
Lemma deadline_spacing_counterexample :
  let ds := deadlines_at 10 DGStart (repeat (sim_host_at 0) 6) in
  (0 <? 10)%float = true /\
  nth 5 ds 0%float <> (0 + 6 * (1 / 10))%float /\
  (nth 5 ds 0 - nth 4 ds 0)%float <> (1 / 10)%float.
Proof.
  vm_compute. repeat split; discriminate.
Qed.

(* ------------------------------------------------------------------ *)
(** ** The send loop: what its steps leave alone *)

Section Neutral.
Context {W : Type} {OSW : OS W} {R : Type} {RS : RandomSource R}.
Local Open Scope run_scope.

Lemma neutral_ret {A : Type} (a : A) : neutral (ret (W := W) (R := R) a).
Proof. intros m. reflexivity. Qed.

Lemma neutral_lift {A : Type} (r : outcome A) : neutral (lift (W := W) (R := R) r).
Proof. intros m. reflexivity. Qed.

Lemma neutral_bind {A B : Type} (c : M W R A) (k : A -> M W R B) :
  neutral c -> (forall a, neutral (k a)) -> neutral (bind c k).
Proof.
  intros Hc Hk m. unfold bind. specialize (Hc m).
  destruct (c m) as [[a|e|] m1]; cbn [snd] in *; [|exact Hc|exact Hc].
  rewrite <- Hc. apply Hk.
Qed.

Lemma neutral_os_call {A : Type} (f : W -> (exn + A) * W) :
  neutral (os_call (R := R) f).
Proof.
  intros m. unfold os_call. destruct (f (m_world m)) as [[e|a] w']; reflexivity.
Qed.

Lemma neutral_clock : neutral (clock (W := W) (R := R)).
Proof.
  intros m. unfold clock. destruct (perf_counter (m_world m)); reflexivity.
Qed.

Lemma neutral_next_deadline (rate : float) : neutral (R := R) (next_deadline rate).
Proof.
  intros m. unfold next_deadline.
  destruct (rate_controller_next_deadline rate (m_deadlines m) (m_world m))
    as [[d g] w']. reflexivity.
Qed.

Lemma neutral_maybe_sleep_until (deadline : float) :
  neutral (R := R) (maybe_sleep_until deadline).
Proof.
  unfold maybe_sleep_until. destruct (deadline <=? 0)%float; [apply neutral_ret|].
  apply neutral_bind; [apply neutral_clock|]. intros now.
  destruct (0 <? deadline - now)%float; [apply neutral_os_call|apply neutral_ret].
Qed.

Lemma neutral_maybe_set_nodelay (enabled : bool) :
  neutral (R := R) (maybe_set_nodelay enabled).
Proof.
  unfold maybe_set_nodelay. destruct enabled; [apply neutral_os_call|apply neutral_ret].
Qed.

Lemma neutral_maybe_report (every_s : float) : neutral (R := R) (_maybe_report every_s).
Proof.
  unfold _maybe_report. apply neutral_bind; [apply neutral_clock|].
  intros now m. destruct (every_s <=? now - t_last_report (m_stats m))%float;
    reflexivity.
Qed.

Lemma neutral_final_report : neutral (_final_report (W := W) (R := R)).
Proof.
  unfold _final_report. apply neutral_bind; [apply neutral_clock|].
  intros _. apply neutral_ret.
Qed.

Lemma neutral_recv_reply : neutral (recv_reply (W := W) (R := R)).
Proof.
  intros m. unfold recv_reply.
  destruct (sock_recv 4096 (m_world m)) as [[e|data] w'].
  - destruct e; reflexivity.
  - destruct data; reflexivity.
Qed.

Lemma write_message_observed (cfg : GenConfig) (msg : bytes) (m : Machine W R) :
  let m' := snd (write_message cfg msg m) in
  m_stats m' = m_stats m /\ m_csv m' = m_csv m /\ m_gen m' = m_gen m /\
  m_seq m' = m_seq m /\ m_attempts m' = m_attempts m.
Proof.
  unfold write_message. destruct (fragment cfg).
  - destruct (send_fragmented msg (fragment_max_chunk cfg) (m_world m) (m_rng m))
      as [[[r w'] rng'] chunks]. cbn. auto.
  - destruct (send_all msg (m_world m)) as [r w']. cbn. auto.
Qed.

Lemma send_fragmented_total (data : bytes) (max_chunk : Z) (w : W) (rng : R) :
  fst (fst (fst (send_fragmented data max_chunk w rng))) <> OutOfFuel.
Proof.
  destruct (Z_le_gt_dec max_chunk 0) as [Hle|Hgt].
  - unfold send_fragmented.
    replace (max_chunk <=? 0) with true by (symmetry; apply Z.leb_le; lia).
    cbn. discriminate.
  - unfold send_fragmented.
    replace (max_chunk <=? 0) with false by (symmetry; apply Z.leb_gt; lia).
    destruct (send_fragmented_loop (List.length data) data max_chunk 0 w rng)
      as [[[r w'] rng'] chunks] eqn:Hrun.
    pose proof (len_nonneg data).
    destruct (send_fragmented_loop_spec data max_chunk (List.length data)
                ltac:(lia) 0 w rng r w' rng' chunks) as (Hof & _);
      [lia|unfold len; lia|exact Hrun|exact Hof].
Qed.

Lemma write_message_total (cfg : GenConfig) (msg : bytes) (m : Machine W R) :
  fst (write_message cfg msg m) <> OutOfFuel.
Proof.
  unfold write_message. destruct (fragment cfg).
  - pose proof (send_fragmented_total msg (fragment_max_chunk cfg)
                  (m_world m) (m_rng m)) as Ht.
    destruct (send_fragmented msg (fragment_max_chunk cfg) (m_world m) (m_rng m))
      as [[[r w'] rng'] chunks]. exact Ht.
  - pose proof (send_all_total msg (m_world m)) as Ht.
    destruct (send_all msg (m_world m)) as [r w']. exact Ht.
Qed.

End Neutral.

(* ------------------------------------------------------------------ *)
(** ** The send loop: invariants carried through a run *)

Section LoopInvariant.
Context {W : Type} {OSW : OS W} {R : Type} {RS : RandomSource R}.
Variable cfg : GenConfig.
Variables I J : Machine W R -> Prop.
Hypothesis I_observed : forall m m', observed m' = observed m -> I m -> I m'.
Hypothesis I_J : forall m, I m -> J m.
Hypothesis send_next_keeps : keeps I J (send_next cfg).
Local Open Scope run_scope.

Lemma keeps_neutral {A : Type} (c : M W R A) : neutral c -> keeps I J c.
Proof.
  intros Hn m HI. specialize (Hn m).
  destruct (is_raise (fst (c m))).
  - apply I_J. eapply I_observed; eauto.
  - eapply I_observed; eauto.
Qed.

Lemma keeps_bind {A B : Type} (c : M W R A) (k : A -> M W R B) :
  keeps I J c -> (forall a, keeps I J (k a)) -> keeps I J (bind c k).
Proof.
  intros Hc Hk m HI. unfold bind. specialize (Hc m HI).
  destruct (c m) as [[a|e|] m1]; cbn [fst snd is_raise] in *.
  - apply Hk. exact Hc.
  - exact Hc.
  - exact Hc.
Qed.

Lemma keeps_burst_loop (end_time : float) (n : nat) :
  keeps I J (burst_loop cfg end_time n).
Proof.
  induction n as [|n IH]; cbn [burst_loop].
  - apply keeps_neutral, neutral_ret.
  - apply keeps_bind; [apply keeps_neutral, neutral_clock|]. intros now.
    destruct (end_time <=? now)%float; [apply keeps_neutral, neutral_ret|].
    apply keeps_bind; [exact send_next_keeps|]. intros _. exact IH.
Qed.

Lemma keeps_loop_body (end_time : float) : keeps I J (loop_body cfg end_time).
Proof.
  unfold loop_body. destruct (burst cfg).
  - apply keeps_bind; [apply keeps_burst_loop|]. intros _.
    apply keeps_bind; [apply keeps_neutral, neutral_lift|]. intros ms.
    apply keeps_bind; [apply keeps_neutral, neutral_os_call|]. intros _.
    apply keeps_neutral, neutral_ret.
  - apply keeps_bind; [apply keeps_neutral, neutral_next_deadline|]. intros d.
    apply keeps_bind; [apply keeps_neutral, neutral_maybe_sleep_until|]. intros _.
    apply keeps_bind; [exact send_next_keeps|]. intros _.
    apply keeps_bind.
    + destruct (recv_replies cfg);
        [apply keeps_neutral, neutral_recv_reply|apply keeps_neutral, neutral_ret].
    + intros [|]; [|apply keeps_neutral, neutral_ret].
      apply keeps_bind; [apply keeps_neutral, neutral_maybe_report|]. intros _.
      apply keeps_neutral, neutral_ret.
Qed.

Lemma keeps_main_loop (end_time : float) (fuel : nat) :
  keeps I J (main_loop cfg end_time fuel).
Proof.
  induction fuel as [|fuel IH]; cbn [main_loop].
  - apply keeps_neutral, neutral_lift.
  - apply keeps_bind; [apply keeps_neutral, neutral_clock|]. intros now.
    destruct (now <? end_time)%float; [|apply keeps_neutral, neutral_ret].
    apply keeps_bind; [apply keeps_loop_body|].
    intros [|]; [exact IH|apply keeps_neutral, neutral_ret].
Qed.

Lemma neutral_run_connect : neutral (R := R) (run_connect cfg).
Proof.
  unfold run_connect.
  apply neutral_bind; [apply neutral_os_call|]. intros _.
  apply neutral_bind; [apply neutral_os_call|]. intros _.
  apply neutral_bind; [apply neutral_maybe_set_nodelay|]. intros _.
  apply neutral_os_call.
Qed.

(** From the machine [run] starts its [try] with, the body of the [try]
    keeps the invariants. *)
Lemma run_try_keeps (fuel : nat) (t : float) (w : W) :
  I (initial_machine cfg t w) ->
  let (r, m) := run_try cfg fuel (initial_machine cfg t w) in
  if is_raise r then J m else I m.
Proof.
  intros HI. unfold run_try, bind at 1.
  pose proof (neutral_run_connect (initial_machine cfg t w)) as Hobs.
  destruct (run_connect cfg (initial_machine cfg t w)) as [[u|e|] m1];
    cbn [snd] in Hobs.
  - assert (Hset : observed (snd (run_setup cfg m1)) = observed m1).
    { unfold observed in *. cbn in Hobs. cbn.
      injection Hobs as _ _ _ _ Hg Hs _. rewrite Hg, Hs. reflexivity. }
    unfold bind at 1.
    assert (Hret : exists end_time, fst (run_setup cfg m1) = Ret end_time)
      by (eexists; reflexivity).
    destruct Hret as [end_time Hret].
    destruct (run_setup cfg m1) as [r2 m2]. cbn [fst snd] in *. subst r2.
    assert (HI2 : I m2).
    { apply (I_observed (initial_machine cfg t w)); [congruence|exact HI]. }
    pose proof (keeps_bind (main_loop cfg end_time fuel)
                  (fun _ => _final_report ;; ret 0) (keeps_main_loop end_time fuel)) as Hk.
    specialize (Hk (fun _ => keeps_bind _ (fun _ => ret 0)
                               (keeps_neutral _ neutral_final_report)
                               (fun _ => keeps_neutral _ (neutral_ret 0))) m2 HI2).
    destruct ((main_loop cfg end_time fuel ;; _final_report ;; ret 0) m2) as [r3 m3].
    exact Hk.
  - cbn [is_raise]. apply I_J. eapply I_observed; eauto.
  - cbn [is_raise]. eapply I_observed; eauto.
Qed.

End LoopInvariant.

(* ------------------------------------------------------------------ *)
(** ** The send loop: one send *)

Section SendOne.
Context {W : Type} {OSW : OS W} {R : Type} {RS : RandomSource R}.
Local Open Scope run_scope.

Lemma ok_count_app (l : list attempt) (a : attempt) :
  ok_count (l ++ [a]) = ok_count l + (if a_ok a then 1 else 0).
Proof.
  induction l as [|b l IH]; cbn [app ok_count fold_right] in *; [lia|].
  fold (ok_count (l ++ [a])). fold (ok_count l). rewrite IH. lia.
Qed.

Lemma fail_count_app (l : list attempt) (a : attempt) :
  fail_count (l ++ [a]) = fail_count l + (if a_ok a then 0 else 1).
Proof.
  induction l as [|b l IH]; cbn [app fail_count fold_right] in *; [lia|].
  fold (fail_count (l ++ [a])). fold (fail_count l). rewrite IH. lia.
Qed.

Lemma ok_bytes_app (l : list attempt) (a : attempt) :
  ok_bytes (l ++ [a]) = ok_bytes l + (if a_ok a then len (a_msg a) else 0).
Proof.
  induction l as [|b l IH]; cbn [app ok_bytes fold_right] in *; [lia|].
  fold (ok_bytes (l ++ [a])). fold (ok_bytes l). rewrite IH. lia.
Qed.

Lemma all_ok_counts (l : list attempt) :
  Forall (fun a => a_ok a = true) l -> ok_count l = len l /\ fail_count l = 0.
Proof.
  induction 1 as [|a l Ha Hl [IH1 IH2]]; [split; reflexivity|].
  cbn [ok_count fail_count fold_right]. fold (ok_count l). fold (fail_count l).
  rewrite Ha, IH1, IH2, len_cons. lia.
Qed.

(** A row handed to the log: nothing but the log (and the operating
    system) changes, and only an existing log can raise. *)
Lemma writerow_effect (line : csv_line) (m : Machine W R) :
  let r := fst (writerow line m) in
  let m' := snd (writerow line m) in
  m_stats m' = m_stats m /\ m_gen m' = m_gen m /\ m_seq m' = m_seq m /\
  m_attempts m' = m_attempts m /\
  m_csv m' = option_map (fun lines => lines ++ [line]) (m_csv m) /\
  (r = Ret tt \/ (m_csv m <> None /\ exists e, r = Raise e)).
Proof.
  unfold writerow, os_call. destruct (m_csv m) as [lines|] eqn:E.
  - cbn [m_world set_csv].
    destruct (csv_writerow line (m_world m)) as [[e|[]] w']; cbn;
      repeat split; auto; right; split; [discriminate|eauto].
  - cbn. rewrite E. repeat split; auto.
Qed.

(** The [except] clause of [_send_one] always raises. *)
Lemma send_failed_effect (s : Z) (t : float) (e : exn) (m : Machine W R) :
  let r := fst (send_failed s t e m) in
  let m' := snd (send_failed s t e m) in
  m_gen m' = m_gen m /\ m_seq m' = m_seq m /\ m_attempts m' = m_attempts m /\
  sent (m_stats m') = sent (m_stats m) /\
  send_bytes (m_stats m') = send_bytes (m_stats m) /\
  replies (m_stats m') = replies (m_stats m) /\
  recv_bytes (m_stats m') = recv_bytes (m_stats m) /\
  send_fail (m_stats m') = send_fail (m_stats m) + 1 /\
  m_csv m' =
    option_map (fun lines => lines ++ [Row s t 0 "send_fail"]) (m_csv m) /\
  exists e', r = Raise e'.
Proof.
  unfold send_failed.
  pose proof (writerow_effect (Row s t 0 "send_fail")
                (set_stats (on_send_fail (m_stats m)) m)) as Hw.
  destruct (writerow (Row s t 0 "send_fail")
              (set_stats (on_send_fail (m_stats m)) m)) as [r1 m1].
  cbn [fst snd] in Hw.
  destruct Hw as (Hst & Hgen & Hseq & Hatt & Hcsv & Hr).
  cbn in Hst, Hgen, Hseq, Hatt, Hcsv.
  destruct r1 as [u|e'|]; cbn [fst snd]; rewrite Hst, Hgen, Hseq, Hatt, Hcsv; cbn;
    repeat split; eauto.
  destruct Hr as [Hr|(_ & e' & Hr)]; discriminate.
Qed.

(** What one call of [_send_one] does to the counters, the log and the
    attempts: exactly one attempt is recorded.  A write that goes through
    adds one to [sent] and the message length to [send_bytes] and hands
    an "ok" row to the log; a write that raises adds one to [send_fail]
    only and hands over a row with 0 bytes and "send_fail"; in both cases
    the call returns only if the write and the row went through.  When
    the write went through and the "ok" row raised, the failure is
    counted as well and the "send_fail" row follows the "ok" row. *)
Lemma _send_one_effect (cfg : GenConfig) (msg : bytes) (s : Z) (m : Machine W R) :
  exists (t : float) (ok : bool),
    let r := fst (_send_one cfg msg s m) in
    let m' := snd (_send_one cfg msg s m) in
    m_attempts m' = m_attempts m ++ [{| a_seq := s; a_msg := msg; a_ok := ok |}] /\
    m_gen m' = m_gen m /\ m_seq m' = m_seq m /\
    sent (m_stats m') = sent (m_stats m) + (if ok then 1 else 0) /\
    send_bytes (m_stats m') = send_bytes (m_stats m) + (if ok then len msg else 0) /\
    replies (m_stats m') = replies (m_stats m) /\
    recv_bytes (m_stats m') = recv_bytes (m_stats m) /\
    (((if ok then r = Ret tt else exists e, r = Raise e) /\
      send_fail (m_stats m') = send_fail (m_stats m) + (if ok then 0 else 1) /\
      m_csv m' =
        option_map
          (fun lines =>
             lines ++ [Row s t (if ok then len msg else 0)
                           (if ok then "ok"%string else "send_fail"%string)])
          (m_csv m)) \/
     (ok = true /\ (exists e, r = Raise e) /\
      send_fail (m_stats m') = send_fail (m_stats m) + 1 /\
      exists lines,
        m_csv m = Some lines /\
        m_csv m' =
          Some (lines ++ [Row s t (len msg) "ok"; Row s t 0 "send_fail"]))).
Proof.
  unfold _send_one.
  destruct (perf_counter (m_world m)) as [t w1].
  pose proof (write_message_observed cfg msg (set_world w1 m)) as Hobs.
  pose proof (write_message_total cfg msg (set_world w1 m)) as Htot.
  destruct (write_message cfg msg (set_world w1 m)) as [[u|e|] m2];
    cbn [fst snd] in *.
  - destruct Hobs as (Hst & Hcsv & Hgen & Hseq & Hatt).
    cbn in Hst, Hcsv, Hgen, Hseq, Hatt.
    exists t, true.
    set (m3 := record_attempt {| a_seq := s; a_msg := msg; a_ok := true |}
                 (set_stats (on_send_ok msg (m_stats m2)) m2)).
    pose proof (writerow_effect (Row s t (len msg) "ok") m3) as Hw.
    destruct (writerow (Row s t (len msg) "ok") m3) as [r4 m4].
    cbn [fst snd] in Hw.
    destruct Hw as (Hst4 & Hgen4 & Hseq4 & Hatt4 & Hcsv4 & Hr4).
    subst m3. cbn in Hst4, Hgen4, Hseq4, Hatt4, Hcsv4, Hr4.
    rewrite Hst, Hgen, Hseq, Hatt, Hcsv in *.
    destruct r4 as [u4|e4|].
    + cbn [fst snd is_raise]. rewrite Hst4, Hgen4, Hseq4, Hatt4, Hcsv4. cbn.
      destruct u4. repeat split; auto.
      left. repeat split; auto; lia.
    + pose proof (send_failed_effect s t e4 m4) as Hf.
      destruct (send_failed s t e4 m4) as [r5 m5]. cbn [fst snd] in Hf |- *.
      destruct Hf as (Hg5 & Hs5 & Ha5 & Hsent5 & Hb5 & Hrep5 & Hrb5 & Hf5 & Hc5 & e5 & ->).
      rewrite Hg5, Hs5, Ha5, Hsent5, Hb5, Hrep5, Hrb5, Hf5, Hc5.
      rewrite Hst4, Hgen4, Hseq4, Hatt4, Hcsv4. cbn [is_raise].
      destruct Hr4 as [Hr4|(Hsome & _)]; [discriminate|].
      destruct (m_csv m) as [lines|]; [|congruence]. cbn.
      repeat split; eauto.
      right. repeat split; eauto. exists lines. rewrite <- app_assoc. auto.
    + destruct Hr4 as [Hr4|(_ & e' & Hr4)]; discriminate.
  - destruct Hobs as (Hst & Hcsv & Hgen & Hseq & Hatt).
    cbn in Hst, Hcsv, Hgen, Hseq, Hatt.
    exists t, false.
    pose proof (send_failed_effect s t e
                  (record_attempt {| a_seq := s; a_msg := msg; a_ok := false |} m2)) as Hf.
    destruct (send_failed s t e
                (record_attempt {| a_seq := s; a_msg := msg; a_ok := false |} m2))
      as [r5 m5].
    cbn [fst snd] in Hf |- *.
    destruct Hf as (Hg5 & Hs5 & Ha5 & Hsent5 & Hb5 & Hrep5 & Hrb5 & Hf5 & Hc5 & e5 & ->).
    rewrite Hg5, Hs5, Ha5, Hsent5, Hb5, Hrep5, Hrb5, Hf5, Hc5. cbn.
    rewrite Hst, Hgen, Hseq, Hatt, Hcsv.
    repeat split; eauto; lia.
  - exfalso. apply Htot. reflexivity.
Qed.

(** What [next(gen)] does when the generator is about to produce
    sequence number [k]: it touches nothing but the generator, and a
    message it returns is the frame of [make_payload] at [k]. *)
Lemma next_message_effect (cfg : GenConfig) (m : Machine W R) (k : Z) :
  gen_sync (m_gen m) k ->
  let r := fst (next_message cfg m) in
  let m' := snd (next_message cfg m) in
  m_stats m' = m_stats m /\ m_csv m' = m_csv m /\ m_seq m' = m_seq m /\
  m_attempts m' = m_attempts m /\
  match r with
  | Ret msg =>
      exists (rng rng' : R) (payload : bytes),
        make_payload cfg k rng = (Ret payload, rng') /\
        build_message (msg_type cfg) payload = Ret msg /\
        m_gen m' = MGYielded rng' k
  | Raise _ => True
  | OutOfFuel => m' = m
  end.
Proof.
  intros Hsync. unfold next_message.
  assert (Hbody : forall rng,
             let r := fst (message_stream_body cfg rng k m) in
             let m' := snd (message_stream_body cfg rng k m) in
             m_stats m' = m_stats m /\ m_csv m' = m_csv m /\ m_seq m' = m_seq m /\
             m_attempts m' = m_attempts m /\
             match r with
             | Ret msg =>
                 exists (rng rng' : R) (payload : bytes),
                   make_payload cfg k rng = (Ret payload, rng') /\
                   build_message (msg_type cfg) payload = Ret msg /\
                   m_gen m' = MGYielded rng' k
             | Raise _ => True
             | OutOfFuel => m' = m
             end).
  { intros rng. unfold message_stream_body.
    destruct (make_payload cfg k rng) as [[payload|e|] rng'] eqn:Hp;
      [|cbn; auto using conj|cbn; auto using conj].
    destruct (build_message (msg_type cfg) payload) as [msg|e|] eqn:Hb;
      cbn; repeat split; eauto 10. }
  destruct (m_gen m) as [|rng s|]; cbn [gen_sync] in Hsync.
  - subst k. apply Hbody.
  - subst k. apply Hbody.
  - contradiction.
Qed.

Lemma Trace_observed (cfg : GenConfig) (m m' : Machine W R) :
  observed m' = observed m -> Trace cfg m -> Trace cfg m'.
Proof.
  unfold observed. intros Heq [H1 H2 H3 H4 H5 H6 H7].
  injection Heq as E1 E2 E3 E4 E5 E6 E7.
  constructor; rewrite ?E1, ?E2, ?E3, ?E4, ?E7; assumption.
Qed.

Lemma LogFailed_observed (cfg : GenConfig) (m m' : Machine W R) :
  observed m' = observed m -> LogFailed cfg m -> LogFailed cfg m'.
Proof.
  unfold observed. intros Heq [H1 H2 H3 H4 H5 H6 H7 H8 H9].
  injection Heq as E1 E2 E3 E4 E5 E6 E7.
  constructor; rewrite ?E1, ?E2, ?E3, ?E4, ?E7; assumption.
Qed.

Lemma Sync_observed (m m' : Machine W R) :
  observed m' = observed m -> Sync m -> Sync m'.
Proof.
  unfold observed. intros Heq [H1 H2 H3].
  injection Heq as E1 E2 E3 E4 E5 E6 E7.
  constructor; rewrite ?E5, ?E6, ?E7; assumption.
Qed.

(** The trace invariant after one more attempt. *)
Lemma Trace_append (cfg : GenConfig) (m m' : Machine W R) (a : attempt) (t : float) :
  Trace cfg m ->
  Forall (fun b => a_ok b = true) (m_attempts m) ->
  a_seq a = len (m_attempts m) ->
  framed cfg a ->
  m_attempts m' = m_attempts m ++ [a] ->
  sent (m_stats m') = sent (m_stats m) + (if a_ok a then 1 else 0) ->
  send_bytes (m_stats m') =
    send_bytes (m_stats m) + (if a_ok a then len (a_msg a) else 0) ->
  send_fail (m_stats m') = send_fail (m_stats m) + (if a_ok a then 0 else 1) ->
  m_csv m' =
    option_map
      (fun lines =>
         lines ++ [Row (a_seq a) t (if a_ok a then len (a_msg a) else 0)
                       (if a_ok a then "ok"%string else "send_fail"%string)])
      (m_csv m) ->
  Trace cfg m'.
Proof.
  intros [H1 H2 H3 H4 H5 H6 H7] Hok Hseq Hfr Hatt Hsent Hbytes Hfail Hcsv.
  constructor.
  - intros i b Hnth. rewrite Hatt in Hnth.
    destruct (Nat.lt_ge_cases i (List.length (m_attempts m))) as [Hlt|Hge].
    + rewrite nth_error_app1 in Hnth by exact Hlt. eauto.
    + rewrite nth_error_app2 in Hnth by exact Hge.
      destruct (i - List.length (m_attempts m))%nat as [|j] eqn:Hj; cbn in Hnth.
      * injection Hnth as <-. rewrite Hseq. unfold len. lia.
      * destruct j; discriminate.
  - rewrite Hatt. apply Forall_app. split; [exact H2|]. constructor; [exact Hfr|constructor].
  - intros i b Hnth Hb. rewrite Hatt in Hnth |- *. rewrite length_app. cbn [List.length].
    destruct (Nat.lt_ge_cases i (List.length (m_attempts m))) as [Hlt|Hge].
    + rewrite nth_error_app1 in Hnth by exact Hlt.
      rewrite Forall_forall in Hok. apply nth_error_In in Hnth.
      rewrite (Hok b Hnth) in Hb. discriminate.
    + rewrite nth_error_app2 in Hnth by exact Hge.
      destruct (i - List.length (m_attempts m))%nat as [|j] eqn:Hj; cbn in Hnth.
      * lia.
      * destruct j; discriminate.
  - rewrite Hsent, Hatt, ok_count_app, H4. reflexivity.
  - rewrite Hbytes, Hatt, ok_bytes_app, H5. reflexivity.
  - rewrite Hfail, Hatt, fail_count_app, H6. reflexivity.
  - rewrite Hcsv, Hatt. unfold csv_matches in *.
    destruct (m_csv m) as [lines|]; cbn [option_map]; [|exact H7].
    destruct H7 as (Hlog & rows & -> & Hrows). split; [exact Hlog|].
    exists (rows ++ [Row (a_seq a) t (if a_ok a then len (a_msg a) else 0)
                         (if a_ok a then "ok"%string else "send_fail"%string)]).
    split; [reflexivity|].
    apply Forall2_app; [exact Hrows|]. constructor; [|constructor].
    exists t. reflexivity.
Qed.

(** The statement pair of a send keeps the invariants of a run: between
    sends [Trace] and [Sync] hold; after an exception [Trace] holds, or
    [LogFailed] when it was the "ok" row that raised. *)
Lemma send_next_keeps_trace (cfg : GenConfig) :
  keeps (fun m => Trace cfg m /\ Sync m)
        (fun m => Trace cfg m \/ LogFailed cfg m) (send_next cfg).
Proof.
  intros m [HT HS]. unfold send_next, bind.
  pose proof (next_message_effect cfg m (m_seq m) (sy_gen _ HS)) as Hn.
  destruct (next_message cfg m) as [[msg|e|] m1]; cbn [fst snd] in Hn;
    destruct Hn as (Hst & Hcsv & Hseq & Hatt & Hr).
  - destruct Hr as (rng & rng' & payload & Hp & Hb & Hgen).
    destruct (_send_one_effect cfg msg (m_seq m1) m1)
      as (t & ok & Hatt2 & Hgen2 & Hseq2 & Hsent & Hbytes & _ & _ & Hcase).
    destruct (_send_one cfg msg (m_seq m1) m1) as [r2 m2]; cbn [fst snd] in *.
    assert (Hfr : framed cfg {| a_seq := m_seq m1; a_msg := msg; a_ok := ok |}).
    { exists rng, rng', payload. cbn. rewrite Hseq. auto. }
    destruct Hcase as [(Hres & Hfail & Hcsv2)|(-> & (e & ->) & Hfail & lines & Hl & Hcsv2)].
    + assert (HT2 : Trace cfg m2).
      { apply (Trace_append cfg m m2
                 {| a_seq := m_seq m1; a_msg := msg; a_ok := ok |} t HT).
        - apply (sy_all_ok _ HS).
        - cbn. rewrite Hseq. apply (sy_seq _ HS).
        - exact Hfr.
        - rewrite Hatt2, Hatt. reflexivity.
        - cbn. rewrite Hsent, Hst. reflexivity.
        - cbn. rewrite Hbytes, Hst. reflexivity.
        - cbn. rewrite Hfail, Hst. reflexivity.
        - cbn. rewrite Hcsv2, Hcsv. reflexivity. }
      destruct ok.
      * subst r2. cbn [is_raise fst snd]. split.
        -- destruct HT2 as [T1 T2 T3 T4 T5 T6 T7]. constructor; cbn; assumption.
        -- constructor; cbn.
           ++ rewrite Hatt2, Hatt. apply Forall_app. split; [apply (sy_all_ok _ HS)|].
              constructor; [reflexivity|constructor].
           ++ rewrite Hatt2, Hatt, Hseq2, Hseq, len_app, (sy_seq _ HS).
              unfold len at 3. cbn. lia.
           ++ rewrite Hgen2, Hgen. cbn. rewrite Hseq2, Hseq. reflexivity.
      * destruct Hres as [e ->]. cbn [is_raise fst snd]. left. exact HT2.
    + cbn [is_raise fst snd]. right.
      pose proof (all_ok_counts _ (sy_all_ok _ HS)) as [Hoc Hfc].
      destruct HT as [T1 T2 T3 T4 T5 T6 T7].
      assert (Hlen : len (m_attempts m2) = len (m_attempts m) + 1).
      { rewrite Hatt2, Hatt, len_app. reflexivity. }
      constructor.
      * intros i b Hnth. rewrite Hatt2, Hatt in Hnth.
        destruct (Nat.lt_ge_cases i (List.length (m_attempts m))) as [Hlt|Hge].
        -- rewrite nth_error_app1 in Hnth by exact Hlt. eauto.
        -- rewrite nth_error_app2 in Hnth by exact Hge.
           destruct (i - List.length (m_attempts m))%nat as [|j] eqn:Hj; cbn in Hnth.
           ++ injection Hnth as <-. cbn. rewrite Hseq, (sy_seq _ HS). unfold len. lia.
           ++ destruct j; discriminate.
      * rewrite Hatt2, Hatt. apply Forall_app. split; [exact T2|].
        constructor; [exact Hfr|constructor].
      * rewrite Hatt2, Hatt. apply Forall_app. split; [apply (sy_all_ok _ HS)|].
        constructor; [reflexivity|constructor].
      * rewrite Hatt2. intros Hnil. apply app_eq_nil in Hnil.
        destruct Hnil as [_ Hnil]. discriminate.
      * rewrite Hsent, Hst, T4, Hoc, Hlen. reflexivity.
      * rewrite Hbytes, Hst, T5, Hatt2, Hatt, ok_bytes_app. reflexivity.
      * rewrite Hfail, Hst, T6, Hfc. reflexivity.
      * unfold csv_matches in T7. rewrite <- Hcsv, Hl in T7. apply T7.
      * unfold csv_matches in T7. rewrite <- Hcsv, Hl in T7.
        destruct T7 as (_ & rows & -> & Hrows).
        exists (rows ++ [Row (m_seq m1) t (len msg) "ok"]), t.
        split.
        -- rewrite Hcsv2, Hlen, Hseq, (sy_seq _ HS). cbn [app].
           rewrite <- app_assoc. cbn [app].
           replace (len (m_attempts m) + 1 - 1) with (len (m_attempts m)) by lia.
           reflexivity.
        -- rewrite Hatt2, Hatt. apply Forall2_app; [exact Hrows|].
           constructor; [|constructor]. exists t. reflexivity.
  - cbn [is_raise fst snd]. left. destruct HT as [H1 H2 H3 H4 H5 H6 H7].
    constructor; rewrite ?Hst, ?Hcsv, ?Hatt; assumption.
  - cbn [is_raise fst snd]. subst m1. split; assumption.
Qed.

Lemma initial_machine_trace (cfg : GenConfig) (t : float) (w : W) :
  Trace cfg (initial_machine (R := R) cfg t w) /\ Sync (initial_machine (R := R) cfg t w).
Proof.
  split.
  - constructor; cbn; try reflexivity.
    + intros [|i] a Hn; discriminate.
    + constructor.
    + intros [|i] a Hn; discriminate.
    + unfold csv_matches. destruct (log_enabled cfg) eqn:E; [|reflexivity].
      split; [reflexivity|]. exists []. split; [reflexivity|constructor].
  - constructor; cbn; [constructor|reflexivity|reflexivity].
Qed.

End SendOne.

(* ------------------------------------------------------------------ *)
(** ** The send loop: a whole run *)

Section RunFacts.
Context {W : Type} {OSW : OS W} {R : Type} {RS : RandomSource R}.
Local Open Scope run_scope.

Lemma run_finally_cases (cfg : GenConfig) (r : outcome Z) (m : Machine W R) :
  observed (snd (run_finally cfg r m)) = observed m /\
  (fst (run_finally cfg r m) = r \/
   (log_enabled cfg = true /\ exists e, fst (run_finally cfg r m) = Raise e)).
Proof.
  unfold run_finally. destruct (sock_close (m_world m)) as [x w1].
  destruct (log_enabled cfg).
  - destruct (close_csv w1) as [[e|u] w2]; cbn; eauto.
  - cbn. auto.
Qed.

Lemma bind_returns {A B : Type} (c : M W R A) (k : A -> M W R B)
    (m : Machine W R) (b : B) :
  fst (bind c k m) = Ret b ->
  exists a m1, c m = (Ret a, m1) /\ fst (k a m1) = Ret b.
Proof.
  unfold bind. destruct (c m) as [[a|e|] m1]; cbn [fst]; try discriminate.
  eauto.
Qed.

Lemma run_try_code (cfg : GenConfig) (fuel : nat) (m : Machine W R) (c : Z) :
  fst (run_try cfg fuel m) = Ret c -> c = 0.
Proof.
  unfold run_try. intros Hr.
  apply bind_returns in Hr. destruct Hr as (u1 & m1 & _ & Hr).
  apply bind_returns in Hr. destruct Hr as (end_time & m2 & _ & Hr).
  apply bind_returns in Hr. destruct Hr as (u3 & m3 & _ & Hr).
  apply bind_returns in Hr. destruct Hr as (u4 & m4 & _ & Hr).
  cbn in Hr. congruence.
Qed.

(** Where a run ends: either before its [try] (nothing was attempted and
    an exception leaves [run]), or in a state where the trace invariant
    holds; there either nothing was raised in the [try] and the counters
    are in step, or the result is 1 (unless closing the log raises); or,
    with result 1 too, after the write of an "ok" row raised. *)
Lemma run_trace (cfg : GenConfig) (fuel : nat) (w : W) :
  let r := fst (run cfg fuel w) in
  let m : Machine W R := snd (run cfg fuel w) in
  (m_attempts m = [] /\ exists e, r = Raise e) \/
  (Trace cfg m /\
   ((Sync m /\ (r = Ret 0 \/ r = OutOfFuel \/
                (log_enabled cfg = true /\ exists e, r = Raise e))) \/
    (r = Ret 1 \/ (log_enabled cfg = true /\ exists e, r = Raise e)))) \/
  (LogFailed cfg m /\
   (r = Ret 1 \/ (log_enabled cfg = true /\ exists e, r = Raise e))).
Proof.
  unfold run. destruct (perf_counter w) as [t w1].
  destruct (if log_enabled cfg
            then open_csv match log_csv cfg with
                          | Some p => p
                          | None => EmptyString
                          end w1
            else (inr tt, w1)) as [[e|u] w2].
  - left. cbn. eauto.
  - destruct (if log_enabled cfg then csv_writerow csv_header w2
              else (inr tt, w2)) as [[e|u1] w2']; [left; cbn; eauto|].
    destruct (socket_create w2') as [[e|u2] w3]; [left; cbn; eauto|].
    right.
    pose proof (run_try_keeps cfg (fun m => Trace cfg m /\ Sync m)
                  (fun m => Trace cfg m \/ LogFailed cfg m)) as Hk.
    specialize (Hk (fun m m' E HI => conj (Trace_observed cfg m m' E (proj1 HI))
                                          (Sync_observed m m' E (proj2 HI)))).
    specialize (Hk (fun m HI => or_introl (proj1 HI))
                   (send_next_keeps_trace cfg) fuel t w3
                   (initial_machine_trace cfg t w3)).
    pose proof (run_try_code cfg fuel (initial_machine cfg t w3)) as Hc.
    destruct (run_try cfg fuel (initial_machine cfg t w3)) as [[c|e|] m0];
      cbn [is_raise fst] in Hk, Hc.
    + specialize (Hc c eq_refl). subst c. destruct Hk as [HT HS].
      destruct (run_finally_cases cfg (Ret 0) m0) as [Hobs Hres].
      left. split; [eapply Trace_observed; eauto|]. left.
      split; [eapply Sync_observed; eauto|].
      destruct Hres as [Hres|Hres]; auto.
    + destruct (run_finally_cases cfg (Ret 1) m0) as [Hobs Hres].
      destruct Hk as [HT|HL].
      * left. split; [eapply Trace_observed; eauto|]. right. exact Hres.
      * right. split; [eapply LogFailed_observed; eauto|]. exact Hres.
    + cbn [fst snd]. destruct Hk as [HT HS]. left. split; [exact HT|]. left. auto.
Qed.

Lemma failure_is_last (cfg : GenConfig) (m : Machine W R) (n : nat) (a : attempt) :
  Trace cfg m -> nth_error (m_attempts m) n = Some a -> a_ok a = false ->
  m_attempts m = firstn n (m_attempts m) ++ [a] /\
  List.length (firstn n (m_attempts m)) = n /\
  Forall (fun b => a_ok b = true) (firstn n (m_attempts m)).
Proof.
  intros HT Hn Ha. pose proof (tr_failure_last _ _ HT n a Hn Ha) as Hlen.
  assert (Hsplit : m_attempts m = firstn n (m_attempts m) ++ [a]).
  { rewrite <- (firstn_skipn n (m_attempts m)) at 1. f_equal.
    pose proof (nth_error_split (m_attempts m) n Hn) as (l1 & l2 & Heq & Hl1).
    rewrite Heq. rewrite skipn_app, Hl1, Nat.sub_diag, skipn_all2 by lia.
    cbn [skipn app]. f_equal.
    rewrite Heq, length_app in Hlen. cbn [List.length] in Hlen.
    destruct l2; [reflexivity|cbn in Hlen; lia]. }
  split; [exact Hsplit|]. split; [rewrite length_firstn; lia|].
  apply Forall_forall. intros b Hb.
  destruct (In_nth_error _ _ Hb) as [i Hi].
  assert (Hlt : (i < n)%nat).
  { assert (Hsome : nth_error (firstn n (m_attempts m)) i <> None) by congruence.
    apply nth_error_Some in Hsome. rewrite length_firstn in Hsome. lia. }
  rewrite nth_error_firstn in Hi.
  replace (i <? n)%nat with true in Hi by (symmetry; apply Nat.ltb_lt; exact Hlt).
  destruct (a_ok b) eqn:Eb; [reflexivity|].
  pose proof (tr_failure_last _ _ HT i b Hi Eb). lia.
Qed.

Lemma ok_rows (l : list attempt) (rows : list csv_line) :
  Forall (fun b => a_ok b = true) l -> Forall2 row_of l rows ->
  Forall (fun line => exists s t b, line = Row s t b "ok"%string) rows.
Proof.
  intros Hok Hrows. induction Hrows as [|a line l rows Hr Hrows IH]; [constructor|].
  inversion Hok as [|? ? Ha Hl]; subst. constructor; [|apply IH; exact Hl].
  destruct Hr as [t ->]. rewrite Ha. eauto.
Qed.

End RunFacts.

Lemma Forall2_nth_error {A B : Type} (P : A -> B -> Prop) (l : list A) (l' : list B) :
  Forall2 P l l' ->
  forall k a, nth_error l k = Some a -> exists b, nth_error l' k = Some b /\ P a b.
Proof.
  induction 1 as [|x y l l' Hxy Hrest IH]; intros k a Hk.
  - destruct k; discriminate.
  - destruct k as [|k]; cbn in *.
    + injection Hk as <-. eauto.
    + apply IH. exact Hk.
Qed.

(** C7: if in a run the write of some message fails, say of the message
    after [n] successful ones, then that attempt is the last: no further
    message is sent and there is no retry; the failure counter is
    incremented once, to 1; the sent counter and the sent-bytes counter
    are not incremented for that message: they stand at [n] and at the
    bytes of the [n] earlier messages; exactly one record
    (n, time, 0, "send_fail") is appended to the log, after the header
    and the [n] "ok" records (the log being optional, there is none to
    append to when no log is configured); and the run returns the failed
    result 1 (unless closing the log raises in the [finally], which
    fails the run as well). *)
Theorem run_aborts_on_write_failure {W : Type} {OSW : OS W} {R : Type}
    {RS : RandomSource R} (cfg : GenConfig) (fuel : nat) (w : W) :
  let r := fst (run cfg fuel w) in
  let m : Machine W R := snd (run cfg fuel w) in
  forall (n : nat) (a : attempt),
    nth_error (m_attempts m) n = Some a -> a_ok a = false ->
    List.length (m_attempts m) = S n /\
    Forall (fun b => a_ok b = true) (firstn n (m_attempts m)) /\
    a_seq a = Z.of_nat n /\
    send_fail (m_stats m) = 1 /\
    sent (m_stats m) = Z.of_nat n /\
    send_bytes (m_stats m) = ok_bytes (firstn n (m_attempts m)) /\
    match m_csv m with
    | Some lines =>
        log_enabled cfg = true /\
        exists rows t,
          lines = csv_header :: rows ++ [Row (Z.of_nat n) t 0 "send_fail"] /\
          List.length rows = n /\
          Forall (fun line => exists s t' b, line = Row s t' b "ok"%string) rows
    | None => log_enabled cfg = false
    end /\
    (r = Ret 1 \/ (log_enabled cfg = true /\ exists e, r = Raise e)).
Proof.
  intros r m n a Hn Ha.
  destruct (run_trace cfg fuel w) as [[Hnil _]|[[HT Hres]|[HL _]]];
    fold m in Hnil || fold m r in HT, Hres || fold m in HL.
  - rewrite Hnil in Hn. destruct n; discriminate.
  - destruct (failure_is_last cfg m n a HT Hn Ha) as (Hsplit & Hlen & Hok).
    pose proof (tr_numbered _ _ HT n a Hn) as Hseq.
    pose proof (tr_sent _ _ HT) as Hs. pose proof (tr_bytes _ _ HT) as Hb.
    pose proof (tr_fail _ _ HT) as Hf. pose proof (tr_csv _ _ HT) as Hc.
    remember (firstn n (m_attempts m)) as oks eqn:Hoks.
    destruct (all_ok_counts oks Hok) as [Hcnt Hfc].
    rewrite Hsplit in Hs, Hb, Hf, Hc.
    rewrite ok_count_app in Hs. rewrite ok_bytes_app in Hb.
    rewrite fail_count_app in Hf. rewrite Ha in Hs, Hb, Hf.
    split; [rewrite Hsplit, length_app; cbn; lia|].
    split; [exact Hok|]. split; [exact Hseq|].
    split; [lia|]. split; [unfold len in Hcnt; lia|]. split; [lia|].
    split.
    + unfold csv_matches in Hc. destruct (m_csv m) as [lines|]; [|exact Hc].
      destruct Hc as (Hlog & rows' & -> & Hrows). split; [exact Hlog|].
      apply Forall2_app_inv_l in Hrows.
      destruct Hrows as (rows & last & Hr1 & Hr2 & ->).
      inversion Hr2 as [|? line ? ? Hrow Hnil]; subst.
      inversion Hnil; subst. destruct Hrow as [t ->].
      exists rows, t. rewrite Ha, Hseq. split; [reflexivity|].
      split; [rewrite <- (Forall2_length Hr1); exact Hlen|].
      eapply ok_rows; eauto.
    + destruct Hres as [[HS _]|Hres]; [|exact Hres].
      exfalso. pose proof (sy_all_ok _ HS) as Hall.
      rewrite Forall_forall in Hall. apply nth_error_In in Hn.
      rewrite (Hall a Hn) in Ha. discriminate.
  - exfalso. pose proof (lf_all_ok _ _ HL) as Hall.
    rewrite Forall_forall in Hall. apply nth_error_In in Hn.
    rewrite (Hall a Hn) in Ha. discriminate.
Qed.

Lemma run_aborts_on_write_failure_witness :
  let m := snd (run (R := Z) sample_config 20 failing_host) in
  List.length (m_attempts m) = 3%nat /\
  send_fail (m_stats m) = 1 /\
  sent (m_stats m) = 2 /\
  (fst (run (R := Z) sample_config 20 failing_host) = Ret 1 \/
   (log_enabled sample_config = true /\
    exists e, fst (run (R := Z) sample_config 20 failing_host) = Raise e)).
Proof.
  destruct (run_aborts_on_write_failure (R := Z) sample_config 20 failing_host 2
              {| a_seq := 2; a_msg := [x04; x44; x00; x00; x00]; a_ok := false |})
    as (Hlen & _ & _ & Hfail & Hsent & _ & _ & Hres).
  - vm_compute. reflexivity.
  - reflexivity.
  - repeat split; assumption.
Defined.

(** C9 (as amended): at every send the sequence counter of [run] equals
    the sequence number the message generator used for the message.  For
    every [k], the [k]-th message handed to [_send_one] (counting from
    0) was given sequence number [k], is the frame around [make_payload]
    at sequence [k], and, when a log is configured, is logged with
    sequence column [k]; as long as nothing was raised, the counter of
    [run] stands at the number of messages sent and the generator,
    suspended at its [yield] with the previous number, will use that
    same number next.  What the payload holds of [k] is the first
    [min(payload_len, 4)] bytes of the big-endian encoding of
    [k mod 2^32]: all four bytes from payload length 4 on, only the most
    significant ones below. *)
Theorem run_sequence_counters_agree {W : Type} {OSW : OS W} {R : Type}
    {RS : RandomSource R} (cfg : GenConfig) (fuel : nat) (w : W) :
  let r := fst (run cfg fuel w) in
  let m : Machine W R := snd (run cfg fuel w) in
  (forall (k : nat) (a : attempt),
      nth_error (m_attempts m) k = Some a ->
      a_seq a = Z.of_nat k /\
      (exists (rng rng' : R) (payload : bytes),
          make_payload cfg (Z.of_nat k) rng = (Ret payload, rng') /\
          build_message (msg_type cfg) payload = Ret (a_msg a) /\
          len payload = payload_len cfg /\
          map byte_to_Z (firstn 4 payload) =
            high_bytes (Z.min (payload_len cfg) 4)
                       (be32_digits (Z.of_nat k mod 4294967296))) /\
      (forall lines, m_csv m = Some lines ->
         exists t b note, nth_error lines (S k) = Some (Row (Z.of_nat k) t b note))) /\
  (r = Ret 0 \/ r = OutOfFuel ->
   m_seq m = len (m_attempts m) /\ gen_sync (m_gen m) (m_seq m)).
Proof.
  intros r m.
  destruct (run_trace cfg fuel w) as [[Hnil [e He]]|[[HT Hres]|[HL Hres]]];
    fold m in Hnil || fold m r in HT, Hres || fold m r in HL, Hres;
    fold r in He || idtac.
  - split.
    + intros k a Hk. rewrite Hnil in Hk. destruct k; discriminate.
    + intros [Hr|Hr]; congruence.
  - split.
    + intros k a Hk. pose proof (tr_numbered _ _ HT k a Hk) as Hseq.
      split; [exact Hseq|]. split.
      * pose proof (tr_framed _ _ HT) as Hfr. rewrite Forall_forall in Hfr.
        destruct (Hfr a (nth_error_In _ _ Hk)) as (rng & rng' & payload & Hp & Hb).
        rewrite Hseq in Hp.
        destruct (make_payload_prefix cfg (Z.of_nat k) rng payload rng' Hp) as [Hl Hd].
        exists rng, rng', payload. auto.
      * intros lines Hlines. pose proof (tr_csv _ _ HT) as Hc.
        rewrite Hlines in Hc. destruct Hc as (_ & rows & -> & Hrows).
        destruct (Forall2_nth_error _ _ _ Hrows k a Hk) as (line & Hline & [t ->]).
        cbn [nth_error]. rewrite Hline, Hseq. eauto.
    + intros Hr. destruct Hres as [[HS _]|Hres].
      * split; [apply (sy_seq _ HS)|apply (sy_gen _ HS)].
      * destruct Hr as [Hr|Hr]; destruct Hres as [Hres|[_ [e Hres]]]; congruence.
  - split.
    + intros k a Hk. pose proof (lf_numbered _ _ HL k a Hk) as Hseq.
      split; [exact Hseq|]. split.
      * pose proof (lf_framed _ _ HL) as Hfr. rewrite Forall_forall in Hfr.
        destruct (Hfr a (nth_error_In _ _ Hk)) as (rng & rng' & payload & Hp & Hb).
        rewrite Hseq in Hp.
        destruct (make_payload_prefix cfg (Z.of_nat k) rng payload rng' Hp) as [Hl Hd].
        exists rng, rng', payload. auto.
      * intros lines Hlines.
        destruct (lf_csv _ _ HL) as (rows & t0 & Hc & Hrows).
        rewrite Hlines in Hc. injection Hc as ->.
        destruct (Forall2_nth_error _ _ _ Hrows k a Hk) as (line & Hline & [t ->]).
        cbn [nth_error]. rewrite nth_error_app1.
        -- rewrite Hline, Hseq. eauto.
        -- apply nth_error_Some. congruence.
    + intros Hr.
      destruct Hr as [Hr|Hr]; destruct Hres as [Hres|[_ [e Hres]]]; congruence.
Qed.

Lemma run_sequence_counters_agree_witness :
  let m := snd (run (R := Z) (with_payload_len 6 sample_config) 20 (sim_host 1 [])) in
  exists a,
    nth_error (m_attempts m) 2 = Some a /\ a_seq a = 2 /\
    m_seq m = len (m_attempts m).
Proof.
  destruct (run_sequence_counters_agree (R := Z) (with_payload_len 6 sample_config)
              20 (sim_host 1 [])) as [Hk Hsync].
  assert (E : exists a,
             nth_error
               (m_attempts (snd (run (R := Z) (with_payload_len 6 sample_config)
                                     20 (sim_host 1 [])))) 2 = Some a)
    by (vm_compute; eauto).
  destruct E as [a E]. exists a. split; [exact E|]. split.
  - exact (proj1 (Hk 2%nat a E)).
  - apply Hsync. left. vm_compute. reflexivity.
Defined.

(** C9, as stated, fails: with a payload length of 1 the messages with
    sequence numbers 0 and 1 are the same bytes, the payload of message 1
    being the single byte 00, so the payload does not hold the sequence
    number the log shows. *)
Lemma sequence_not_embedded_counterexample :
  let cfg := with_payload_len 1 sample_config in
  let m := snd (run (R := Z) cfg 20 (sim_host 1 [])) in
  0 < payload_len cfg /\
  exists a0 a1 lines t b note,
    nth_error (m_attempts m) 0 = Some a0 /\
    nth_error (m_attempts m) 1 = Some a1 /\
    a_ok a0 = true /\ a_ok a1 = true /\
    a_msg a0 = a_msg a1 /\
    decode_frame (a_msg a1) = Some (68, [x00]) /\
    m_csv m = Some lines /\
    nth_error lines 2 = Some (Row 1 t b note).
Proof.
  split; [reflexivity|]. vm_compute. do 6 eexists. repeat split.
Qed.

(* ------------------------------------------------------------------ *)
(** ** Message type: command line and configuration *)

Section MsgType.
Context {W : Type} {OSW : OS W} {R : Type} {RS : RandomSource R}.
Local Open Scope run_scope.

Lemma build_message_bad_type (mt : Z) (payload : bytes) :
  ~ (0 <= mt <= 255) ->
  build_message mt payload = Raise (ValueError "msg_type must fit in 1 byte").
Proof.
  intros Hbad. unfold build_message.
  replace ((0 <=? mt) && (mt <=? 255)) with false; [reflexivity|].
  symmetry. apply andb_false_iff.
  destruct (Z_lt_dec mt 0); [left; apply Z.leb_gt; lia|right; apply Z.leb_gt; lia].
Qed.

(** With a type outside 0..255 in the configuration, [next(gen)] never
    returns a message, and it leaves everything but the generator as it
    was. *)
Lemma next_message_bad_type (cfg : GenConfig) (m : Machine W R) :
  ~ (0 <= msg_type cfg <= 255) ->
  (forall msg, fst (next_message cfg m) <> Ret msg) /\
  m_stats (snd (next_message cfg m)) = m_stats m /\
  m_attempts (snd (next_message cfg m)) = m_attempts m.
Proof.
  intros Hbad. unfold next_message, message_stream_body.
  destruct (m_gen m) as [|rng s|].
  - destruct (make_payload cfg 0 (Random (seed cfg))) as [[payload|e|] rng'];
      [rewrite (build_message_bad_type _ payload Hbad)| |];
      cbn; repeat split; discriminate.
  - destruct (make_payload cfg (s + 1) rng) as [[payload|e|] rng'];
      [rewrite (build_message_bad_type _ payload Hbad)| |];
      cbn; repeat split; discriminate.
  - cbn. repeat split; discriminate.
Qed.

Lemma nothing_sent_observed (m m' : Machine W R) :
  observed m' = observed m -> nothing_sent m -> nothing_sent m'.
Proof.
  unfold observed, nothing_sent. intros Heq (H1 & H2 & H3).
  injection Heq as E1 E2 E3 E4 E5 E6 E7. rewrite E1, E2, E7. auto.
Qed.

Lemma send_next_bad_type (cfg : GenConfig) :
  ~ (0 <= msg_type cfg <= 255) ->
  keeps nothing_sent nothing_sent (send_next (W := W) (R := R) cfg).
Proof.
  intros Hbad m (H1 & H2 & H3). unfold send_next, bind.
  destruct (next_message_bad_type cfg m Hbad) as (Hret & Hst & Hatt).
  destruct (next_message cfg m) as [[msg|e|] m1]; cbn [fst snd] in *.
  - exfalso. apply (Hret msg). reflexivity.
  - cbn. unfold nothing_sent. rewrite Hst, Hatt. auto.
  - cbn. unfold nothing_sent. rewrite Hst, Hatt. auto.
Qed.

(** A run whose configured type is outside 0..255 never hands a message
    to [_send_one]. *)
Lemma run_bad_type_sends_nothing (cfg : GenConfig) (fuel : nat) (w : W) :
  ~ (0 <= msg_type cfg <= 255) ->
  nothing_sent (snd (run (R := R) cfg fuel w)).
Proof.
  intros Hbad. unfold run. destruct (perf_counter w) as [t w1].
  destruct (if log_enabled cfg
            then open_csv match log_csv cfg with
                          | Some p => p
                          | None => EmptyString
                          end w1
            else (inr tt, w1)) as [[e|u] w2].
  - cbn. unfold nothing_sent. cbn. auto.
  - destruct (if log_enabled cfg then csv_writerow csv_header w2
              else (inr tt, w2)) as [[e|u1] w2'];
      [cbn; unfold nothing_sent; cbn; auto|].
    destruct (socket_create w2') as [[e|u2] w3];
      [cbn; unfold nothing_sent; cbn; auto|].
    pose proof (run_try_keeps cfg nothing_sent nothing_sent nothing_sent_observed
                  (fun m H => H) (send_next_bad_type cfg Hbad) fuel t w3) as Hk.
    assert (Hinit : nothing_sent (initial_machine (R := R) cfg t w3))
      by (unfold nothing_sent; cbn; auto).
    specialize (Hk Hinit).
    destruct (run_try cfg fuel (initial_machine cfg t w3)) as [[c|e|] m0];
      cbn [is_raise] in Hk.
    + eapply nothing_sent_observed; [|exact Hk]. apply run_finally_cases.
    + eapply nothing_sent_observed; [|exact Hk]. apply run_finally_cases.
    + exact Hk.
Qed.

End MsgType.

(** C8 (as amended): a message type outside 0..255 given on the command
    line is not rejected: [parse_args] keeps its low eight bits
    ([msg_type & 0xFF], the value modulo 256), [main] goes on to [run]
    with that value, and [build_message] accepts it and puts it in every
    frame.  Only a configuration whose [msg_type] field itself is outside
    0..255 is refused: [build_message] raises for every payload, so
    [next(gen)] never returns a message and the run sends nothing. *)
Theorem parse_args_masks_msg_type {W : Type} {OSW : OS W} {R : Type}
    {RS : RandomSource R} :
  (forall a : Args,
      msg_type (parse_args a) = arg_msg_type a mod 256 /\
      0 <= msg_type (parse_args a) <= 255) /\
  (forall (a : Args) (fuel : nat) (w : W),
      0 <= arg_payload_len a <= 254 ->
      main (R := R) a fuel w
        = (fst (run (parse_args a) fuel w), Some (snd (run (parse_args a) fuel w)))) /\
  (forall (a : Args) (payload : bytes),
      len payload <= 254 ->
      exists l t,
        build_message (msg_type (parse_args a)) payload = Ret (l :: t :: payload) /\
        byte_to_Z t = arg_msg_type a mod 256) /\
  (forall (cfg : GenConfig) (fuel : nat) (w : W) (m : Machine W R),
      ~ (0 <= msg_type cfg <= 255) ->
      (forall payload,
          build_message (msg_type cfg) payload
            = Raise (ValueError "msg_type must fit in 1 byte")) /\
      (forall msg, fst (next_message cfg m) <> Ret msg) /\
      nothing_sent (snd (run (R := R) cfg fuel w))).
Proof.
  assert (Hmask : forall a : Args,
             msg_type (parse_args a) = arg_msg_type a mod 256 /\
             0 <= msg_type (parse_args a) <= 255).
  { intros a. cbn [parse_args msg_type]. rewrite land_255.
    pose proof (Z.mod_pos_bound (arg_msg_type a) 256). lia. }
  split; [exact Hmask|]. split; [|split].
  - intros a fuel w Hlen. unfold main. cbn [parse_args payload_len].
    replace (arg_payload_len a <? 0) with false by (symmetry; apply Z.ltb_ge; lia).
    replace (254 <? arg_payload_len a) with false by (symmetry; apply Z.ltb_ge; lia).
    cbn [orb]. destruct (run _ fuel w). reflexivity.
  - intros a payload Hlen. destruct (Hmask a) as [Heq Hr].
    destruct (build_message_ok _ payload Hr Hlen) as (l & t & Hb & _ & Ht).
    exists l, t. split; [exact Hb|]. rewrite Ht. exact Heq.
  - intros cfg fuel w m Hbad. split; [|split].
    + intros payload. apply build_message_bad_type. exact Hbad.
    + apply next_message_bad_type. exact Hbad.
    + apply run_bad_type_sends_nothing. exact Hbad.
Qed.

Lemma parse_args_masks_msg_type_witness :
  main (R := Z) sample_args 20 (sim_host 1 [])
    = (fst (run (parse_args sample_args) 20 (sim_host 1 [])),
       Some (snd (run (parse_args sample_args) 20 (sim_host 1 [])))) /\
  nothing_sent
    (snd (run (R := Z) (with_msg_type 300 sample_config) 20 (sim_host 1 []))).
Proof.
  split.
  - apply (proj1 (proj2 parse_args_masks_msg_type)). cbn. lia.
  - apply (proj2 (proj2 (proj2 parse_args_masks_msg_type))
             (with_msg_type 300 sample_config) 20%nat (sim_host 1 [])
             (initial_machine (with_msg_type 300 sample_config) 0 (sim_host 1 []))).
    cbn. lia.
Defined.

(** C8, as stated, fails: given [--msg-type 300] the program does not
    stop with an error; [parse_args] turns 300 into 44 and the run goes
    on, ends with exit code 0 and has sent three messages, each with
    type byte 44. *)
Lemma msg_type_masked_counterexample :
  let a := with_arg_msg_type 300 sample_args in
  ~ (0 <= arg_msg_type a <= 255) /\
  msg_type (parse_args a) = 44 /\
  exists m,
    main (R := Z) a 20 (sim_host 1 []) = (Ret 0, Some m) /\
    sent (m_stats m) = 3 /\
    Forall (fun at_ => option_map byte_to_Z (nth_error (a_msg at_) 1) = Some 44)
           (m_attempts m).
Proof.
  split; [cbn; lia|]. split; [reflexivity|].
  eexists. split; [vm_compute; reflexivity|]. split; [reflexivity|].
  repeat constructor.
Qed.

(* ================================================================== *)
(** * Further properties *)

(* ------------------------------------------------------------------ *)
(** ** What reaches the wire *)

Lemma sim_wire_honest : honest sim_wire.
Proof.
  constructor; try (intros; reflexivity).
  - intros view w. cbn [sock_send SimOS]. unfold sim_send.
    destruct (sim_sends w) as [|[e|n] rest]; cbn [sim_wire].
    + pose proof (len_nonneg view) as Hl.
      destruct (0 <? len view) eqn:E.
      * split; [lia|]. unfold len. rewrite Nat2Z.id, firstn_all. reflexivity.
      * apply Z.ltb_ge in E. assert (Hnil : view = []).
        { destruct view; [reflexivity|]. rewrite len_cons in E.
          pose proof (len_nonneg view). lia. }
        subst view. apply app_nil_r.
    + reflexivity.
    + destruct (0 <? Z.max 0 (Z.min n (len view))) eqn:E.
      * split; [lia|reflexivity].
      * apply Z.ltb_ge in E. replace (Z.max 0 (Z.min n (len view))) with 0 by lia.
        cbn. apply app_nil_r.
  - intros d w. cbn [sleep SimOS]. destruct (d <? 0)%float; reflexivity.
Qed.

Section Wire.
Context {W : Type} {OSW : OS W} {R : Type} {RS : RandomSource R}.
Variable wire : W -> bytes.
Hypothesis Hhonest : honest wire.

Lemma send_all_loop_wire (data : bytes) (fuel : nat) :
  forall (total : Z) (w : W),
    0 <= total <= len data ->
    exists p rest,
      skipn (Z.to_nat total) data = p ++ rest /\
      wire (snd (send_all_loop fuel data total w)) = wire w ++ p /\
      (fst (send_all_loop fuel data total w) = Ret tt -> rest = []).
Proof.
  induction fuel as [|fuel IH]; intros total w Ht; cbn [send_all_loop].
  - destruct (total <? len data) eqn:E.
    + exists [], (skipn (Z.to_nat total) data). cbn.
      rewrite app_nil_r. repeat split. discriminate.
    + apply Z.ltb_ge in E. exists [], []. cbn. rewrite app_nil_r.
      repeat split. apply skipn_all2. unfold len in *. lia.
  - destruct (total <? len data) eqn:E.
    + apply Z.ltb_lt in E.
      pose proof (h_send wire Hhonest (skipn (Z.to_nat total) data) w) as Hs.
      destruct (sock_send (skipn (Z.to_nat total) data) w) as [[e|n] w1].
      * exists [], (skipn (Z.to_nat total) data). cbn.
        rewrite app_nil_r. repeat split; [exact Hs|discriminate].
      * destruct (n <=? 0) eqn:En.
        -- apply Z.leb_le in En.
           replace (0 <? n) with false in Hs by (symmetry; apply Z.ltb_ge; lia).
           exists [], (skipn (Z.to_nat total) data). cbn.
           rewrite app_nil_r. repeat split; [exact Hs|discriminate].
        -- apply Z.leb_gt in En.
           replace (0 <? n) with true in Hs by (symmetry; apply Z.ltb_lt; lia).
           destruct Hs as [Hn Hw].
           assert (Hlen : len (skipn (Z.to_nat total) data) = len data - total)
             by (unfold len in *; rewrite length_skipn; lia).
           destruct (IH (total + n) w1) as (p & rest & Hsplit & Hwire & Hdone); [lia|].
           exists (firstn (Z.to_nat n) (skipn (Z.to_nat total) data) ++ p), rest.
           split; [|split; [|exact Hdone]].
           ++ rewrite <- app_assoc, <- Hsplit.
              replace (Z.to_nat (total + n)) with (Z.to_nat n + Z.to_nat total)%nat by lia.
              rewrite <- skipn_skipn. symmetry. apply firstn_skipn.
           ++ rewrite Hwire, Hw, app_assoc. reflexivity.
    + apply Z.ltb_ge in E. exists [], []. cbn. rewrite app_nil_r.
      repeat split. apply skipn_all2. unfold len in *. lia.
Qed.

Lemma send_all_wire (data : bytes) (w : W) :
  exists p rest,
    data = p ++ rest /\
    wire (snd (send_all data w)) = wire w ++ p /\
    (fst (send_all data w) = Ret tt -> rest = []).
Proof.
  pose proof (len_nonneg data).
  destruct (send_all_loop_wire data (List.length data) 0 w) as (p & rest & H1 & H2 & H3);
    [lia|].
  exists p, rest. auto.
Qed.

Lemma randint_returns (a b v : Z) (rng rng' : R) :
  randint a b rng = (Ret v, rng') -> a <= v <= b.
Proof.
  unfold randint, randrange. destruct (0 <? b + 1 - a) eqn:Ew; [|discriminate].
  apply Z.ltb_lt in Ew.
  pose proof (_randbelow_range (b + 1 - a) rng Ew) as Hr.
  destruct (_randbelow (b + 1 - a) rng) as [x rng0]. cbn [fst] in Hr.
  intros Heq. injection Heq as <- _. lia.
Qed.

Lemma send_fragmented_loop_wire (data : bytes) (max_chunk : Z) (fuel : nat) :
  forall (i : Z) (w : W) (rng : R),
    0 <= i <= len data ->
    let res := send_fragmented_loop fuel data max_chunk i w rng in
    exists p rest,
      skipn (Z.to_nat i) data = p ++ rest /\
      wire (snd (fst (fst res))) = wire w ++ p /\
      (fst (fst (fst res)) = Ret tt -> rest = []).
Proof.
  assert (Hstop : forall (i : Z) (w : W) (r : outcome unit),
             r <> Ret tt ->
             exists p rest : bytes,
               skipn (Z.to_nat i) data = p ++ rest /\
               wire w = wire w ++ p /\ (r = Ret tt -> rest = [])).
  { intros i w r Hr. exists [], (skipn (Z.to_nat i) data).
    rewrite app_nil_r. repeat split. intros Hr'. contradiction. }
  assert (Hend : forall i w, len data <= i ->
             exists p rest : bytes,
               skipn (Z.to_nat i) data = p ++ rest /\
               wire w = wire w ++ p /\ (@Ret unit tt = Ret tt -> rest = [])).
  { intros i w Hle. exists [], []. rewrite !app_nil_r. repeat split.
    apply skipn_all2. unfold len in *. lia. }
  induction fuel as [|fuel IH]; intros i w rng Hi; cbn [send_fragmented_loop].
  - destruct (i <? len data) eqn:E; cbn [fst snd].
    + apply (Hstop i w). discriminate.
    + apply Z.ltb_ge in E. apply Hend. exact E.
  - destruct (i <? len data) eqn:E;
      [|apply Z.ltb_ge in E; cbn [fst snd]; apply Hend; exact E].
    apply Z.ltb_lt in E.
    destruct (randint 1 (Z.min max_chunk (len data - i)) rng)
      as [[c|e|] rng1] eqn:Hc; cbn [fst snd];
      [|apply (Hstop i w); discriminate|apply (Hstop i w); discriminate].
    apply randint_returns in Hc.
    destruct (slice_split data i c) as [Hsl Htail]; [lia|lia|lia|].
    destruct (send_all_wire (slice data i (i + c)) w) as (p & rest & Hsp & Hw & Hdone).
    destruct (send_all (slice data i (i + c)) w) as [[[]|e|] w1];
      cbn [fst snd] in *.
    + specialize (Hdone eq_refl). subst rest. rewrite app_nil_r in Hsp. subst p.
      destruct (IH (i + c) w1 rng1) as (p & rest & Hsplit & Hwire & Hd); [lia|].
      destruct (send_fragmented_loop fuel data max_chunk (i + c) w1 rng1)
        as [[[r2 w2] rng2] chunks2]. cbn [fst snd] in *.
      exists (slice data i (i + c) ++ p), rest. split; [|split; [|exact Hd]].
      * rewrite <- app_assoc, <- Hsplit. exact Htail.
      * rewrite Hwire, Hw, app_assoc. reflexivity.
    + exists p, (rest ++ skipn (Z.to_nat (i + c)) data).
      split; [|split; [exact Hw|discriminate]].
      rewrite app_assoc, <- Hsp. exact Htail.
    + exists p, (rest ++ skipn (Z.to_nat (i + c)) data).
      split; [|split; [exact Hw|discriminate]].
      rewrite app_assoc, <- Hsp. exact Htail.
Qed.

Lemma send_fragmented_wire (data : bytes) (max_chunk : Z) (w : W) (rng : R) :
  let res := send_fragmented data max_chunk w rng in
  exists p rest,
    data = p ++ rest /\
    wire (snd (fst (fst res))) = wire w ++ p /\
    (fst (fst (fst res)) = Ret tt -> rest = []).
Proof.
  unfold send_fragmented. destruct (max_chunk <=? 0).
  - exists [], data. cbn. rewrite app_nil_r. repeat split. discriminate.
  - pose proof (len_nonneg data).
    apply (send_fragmented_loop_wire data max_chunk (List.length data) 0 w rng). lia.
Qed.

End Wire.

(* ------------------------------------------------------------------ *)
(** ** Invariants of the loop, step by step

    The same induction over the loop as before, for invariants that may
    mention the operating system: each step of the loop is assumed to
    keep them. *)

Section LoopSteps.
Context {W : Type} {OSW : OS W} {R : Type} {RS : RandomSource R}.
Variable cfg : GenConfig.
Variables I J : Machine W R -> Prop.
Hypothesis I_J : forall m, I m -> J m.
Hypothesis step_clock : keeps I J (clock (W := W) (R := R)).
Hypothesis step_sleep : forall d, keeps I J (os_call (R := R) (sleep d)).
Hypothesis step_settimeout :
  forall t, keeps I J (os_call (R := R) (sock_settimeout t)).
Hypothesis step_connect :
  keeps I J (os_call (R := R) (sock_connect (host cfg) (port cfg))).
Hypothesis step_nodelay : keeps I J (os_call (R := R) sock_setsockopt_nodelay).
Hypothesis step_deadline : forall rate, keeps I J (next_deadline (R := R) rate).
Hypothesis step_recv :
  recv_replies cfg = true -> keeps I J (recv_reply (W := W) (R := R)).
Hypothesis step_report : forall e, keeps I J (_maybe_report (R := R) e).
Hypothesis step_setup : keeps I J (run_setup (R := R) cfg).
Hypothesis step_send : keeps I J (send_next cfg).
Local Open Scope run_scope.

Lemma step_ret {A : Type} (a : A) : keeps I J (ret a).
Proof. intros m HI. exact HI. Qed.

Lemma step_lift {A : Type} (r : outcome A) : keeps I J (lift r).
Proof. intros m HI. cbn. destruct r; cbn; auto. Qed.

Lemma step_maybe_sleep_until (deadline : float) :
  keeps I J (maybe_sleep_until deadline).
Proof.
  unfold maybe_sleep_until. destruct (deadline <=? 0)%float; [apply step_ret|].
  apply keeps_bind; [exact step_clock|]. intros now.
  destruct (0 <? deadline - now)%float; [apply step_sleep|apply step_ret].
Qed.

Lemma step_burst_loop (end_time : float) (n : nat) :
  keeps I J (burst_loop cfg end_time n).
Proof.
  induction n as [|n IH]; cbn [burst_loop]; [apply step_ret|].
  apply keeps_bind; [exact step_clock|]. intros now.
  destruct (end_time <=? now)%float; [apply step_ret|].
  apply keeps_bind; [exact step_send|]. intros _. exact IH.
Qed.

Lemma step_loop_body (end_time : float) : keeps I J (loop_body cfg end_time).
Proof.
  unfold loop_body. destruct (burst cfg).
  - apply keeps_bind; [apply step_burst_loop|]. intros _.
    apply keeps_bind; [apply step_lift|]. intros ms.
    apply keeps_bind; [apply step_sleep|]. intros _. apply step_ret.
  - apply keeps_bind; [apply step_deadline|]. intros d.
    apply keeps_bind; [apply step_maybe_sleep_until|]. intros _.
    apply keeps_bind; [exact step_send|]. intros _.
    apply keeps_bind.
    + destruct (recv_replies cfg) eqn:Erecv;
        [apply step_recv; reflexivity|apply step_ret].
    + intros [|]; [|apply step_ret].
      apply keeps_bind; [apply step_report|]. intros _. apply step_ret.
Qed.

Lemma step_main_loop (end_time : float) (fuel : nat) :
  keeps I J (main_loop cfg end_time fuel).
Proof.
  induction fuel as [|fuel IH]; cbn [main_loop]; [apply step_lift|].
  apply keeps_bind; [exact step_clock|]. intros now.
  destruct (now <? end_time)%float; [|apply step_ret].
  apply keeps_bind; [apply step_loop_body|].
  intros [|]; [exact IH|apply step_ret].
Qed.

Lemma step_run_try (fuel : nat) : keeps I J (run_try cfg fuel).
Proof.
  unfold run_try. apply keeps_bind.
  - unfold run_connect.
    apply keeps_bind; [apply step_settimeout|]. intros _.
    apply keeps_bind; [exact step_connect|]. intros _.
    apply keeps_bind.
    + unfold maybe_set_nodelay. destruct (tcp_nodelay cfg); [|apply step_ret].
      exact step_nodelay.
    + intros _. apply step_settimeout.
  - intros _. apply keeps_bind; [exact step_setup|]. intros end_time.
    apply keeps_bind; [apply step_main_loop|]. intros _.
    apply keeps_bind.
    + unfold _final_report. apply keeps_bind; [exact step_clock|].
      intros _. apply step_ret.
    + intros _. apply step_ret.
Qed.

End LoopSteps.

Lemma wired_snoc (l : list attempt) (bs p : bytes) (a : attempt) :
  wired l bs ->
  (if a_ok a then p = a_msg a else exists rest, a_msg a = p ++ rest) ->
  wired (l ++ [a]) (bs ++ p).
Proof.
  intros Hw Ha. induction Hw as [|b l bs Hb Hw IH|b l q rest bs Hb Hq Hw IH];
    cbn [app].
  - destruct (a_ok a) eqn:Eok.
    + subst p. rewrite <- (app_nil_r (a_msg a)) at 1.
      apply wired_ok; [exact Eok|constructor].
    + destruct Ha as [rest Hrest]. rewrite <- (app_nil_r p).
      eapply wired_fail; [exact Eok|exact Hrest|constructor].
  - rewrite <- app_assoc. apply wired_ok; assumption.
  - rewrite <- app_assoc. eapply wired_fail; eassumption.
Qed.

Lemma wired_all_ok (l : list attempt) (bs : bytes) :
  wired l bs -> Forall (fun a => a_ok a = true) l ->
  bs = List.concat (map a_msg l).
Proof.
  induction 1 as [|b l bs Hb Hw IH|b l q rest bs Hb Hq Hw IH]; intros Hall.
  - reflexivity.
  - inversion Hall; subst. cbn. f_equal. auto.
  - inversion Hall as [|? ? Hok ?]; subst. congruence.
Qed.

Section WireRun.
Context {W : Type} {OSW : OS W} {R : Type} {RS : RandomSource R}.
Variable wire : W -> bytes.
Hypothesis Hhonest : honest wire.
Variable base : bytes.
Local Open Scope run_scope.

Lemma Wired_same (m m' : Machine W R) :
  m_attempts m' = m_attempts m -> wire (m_world m') = wire (m_world m) ->
  Wired wire base m -> Wired wire base m'.
Proof.
  intros Ha Hw (bs & H1 & H2). exists bs. rewrite Ha, Hw. auto.
Qed.

Lemma Wired_os_call {A : Type} (f : W -> (exn + A) * W) :
  (forall w, wire (snd (f w)) = wire w) ->
  keeps (Wired wire base) (Wired wire base) (os_call (R := R) f).
Proof.
  intros Hf m HW. unfold os_call. specialize (Hf (m_world m)).
  destruct (f (m_world m)) as [[e|a] w']; cbn [fst snd is_raise] in *;
    (eapply Wired_same; [| |exact HW]; [reflexivity|exact Hf]).
Qed.

Lemma Wired_clock : keeps (Wired wire base) (Wired wire base) (clock (R := R)).
Proof.
  intros m HW. unfold clock.
  pose proof (h_perf_counter wire Hhonest (m_world m)) as Hc.
  destruct (perf_counter (m_world m)) as [t w']. cbn [fst snd is_raise] in *.
  eapply Wired_same; [| |exact HW]; [reflexivity|exact Hc].
Qed.

Lemma Wired_next_deadline (rate : float) :
  keeps (Wired wire base) (Wired wire base) (next_deadline (R := R) rate).
Proof.
  intros m HW. unfold next_deadline, rate_controller_next_deadline.
  pose proof (h_perf_counter wire Hhonest (m_world m)) as Hc.
  destruct (m_deadlines m) as [| |period t].
  - destruct (rate <=? 0)%float.
    + cbn. eapply Wired_same; [| |exact HW]; reflexivity.
    + destruct (perf_counter (m_world m)) as [t w']. cbn in *.
      eapply Wired_same; [| |exact HW]; [reflexivity|exact Hc].
  - cbn. eapply Wired_same; [| |exact HW]; reflexivity.
  - cbn. eapply Wired_same; [| |exact HW]; reflexivity.
Qed.

Lemma Wired_recv_reply :
  keeps (Wired wire base) (Wired wire base) (recv_reply (R := R)).
Proof.
  intros m HW. unfold recv_reply.
  pose proof (h_recv wire Hhonest 4096 (m_world m)) as Hr.
  destruct (sock_recv 4096 (m_world m)) as [[e|data] w']; cbn [snd] in Hr.
  - destruct e; cbn; (eapply Wired_same; [| |exact HW]; [reflexivity|exact Hr]).
  - destruct data; cbn; (eapply Wired_same; [| |exact HW]; [reflexivity|exact Hr]).
Qed.

Lemma Wired_maybe_report (every_s : float) :
  keeps (Wired wire base) (Wired wire base) (_maybe_report (R := R) every_s).
Proof.
  unfold _maybe_report. apply keeps_bind; [exact Wired_clock|].
  intros now m HW.
  destruct (every_s <=? now - t_last_report (m_stats m))%float; cbn;
    (eapply Wired_same; [| |exact HW]; reflexivity).
Qed.

Lemma Wired_run_setup (cfg : GenConfig) :
  keeps (Wired wire base) (Wired wire base) (run_setup (R := R) cfg).
Proof.
  intros m HW. cbn. eapply Wired_same; [| |exact HW]; reflexivity.
Qed.

Lemma write_message_wire (cfg : GenConfig) (msg : bytes) (m : Machine W R) :
  exists p rest,
    msg = p ++ rest /\
    wire (m_world (snd (write_message cfg msg m))) = wire (m_world m) ++ p /\
    (fst (write_message cfg msg m) = Ret tt -> rest = []).
Proof.
  unfold write_message. destruct (fragment cfg).
  - destruct (send_fragmented_wire wire Hhonest msg (fragment_max_chunk cfg)
                (m_world m) (m_rng m)) as (p & rest & H1 & H2 & H3).
    destruct (send_fragmented msg (fragment_max_chunk cfg) (m_world m) (m_rng m))
      as [[[r w'] rng'] chunks]. cbn [fst snd] in *. exists p, rest. cbn. auto.
  - destruct (send_all_wire wire Hhonest msg (m_world m)) as (p & rest & H1 & H2 & H3).
    destruct (send_all msg (m_world m)) as [r w']. cbn [fst snd] in *.
    exists p, rest. cbn. auto.
Qed.

Lemma next_message_world (cfg : GenConfig) (m : Machine W R) :
  m_world (snd (next_message cfg m)) = m_world m /\
  m_attempts (snd (next_message cfg m)) = m_attempts m /\
  m_stats (snd (next_message cfg m)) = m_stats m.
Proof.
  unfold next_message, message_stream_body.
  destruct (m_gen m) as [|rng s|].
  - destruct (make_payload cfg 0 (Random (seed cfg))) as [[payload|e|] rng'];
      [destruct (build_message (msg_type cfg) payload)| |]; cbn; auto.
  - destruct (make_payload cfg (s + 1) rng) as [[payload|e|] rng'];
      [destruct (build_message (msg_type cfg) payload)| |]; cbn; auto.
  - cbn. auto.
Qed.

Lemma writerow_wire (line : csv_line) (m : Machine W R) :
  wire (m_world (snd (writerow line m))) = wire (m_world m).
Proof.
  unfold writerow, os_call. destruct (m_csv m) as [lines|]; [|reflexivity].
  cbn [m_world set_csv].
  pose proof (h_csv_writerow wire Hhonest line (m_world m)) as Hw.
  destruct (csv_writerow line (m_world m)) as [[e|u] w']; exact Hw.
Qed.

Lemma send_failed_wire (s : Z) (t : float) (e : exn) (m : Machine W R) :
  wire (m_world (snd (send_failed s t e m))) = wire (m_world m).
Proof.
  unfold send_failed.
  pose proof (writerow_wire (Row s t 0 "send_fail")
                (set_stats (on_send_fail (m_stats m)) m)) as Hw.
  destruct (writerow (Row s t 0 "send_fail")
              (set_stats (on_send_fail (m_stats m)) m)) as [[u|e'|] m1];
    exact Hw.
Qed.

Lemma _send_one_wire (cfg : GenConfig) (msg : bytes) (s : Z) (m : Machine W R) :
  let r := fst (_send_one cfg msg s m) in
  let m' := snd (_send_one cfg msg s m) in
  exists (ok : bool) (p rest : bytes),
    msg = p ++ rest /\
    (ok = true -> rest = []) /\
    (r = Ret tt \/ exists e, r = Raise e) /\
    m_attempts m' = m_attempts m ++ [{| a_seq := s; a_msg := msg; a_ok := ok |}] /\
    wire (m_world m') = wire (m_world m) ++ p.
Proof.
  unfold _send_one.
  pose proof (h_perf_counter wire Hhonest (m_world m)) as Hc.
  destruct (perf_counter (m_world m)) as [t w1]. cbn [snd] in Hc.
  destruct (write_message_wire cfg msg (set_world w1 m)) as (p & rest & Hsp & Hw & Hd).
  pose proof (write_message_observed cfg msg (set_world w1 m)) as Hobs.
  pose proof (write_message_total cfg msg (set_world w1 m)) as Htot.
  destruct (write_message cfg msg (set_world w1 m)) as [[[]|e|] m2];
    cbn [fst snd] in *; destruct Hobs as (_ & _ & _ & _ & Hatt);
    cbn in Hatt, Hw.
  - specialize (Hd eq_refl). exists true, p, rest.
    set (m3 := record_attempt {| a_seq := s; a_msg := msg; a_ok := true |}
                 (set_stats (on_send_ok msg (m_stats m2)) m2)).
    pose proof (writerow_wire (Row s t (len msg) "ok") m3) as Hw3.
    pose proof (writerow_effect (Row s t (len msg) "ok") m3) as He3.
    destruct (writerow (Row s t (len msg) "ok") m3) as [[u4|e4|] m4];
      cbn [fst snd] in Hw3, He3; destruct He3 as (_ & _ & _ & Ha3 & _ & Hr3);
      subst m3; cbn in Hw3, Ha3.
    + cbn [fst snd]. repeat split; auto.
      * rewrite Ha3, Hatt. reflexivity.
      * rewrite Hw3, Hw, Hc. reflexivity.
    + pose proof (send_failed_wire s t e4 m4) as Hw5.
      pose proof (send_failed_effect s t e4 m4) as Hf.
      destruct (send_failed s t e4 m4) as [r5 m5]. cbn [fst snd] in *.
      destruct Hf as (_ & _ & Ha5 & _ & _ & _ & _ & _ & _ & Hr5).
      repeat split; auto.
      * rewrite Ha5, Ha3, Hatt. reflexivity.
      * rewrite Hw5, Hw3, Hw, Hc. reflexivity.
    + destruct Hr3 as [Hr3|(_ & e' & Hr3)]; discriminate.
  - exists false, p, rest.
    pose proof (send_failed_wire s t e
                  (record_attempt {| a_seq := s; a_msg := msg; a_ok := false |} m2)) as Hw5.
    pose proof (send_failed_effect s t e
                  (record_attempt {| a_seq := s; a_msg := msg; a_ok := false |} m2)) as Hf.
    destruct (send_failed s t e
                (record_attempt {| a_seq := s; a_msg := msg; a_ok := false |} m2))
      as [r5 m5].
    cbn [fst snd] in *. cbn in Hw5.
    destruct Hf as (_ & _ & Ha5 & _ & _ & _ & _ & _ & _ & Hr5). cbn in Ha5.
    repeat split; auto; try discriminate.
    + rewrite Ha5, Hatt. reflexivity.
    + rewrite Hw5, Hw, Hc. reflexivity.
  - exfalso. apply Htot. reflexivity.
Qed.

Lemma Wired_send_next (cfg : GenConfig) :
  keeps (Wired wire base) (Wired wire base) (send_next cfg).
Proof.
  intros m (bs & Hbs & Hwire). unfold send_next, bind.
  destruct (next_message_world cfg m) as (Hw1 & Ha1 & _).
  destruct (next_message cfg m) as [[msg|e|] m1]; cbn [fst snd] in *;
    [|cbn; exists bs; rewrite Ha1, Hw1; auto|cbn; exists bs; rewrite Ha1, Hw1; auto].
  destruct (_send_one_wire cfg msg (m_seq m1) m1)
    as (ok & p & rest & Hsp & Hok & Hres & Hatt & Hw2).
  destruct (_send_one cfg msg (m_seq m1) m1) as [r2 m2]; cbn [fst snd] in *.
  assert (HW2 : Wired wire base m2).
  { exists (bs ++ p). split.
    - rewrite Hatt, Ha1. apply wired_snoc; [exact Hbs|]. cbn.
      destruct ok.
      + rewrite (Hok eq_refl), app_nil_r in Hsp. congruence.
      + eauto.
    - rewrite Hw2, Hw1, Hwire, app_assoc. reflexivity. }
  destruct Hres as [->|[e ->]].
  - cbn. eapply Wired_same; [| |exact HW2]; reflexivity.
  - cbn. exact HW2.
Qed.

Lemma Wired_run_try (cfg : GenConfig) (fuel : nat) :
  keeps (Wired wire base) (Wired wire base) (run_try cfg fuel).
Proof.
  apply step_run_try.
  - auto.
  - exact Wired_clock.
  - intros d. apply Wired_os_call. intros w. apply (h_sleep wire Hhonest).
  - intros t. apply Wired_os_call. intros w. apply (h_settimeout wire Hhonest).
  - apply Wired_os_call. intros w. apply (h_connect wire Hhonest).
  - apply Wired_os_call. intros w. apply (h_nodelay wire Hhonest).
  - exact Wired_next_deadline.
  - intros _. exact Wired_recv_reply.
  - exact Wired_maybe_report.
  - apply Wired_run_setup.
  - apply Wired_send_next.
Qed.

End WireRun.

Lemma send_all_loop_fuel {W : Type} {OSW : OS W} (data : bytes) (fuel : nat) :
  forall (fuel' : nat) (total : Z) (w : W),
    (fuel <= fuel')%nat ->
    fst (send_all_loop fuel data total w) <> OutOfFuel ->
    send_all_loop fuel' data total w = send_all_loop fuel data total w.
Proof.
  induction fuel as [|fuel IH]; intros fuel' total w Hle Hok.
  - cbn [send_all_loop] in *.
    destruct (total <? len data) eqn:E; [cbn in Hok; congruence|].
    destruct fuel'; cbn [send_all_loop]; rewrite E; reflexivity.
  - destruct fuel' as [|fuel']; [lia|]. cbn [send_all_loop] in *.
    destruct (total <? len data); [|reflexivity].
    destruct (sock_send (skipn (Z.to_nat total) data) w) as [[e|n] w1];
      [reflexivity|].
    destruct (n <=? 0); [reflexivity|]. apply IH; [lia|exact Hok].
Qed.

(** X1: [send_all] terminates: it calls [send] at most [len(data)]
    times, so that budget is never exhausted and a larger one changes
    nothing; on empty data it returns at once without touching the
    socket. *)
Theorem send_all_terminates {W : Type} {OSW : OS W} (data : bytes) (w : W) :
  fst (send_all data w) <> OutOfFuel /\
  (forall fuel, (List.length data <= fuel)%nat ->
     send_all_loop fuel data 0 w = send_all data w) /\
  send_all [] w = (Ret tt, w).
Proof.
  split; [apply send_all_total|]. split; [|reflexivity].
  intros fuel Hfuel. unfold send_all.
  apply send_all_loop_fuel; [exact Hfuel|]. apply send_all_total.
Qed.

(** X2: over an honest transport [send_all] puts on the wire a prefix of
    [data], in order and without gaps or repeats, however the transport
    splits the writes; when it returns, the wire has grown by exactly
    [data]. *)
Theorem send_all_delivers {W : Type} {OSW : OS W} (wire : W -> bytes)
    (data : bytes) (w : W) :
  honest wire ->
  (exists p rest,
      data = p ++ rest /\ wire (snd (send_all data w)) = wire w ++ p) /\
  (fst (send_all data w) = Ret tt ->
   wire (snd (send_all data w)) = wire w ++ data).
Proof.
  intros Hh. destruct (send_all_wire wire Hh data w) as (p & rest & Hsp & Hw & Hd).
  split; [eauto|].
  intros Hr. specialize (Hd Hr). subst rest. rewrite app_nil_r in Hsp.
  subst p. exact Hw.
Qed.

Lemma send_all_delivers_witness :
  sim_wire (snd (send_all sample_data (sim_host 1 [inr 2; inr 100])))
    = sim_wire (sim_host 1 [inr 2; inr 100]) ++ sample_data.
Proof.
  apply (send_all_delivers sim_wire sample_data (sim_host 1 [inr 2; inr 100])
           sim_wire_honest).
  vm_compute. reflexivity.
Defined.

(** X3: over an honest transport [send_fragmented] puts on the wire a
    prefix of [data], in order, whatever chunk lengths are drawn; when it
    returns, the wire has grown by exactly [data], so the receiver sees
    the same bytes as without fragmentation. *)
Theorem send_fragmented_delivers {W : Type} {OSW : OS W} {R : Type}
    {RS : RandomSource R} (wire : W -> bytes) (data : bytes) (max_chunk : Z)
    (w : W) (rng : R) :
  honest wire ->
  let res := send_fragmented data max_chunk w rng in
  (exists p rest,
      data = p ++ rest /\ wire (snd (fst (fst res))) = wire w ++ p) /\
  (fst (fst (fst res)) = Ret tt ->
   wire (snd (fst (fst res))) = wire w ++ data).
Proof.
  intros Hh res.
  destruct (send_fragmented_wire wire Hh data max_chunk w rng)
    as (p & rest & Hsp & Hw & Hd). fold res in Hw, Hd.
  split; [eauto|].
  intros Hr. specialize (Hd Hr). subst rest. rewrite app_nil_r in Hsp.
  subst p. exact Hw.
Qed.

Lemma send_fragmented_delivers_witness :
  sim_wire (snd (fst (fst (send_fragmented sample_data 4 (sim_host 1 [inr 1])
                                           (Random 7 : Z)))))
    = sim_wire (sim_host 1 [inr 1]) ++ sample_data.
Proof.
  apply (send_fragmented_delivers sim_wire sample_data 4 (sim_host 1 [inr 1])
           (Random 7 : Z) sim_wire_honest).
  vm_compute. reflexivity.
Defined.

Lemma run_Wired {W : Type} {OSW : OS W} {R : Type} {RS : RandomSource R}
    (wire : W -> bytes) (cfg : GenConfig) (fuel : nat) (w : W) :
  honest wire ->
  Wired wire (wire w) (snd (run (R := R) cfg fuel w)).
Proof.
  intros Hh.
  unfold run.
  pose proof (h_perf_counter wire Hh w) as H1.
  destruct (perf_counter w) as [t w1]. cbn [snd] in H1.
  assert (H2 : wire (snd (if log_enabled cfg
                          then open_csv match log_csv cfg with
                                        | Some p => p
                                        | None => EmptyString
                                        end w1
                          else (inr tt, w1))) = wire w1).
  { destruct (log_enabled cfg); [apply (h_open_csv wire Hh)|reflexivity]. }
  destruct (if log_enabled cfg
            then open_csv match log_csv cfg with
                          | Some p => p
                          | None => EmptyString
                          end w1
            else (inr tt, w1)) as [[e|u] w2]; cbn [snd] in H2.
  - exists []. cbn. split; [constructor|]. rewrite app_nil_r. congruence.
  - assert (H2' : wire (snd (if log_enabled cfg then csv_writerow csv_header w2
                             else (inr tt, w2))) = wire w2).
    { destruct (log_enabled cfg); [apply (h_csv_writerow wire Hh)|reflexivity]. }
    destruct (if log_enabled cfg then csv_writerow csv_header w2
              else (inr tt, w2)) as [[e|u1] w2']; cbn [snd] in H2'.
    { exists []. cbn. split; [constructor|]. rewrite app_nil_r. congruence. }
    pose proof (h_socket_create wire Hh w2') as H3.
    destruct (socket_create w2') as [[e|u2] w3]; cbn [snd] in H3.
    + exists []. cbn. split; [constructor|]. rewrite app_nil_r. congruence.
    + assert (Hinit : Wired wire (wire w) (initial_machine (R := R) cfg t w3)).
      { exists []. cbn. split; [constructor|]. rewrite app_nil_r. congruence. }
      pose proof (Wired_run_try wire Hh (wire w) cfg fuel _ Hinit) as Hk.
      assert (Hfin : forall r0 (m0 : Machine W R), Wired wire (wire w) m0 ->
                       Wired wire (wire w) (snd (run_finally cfg r0 m0))).
      { intros r0 m0 HW0. unfold run_finally.
        pose proof (h_close wire Hh (m_world m0)) as Hc.
        destruct (sock_close (m_world m0)) as [x w4]. cbn [snd] in Hc.
        destruct (log_enabled cfg).
        - pose proof (h_close_csv wire Hh w4) as Hc2.
          destruct (close_csv w4) as [[e|u3] w5]; cbn [snd] in *;
            (eapply Wired_same; [| |exact HW0]; [reflexivity|cbn; congruence]).
        - cbn. eapply Wired_same; [| |exact HW0]; [reflexivity|cbn; congruence]. }
      destruct (run_try cfg fuel (initial_machine cfg t w3)) as [[c|e|] m0];
        cbn [fst snd is_raise] in Hk.
      * apply Hfin. exact Hk.
      * apply Hfin. exact Hk.
      * exact Hk.
Qed.

Lemma run_clean_all_ok {W : Type} {OSW : OS W} {R : Type} {RS : RandomSource R}
    (cfg : GenConfig) (fuel : nat) (w : W) :
  fst (run (R := R) cfg fuel w) = Ret 0 ->
  Trace cfg (snd (run (R := R) cfg fuel w)) /\
  Sync (snd (run (R := R) cfg fuel w)).
Proof.
  intros Hr.
  destruct (run_trace (R := R) cfg fuel w)
    as [[_ [e He]]|[[HT [[HS _]|Hres]]|[_ Hres]]].
  - congruence.
  - auto.
  - destruct Hres as [Hres|[_ [e Hres]]]; congruence.
  - destruct Hres as [Hres|[_ [e Hres]]]; congruence.
Qed.

(** X4: over an honest transport, at the end of any run the wire holds,
    after what it held before, the messages of the send attempts in
    order, each whole if its write went through and cut to a prefix if
    its write failed, and nothing else; after a run that returns 0 it
    holds exactly the frames sent, back to back. *)
Theorem run_wire_is_frames {W : Type} {OSW : OS W} {R : Type}
    {RS : RandomSource R} (wire : W -> bytes) (cfg : GenConfig) (fuel : nat)
    (w : W) :
  honest wire ->
  let r := fst (run cfg fuel w) in
  let m : Machine W R := snd (run cfg fuel w) in
  (exists bs, wired (m_attempts m) bs /\ wire (m_world m) = wire w ++ bs) /\
  (r = Ret 0 ->
   wire (m_world m) = wire w ++ List.concat (map a_msg (m_attempts m))).
Proof.
  intros Hh r m.
  assert (HW : Wired wire (wire w) m).
  { apply run_Wired. exact Hh. }
  split; [exact HW|].
  intros Hr. destruct HW as (bs & Hbs & Hwire). rewrite Hwire. f_equal.
  apply wired_all_ok; [exact Hbs|].
  apply (sy_all_ok _ (proj2 (run_clean_all_ok cfg fuel w Hr))).
Qed.

Lemma run_wire_is_frames_witness :
  let m := snd (run (R := Z) sample_config 20 (sim_host 1 [])) in
  sim_wire (m_world m)
    = sim_wire (sim_host 1 []) ++ List.concat (map a_msg (m_attempts m)).
Proof.
  apply (proj2 (run_wire_is_frames (R := Z) sim_wire sample_config 20
                  (sim_host 1 []) sim_wire_honest)).
  vm_compute. reflexivity.
Defined.

(* ------------------------------------------------------------------ *)
(** ** Payloads and the message stream *)

Lemma set_item_app {A : Type} (pre : list A) (x v : A) (t : list A) :
  set_item (pre ++ x :: t) (List.length pre) v = Some (pre ++ v :: t).
Proof.
  induction pre as [|h pre IH]; [reflexivity|].
  cbn [app List.length set_item]. rewrite IH. reflexivity.
Qed.

Section PayloadMore.
Context {R : Type} {RS : RandomSource R}.

Lemma fill_random_draws (count : nat) :
  forall (pre rest : bytes) (rng : R),
    (count <= List.length rest)%nat ->
    exists bs,
      fill_random count (List.length pre) (pre ++ rest) rng
        = (Ret (pre ++ bs ++ skipn count rest), snd (draw count rng)) /\
      map byte_to_Z bs = fst (draw count rng).
Proof.
  induction count as [|count IH]; intros pre rest rng Hlen.
  - exists []. cbn. auto.
  - cbn [fill_random draw]. unfold randrange. cbn [Z.sub Z.ltb Z.compare Z.opp Z.add Z.pos_sub].
    pose proof (_randbelow_range 256 rng ltac:(lia)) as Hr.
    destruct (_randbelow 256 rng) as [v rng1]. cbn [fst] in Hr.
    destruct (pack_B_ok v) as (b & Hb & Hbz); [lia|].
    cbn [Z.add]. rewrite Hb.
    destruct rest as [|x rest]; [cbn in Hlen; lia|].
    rewrite set_item_app.
    destruct (IH (pre ++ [b]) rest rng1) as (bs & Hf & Hm); [cbn in Hlen; lia|].
    rewrite length_app in Hf. cbn [List.length] in Hf.
    replace (List.length pre + 1)%nat with (S (List.length pre)) in Hf by lia.
    rewrite <- app_assoc in Hf. cbn [app] in Hf. rewrite Hf.
    destruct (draw count rng1) as [vs rng2]. cbn [fst snd] in *.
    exists (b :: bs). split.
    + rewrite <- app_assoc. reflexivity.
    + cbn [map]. rewrite Hbz, Hm. reflexivity.
Qed.

End PayloadMore.

(** X5: for a payload length [n >= 4], [make_payload] returns the four
    big-endian bytes of [seq mod 2^32] followed by [n - 4] bytes drawn
    one after the other with [rng.randrange(0, 256)], in drawing order,
    and leaves the random source where those [n - 4] draws leave it. *)
Theorem make_payload_long {R : Type} {RS : RandomSource R}
    (cfg : GenConfig) (seq : Z) (rng : R) :
  4 <= payload_len cfg ->
  exists payload,
    make_payload cfg seq rng
      = (Ret payload, snd (draw (Z.to_nat (payload_len cfg) - 4) rng)) /\
    map byte_to_Z payload =
      be32_digits (seq mod 4294967296)
        ++ fst (draw (Z.to_nat (payload_len cfg) - 4) rng) /\
    len payload = payload_len cfg.
Proof.
  intros Hn. unfold make_payload.
  replace (payload_len cfg =? 0) with false by (symmetry; apply Z.eqb_neq; lia).
  replace (payload_len cfg <? 0) with false by (symmetry; apply Z.ltb_ge; lia).
  replace (4 <=? payload_len cfg) with true by (symmetry; apply Z.leb_le; lia).
  rewrite land_mask32.
  destruct (struct_pack_BE_I_ok (seq mod 4294967296))
    as (b3 & b2 & b1 & b0 & Hp & Hd); [apply Z.mod_pos_bound; lia|].
  rewrite Hp.
  set (zeros := skipn 4 (repeat x00 (Z.to_nat (payload_len cfg)))).
  assert (Hz : List.length zeros = (Z.to_nat (payload_len cfg) - 4)%nat)
    by (unfold zeros; rewrite length_skipn, repeat_length; reflexivity).
  destruct (fill_random_draws (Z.to_nat (payload_len cfg) - 4) [b3; b2; b1; b0]
              zeros rng) as (bs & Hf & Hm); [lia|].
  cbn [List.length] in Hf. rewrite Hf.
  rewrite skipn_all2, app_nil_r by lia.
  eexists. split; [reflexivity|]. split.
  - rewrite map_app, Hd, Hm. reflexivity.
  - unfold len. rewrite length_app. cbn [List.length].
    rewrite <- (length_map byte_to_Z bs), Hm.
    assert (Hdl : forall k (g : R), List.length (fst (draw k g)) = k).
    { clear. induction k as [|k IH]; intros g; [reflexivity|].
      cbn [draw]. destruct (_randbelow 256 g) as [v g1].
      specialize (IH g1). destruct (draw k g1) as [vs g2]. cbn in *. lia. }
    rewrite Hdl. lia.
Qed.

Lemma make_payload_long_witness :
  exists payload,
    make_payload (with_payload_len 6 sample_config) 258 (Random 1 : Z)
      = (Ret payload, snd (draw 2 (Random 1 : Z))) /\
    map byte_to_Z payload = [0; 0; 1; 2] ++ fst (draw 2 (Random 1 : Z)) /\
    len payload = 6.
Proof.
  apply (make_payload_long (with_payload_len 6 sample_config) 258 (Random 1 : Z)).
  cbn. lia.
Defined.

(** X6: the sequence number enters the payload modulo 2^32 only: two
    sequence numbers that differ by a multiple of 2^32 give the same
    payload (so the numbering wraps after 2^32 messages), and a negative
    one is taken modulo 2^32 as well. *)
Theorem make_payload_wraps {R : Type} {RS : RandomSource R}
    (cfg : GenConfig) (seq k : Z) (rng : R) :
  make_payload cfg (seq + k * 4294967296) rng = make_payload cfg seq rng /\
  make_payload cfg seq rng = make_payload cfg (seq mod 4294967296) rng.
Proof.
  unfold make_payload. rewrite !land_mask32, Z.mod_add, Z.mod_mod by lia.
  split; reflexivity.
Qed.

(** X7: [make_payload] returns exactly when the payload length is not
    negative, and then returns that many bytes (none, with the random
    source untouched, for length 0); for a negative length it raises
    [ValueError] and leaves the random source untouched. *)
Theorem make_payload_length {R : Type} {RS : RandomSource R}
    (cfg : GenConfig) (seq : Z) (rng : R) :
  (0 <= payload_len cfg ->
   exists payload rng',
     make_payload cfg seq rng = (Ret payload, rng') /\
     len payload = payload_len cfg) /\
  (payload_len cfg = 0 -> make_payload cfg seq rng = (Ret [], rng)) /\
  (payload_len cfg < 0 ->
   make_payload cfg seq rng = (Raise (ValueError "negative count"), rng)).
Proof.
  split; [|split].
  - intros Hn. destruct (make_payload_ok cfg seq rng Hn) as (payload & rng' & Hp).
    exists payload, rng'. split; [exact Hp|].
    apply (make_payload_prefix cfg seq rng payload rng' Hp).
  - intros Hn. unfold make_payload. rewrite Hn. reflexivity.
  - intros Hn. unfold make_payload.
    replace (payload_len cfg =? 0) with false by (symmetry; apply Z.eqb_neq; lia).
    replace (payload_len cfg <? 0) with true by (symmetry; apply Z.ltb_lt; lia).
    reflexivity.
Qed.

Lemma make_payload_length_witness :
  (exists payload rng',
      make_payload (with_payload_len 16 sample_config) 7 (Random 1 : Z)
        = (Ret payload, rng') /\ len payload = 16) /\
  make_payload (with_payload_len (-1) sample_config) 7 (Random 1 : Z)
    = (Raise (ValueError "negative count"), Random 1).
Proof.
  split.
  - apply (proj1 (make_payload_length (with_payload_len 16 sample_config) 7
                    (Random 1 : Z))). cbn. lia.
  - apply (proj2 (proj2 (make_payload_length (with_payload_len (-1) sample_config) 7
                           (Random 1 : Z)))). cbn. lia.
Defined.

Lemma build_message_returns (mt : Z) (payload msg : bytes) :
  build_message mt payload = Ret msg ->
  0 <= mt <= 255 /\ len payload <= 254 /\
  exists l t, msg = l :: t :: payload /\
              byte_to_Z l = 1 + len payload /\ byte_to_Z t = mt.
Proof.
  intros Hb.
  destruct (Z_lt_dec mt 0) as [H1|H1];
    [rewrite build_message_bad_type in Hb by lia; discriminate|].
  destruct (Z_lt_dec 255 mt) as [H2|H2];
    [rewrite build_message_bad_type in Hb by lia; discriminate|].
  destruct (Z_lt_dec 254 (len payload)) as [H3|H3].
  - unfold build_message in Hb.
    replace ((0 <=? mt) && (mt <=? 255)) with true in Hb
      by (symmetry; apply andb_true_iff; split; apply Z.leb_le; lia).
    cbn [negb] in Hb.
    replace (254 <? len payload) with true in Hb by (symmetry; apply Z.ltb_lt; lia).
    discriminate.
  - destruct (build_message_ok mt payload) as (l & t & Hok & Hl & Ht); [lia|lia|].
    rewrite Hok in Hb. injection Hb as <-.
    split; [lia|]. split; [lia|]. eauto.
Qed.

Lemma framed_length {R : Type} {RS : RandomSource R} (cfg : GenConfig) (a : attempt) :
  framed (R := R) cfg a -> len (a_msg a) = payload_len cfg + 2.
Proof.
  intros (rng & rng' & payload & Hp & Hb).
  destruct (make_payload_prefix cfg _ rng payload rng' Hp) as [Hl _].
  destruct (build_message_returns _ _ _ Hb) as (_ & _ & l & t & -> & _).
  rewrite !len_cons. lia.
Qed.

(** X8: for a configuration with the type in 0..255 and the payload
    length in 0..254, [next(gen)] on the message stream never raises: asked
    when it is about to produce sequence number [k], the generator
    returns a frame of [payload_len + 2] bytes that reads back as the
    configured type and a payload of the configured length whose leading
    bytes are those of [k mod 2^32], and is then about to produce
    [k + 1]. *)
Theorem message_stream_yields_frames {W : Type} {OSW : OS W} {R : Type}
    {RS : RandomSource R} (cfg : GenConfig) (m : Machine W R) (k : Z) :
  valid_config cfg ->
  gen_sync (m_gen m) k ->
  exists msg payload,
    fst (next_message cfg m) = Ret msg /\
    len msg = payload_len cfg + 2 /\
    decode_frame msg = Some (msg_type cfg, payload) /\
    len payload = payload_len cfg /\
    map byte_to_Z (firstn 4 payload) =
      high_bytes (Z.min (payload_len cfg) 4) (be32_digits (k mod 4294967296)) /\
    gen_sync (m_gen (snd (next_message cfg m))) (k + 1).
Proof.
  intros [Hmt Hpl] Hsync.
  assert (Hbody : forall rng,
             exists msg payload,
               fst (message_stream_body cfg rng k m) = Ret msg /\
               len msg = payload_len cfg + 2 /\
               decode_frame msg = Some (msg_type cfg, payload) /\
               len payload = payload_len cfg /\
               map byte_to_Z (firstn 4 payload) =
                 high_bytes (Z.min (payload_len cfg) 4)
                            (be32_digits (k mod 4294967296)) /\
               gen_sync (m_gen (snd (message_stream_body cfg rng k m))) (k + 1)).
  { intros rng. unfold message_stream_body.
    destruct (make_payload_ok cfg k rng) as (payload & rng' & Hp); [lia|].
    destruct (make_payload_prefix cfg k rng payload rng' Hp) as [Hl Hd].
    rewrite Hp.
    destruct (build_message_ok (msg_type cfg) payload Hmt) as (l & t & Hb & Hlz & Htz);
      [lia|].
    rewrite Hb. exists (l :: t :: payload), payload. cbn [fst snd].
    split; [reflexivity|]. split; [rewrite !len_cons; lia|]. split.
    - cbn [decode_frame]. rewrite Hlz, Htz.
      replace (len payload =? 1 + len payload - 1) with true
        by (symmetry; apply Z.eqb_eq; lia).
      reflexivity.
    - split; [exact Hl|]. split; [exact Hd|]. cbn. reflexivity. }
  unfold next_message. destruct (m_gen m) as [|rng s|]; cbn [gen_sync] in Hsync.
  - subst k. apply Hbody.
  - subst k. apply Hbody.
  - contradiction.
Qed.

Lemma message_stream_yields_frames_witness :
  exists msg payload,
    fst (next_message sample_config
           (initial_machine (R := Z) sample_config 0 (sim_host 1 []))) = Ret msg /\
    len msg = 5 /\ decode_frame msg = Some (68, payload).
Proof.
  destruct (message_stream_yields_frames sample_config
              (initial_machine (R := Z) sample_config 0 (sim_host 1 [])) 0)
    as (msg & payload & H1 & H2 & H3 & _).
  - split; cbn; lia.
  - reflexivity.
  - exists msg, payload. auto.
Defined.

(** X9: [main] returns exit code 2, without a run and without touching
    the operating system, exactly when the payload length given on the
    command line is outside 0..254; whenever it does enter [run], the
    configuration it runs with has its type in 0..255 and its payload
    length in 0..254, so no frame of that run can fail to build. *)
Theorem main_validates_payload_len {W : Type} {OSW : OS W} {R : Type}
    {RS : RandomSource R} (a : Args) (fuel : nat) (w : W) :
  (main (R := R) a fuel w = (Ret 2, None) <-> ~ (0 <= arg_payload_len a <= 254)) /\
  (snd (main (R := R) a fuel w) <> None <-> 0 <= arg_payload_len a <= 254) /\
  (0 <= arg_payload_len a <= 254 -> valid_config (parse_args a)).
Proof.
  assert (Hbad : ~ (0 <= arg_payload_len a <= 254) ->
                 main (R := R) a fuel w = (Ret 2, None)).
  { intros Hn. unfold main. cbn [parse_args payload_len].
    destruct (arg_payload_len a <? 0) eqn:E1; [reflexivity|].
    destruct (254 <? arg_payload_len a) eqn:E2; [reflexivity|].
    apply Z.ltb_ge in E1. apply Z.ltb_ge in E2. lia. }
  assert (Hgood : 0 <= arg_payload_len a <= 254 ->
                  snd (main (R := R) a fuel w) <> None).
  { intros Hn. unfold main. cbn [parse_args payload_len].
    replace (arg_payload_len a <? 0) with false by (symmetry; apply Z.ltb_ge; lia).
    replace (254 <? arg_payload_len a) with false by (symmetry; apply Z.ltb_ge; lia).
    cbn [orb]. destruct (run _ fuel w). cbn. discriminate. }
  split; [|split].
  - split; [|exact Hbad]. intros Hm Hn. apply (Hgood Hn). rewrite Hm. reflexivity.
  - split; [|exact Hgood]. intros Hm.
    destruct (Z_le_gt_dec 0 (arg_payload_len a));
      destruct (Z_le_gt_dec (arg_payload_len a) 254); try lia;
      exfalso; apply Hm; rewrite Hbad by lia; reflexivity.
  - intros Hn. split; cbn [parse_args msg_type payload_len]; [|exact Hn].
    rewrite land_255. pose proof (Z.mod_pos_bound (arg_msg_type a) 256). lia.
Qed.

Lemma main_validates_payload_len_witness :
  main (R := Z) (with_arg_payload_len 255 sample_args) 20 (sim_host 1 [])
    = (Ret 2, None) /\
  valid_config (parse_args sample_args).
Proof.
  split.
  - apply (proj1 (main_validates_payload_len (R := Z)
                    (with_arg_payload_len 255 sample_args) 20 (sim_host 1 []))).
    cbn. lia.
  - apply (proj2 (proj2 (main_validates_payload_len (R := Z) sample_args 20
                           (sim_host 1 [])))).
    cbn. lia.
Defined.

(* ------------------------------------------------------------------ *)
(** ** The counters and the log at the end of a run *)

Section Accounting.
Context {W : Type} {OSW : OS W} {R : Type} {RS : RandomSource R}.

(** The three ways a run can end: before its [try], with nothing
    attempted or counted and the log absent or just begun; with the
    trace invariant; or after the write of an "ok" row raised. *)
Lemma run_ends (cfg : GenConfig) (fuel : nat) (w : W) :
  let m : Machine W R := snd (run cfg fuel w) in
  (m_attempts m = [] /\ sent (m_stats m) = 0 /\ send_bytes (m_stats m) = 0 /\
   send_fail (m_stats m) = 0 /\
   (m_csv m = None \/ (log_enabled cfg = true /\ m_csv m = Some [csv_header]))) \/
  Trace cfg m \/ LogFailed cfg m.
Proof.
  assert (Hinit : forall t w', 
            let m : Machine W R := initial_machine cfg t w' in
            m_attempts m = [] /\ sent (m_stats m) = 0 /\
            send_bytes (m_stats m) = 0 /\ send_fail (m_stats m) = 0 /\
            (m_csv m = None \/
             (log_enabled cfg = true /\ m_csv m = Some [csv_header]))).
  { intros t w'. cbn. repeat split. destruct (log_enabled cfg); auto. }
  unfold run. destruct (perf_counter w) as [t w1].
  destruct (if log_enabled cfg
            then open_csv match log_csv cfg with
                          | Some p => p
                          | None => EmptyString
                          end w1
            else (inr tt, w1)) as [[e|u] w2].
  - left. cbn. repeat split. auto.
  - destruct (if log_enabled cfg then csv_writerow csv_header w2
              else (inr tt, w2)) as [[e|u1] w2']; [left; apply Hinit|].
    destruct (socket_create w2') as [[e|u2] w3]; [left; apply Hinit|].
    right.
    pose proof (run_try_keeps cfg (fun m => Trace cfg m /\ Sync m)
                  (fun m => Trace cfg m \/ LogFailed cfg m)
                  (fun m m' E HI => conj (Trace_observed cfg m m' E (proj1 HI))
                                         (Sync_observed m m' E (proj2 HI)))
                  (fun m HI => or_introl (proj1 HI))
                  (send_next_keeps_trace cfg) fuel t w3
                  (initial_machine_trace cfg t w3)) as Hk.
    destruct (run_try cfg fuel (initial_machine cfg t w3)) as [[c|e|] m0];
      cbn [is_raise] in Hk.
    + left. eapply Trace_observed; [apply run_finally_cases|apply Hk].
    + destruct Hk as [HT|HL].
      * left. eapply Trace_observed; [apply run_finally_cases|exact HT].
      * right. eapply LogFailed_observed; [apply run_finally_cases|exact HL].
    + left. apply Hk.
Qed.

Lemma failure_last_counts (l : list attempt) :
  (forall i a, nth_error l i = Some a -> a_ok a = false -> S i = List.length l) ->
  ok_count l + fail_count l = len l /\ 0 <= fail_count l <= 1 /\ 0 <= ok_count l.
Proof.
  induction l as [|a l IH]; intros Hlast.
  - cbn. unfold len. cbn. lia.
  - assert (Hl : forall i b, nth_error l i = Some b -> a_ok b = false ->
                             S i = List.length l).
    { intros i b Hn Hb. specialize (Hlast (S i) b Hn Hb). cbn in Hlast. lia. }
    destruct (IH Hl) as (H1 & H2 & H3).
    cbn [ok_count fail_count fold_right]. fold (ok_count l). fold (fail_count l).
    rewrite len_cons. destruct (a_ok a) eqn:Ea; [lia|].
    specialize (Hlast 0%nat a eq_refl Ea). cbn in Hlast.
    assert (l = []) by (destruct l; [reflexivity|cbn in Hlast; lia]). subst l.
    cbn. unfold len. cbn. lia.
Qed.

Lemma framed_ok_bytes (cfg : GenConfig) (l : list attempt) :
  Forall (framed (R := R) cfg) l ->
  ok_bytes l = ok_count l * (payload_len cfg + 2).
Proof.
  induction 1 as [|a l Ha Hl IH]; [reflexivity|].
  cbn [ok_bytes ok_count fold_right]. fold (ok_bytes l). fold (ok_count l).
  rewrite IH. destruct (a_ok a); [rewrite (framed_length cfg a Ha)|]; lia.
Qed.

End Accounting.

(** X10: at the end of every run, however it ends, [send_fail] is 0 or
    1 and [send_bytes] is [sent] times the frame length
    [payload_len + 2].  [sent] plus [send_fail] is the number of send
    attempts, with one exception: when every write went through and it
    was the write of the last message's "ok" row to the log that raised,
    that message is counted in [sent] and in [send_fail] both, and the
    sum is one more than the number of attempts.  Without a log
    configured the sum is always the number of attempts. *)
Theorem run_counters_add_up {W : Type} {OSW : OS W} {R : Type}
    {RS : RandomSource R} (cfg : GenConfig) (fuel : nat) (w : W) :
  let m : Machine W R := snd (run cfg fuel w) in
  0 <= send_fail (m_stats m) <= 1 /\
  0 <= sent (m_stats m) /\
  send_bytes (m_stats m) = sent (m_stats m) * (payload_len cfg + 2) /\
  (sent (m_stats m) + send_fail (m_stats m) = len (m_attempts m) \/
   (sent (m_stats m) + send_fail (m_stats m) = len (m_attempts m) + 1 /\
    send_fail (m_stats m) = 1 /\
    Forall (fun a => a_ok a = true) (m_attempts m) /\
    log_enabled cfg = true)) /\
  (log_enabled cfg = false ->
   sent (m_stats m) + send_fail (m_stats m) = len (m_attempts m)).
Proof.
  intros m.
  destruct (run_ends cfg fuel w) as [(Ha & Hs & Hb & Hf & _)|[HT|HL]];
    fold m in Ha, Hs, Hb, Hf || fold m in HT || fold m in HL.
  - rewrite Ha, Hs, Hb, Hf. unfold len. cbn. repeat split; auto; lia.
  - destruct HT as [_ Hfr Hlast Hs Hb Hf _].
    destruct (failure_last_counts _ Hlast) as (H1 & H2 & H3).
    rewrite Hs, Hf, Hb.
    split; [lia|]. split; [lia|].
    split; [apply framed_ok_bytes; exact Hfr|]. split; [left; lia|intros _; lia].
  - destruct HL as [_ Hfr Hall _ Hs Hb Hf Hlog _].
    destruct (all_ok_counts _ Hall) as [Hc _].
    pose proof (len_nonneg (m_attempts m)) as Hnn.
    rewrite Hs, Hf, Hb.
    split; [lia|]. split; [lia|].
    split; [rewrite (framed_ok_bytes cfg _ Hfr), Hc; reflexivity|].
    split; [right; auto|]. intros Hoff. congruence.
Qed.

Lemma run_counters_add_up_witness :
  let m := snd (run (R := Z) (with_log_csv None sample_config) 20 failing_host) in
  sent (m_stats m) + send_fail (m_stats m) = len (m_attempts m).
Proof.
  apply (proj2 (proj2 (proj2 (proj2
           (run_counters_add_up (R := Z) (with_log_csv None sample_config) 20
              failing_host))))).
  reflexivity.
Defined.

(** The double count happens: with room for the header and one row in
    the log, the second message goes out whole, the write of its "ok"
    row raises, and it is counted as sent and as failed; the run
    returns 1. *)
Example run_counts_last_message_twice :
  let out := run (R := Z) sample_config 20 (full_disk_host 2 (sim_host 1 [])) in
  fst out = Ret 1 /\
  map a_ok (m_attempts (snd out)) = [true; true] /\
  sent (m_stats (snd out)) = 2 /\ send_fail (m_stats (snd out)) = 1 /\
  send_bytes (m_stats (snd out)) = 10 /\
  sim_wire (disk_inner (m_world (snd out))) =
    List.concat (map a_msg (m_attempts (snd out))).
Proof.
  vm_compute. repeat split.
Qed.

(** X11: a run that returns 0 had no failed write: [send_fail] is 0,
    every attempt went through, [sent] and the loop's sequence counter
    both equal the number of attempts, and the log, when configured,
    holds the header and then exactly [sent] records, all "ok". *)
Theorem run_clean_exit {W : Type} {OSW : OS W} {R : Type}
    {RS : RandomSource R} (cfg : GenConfig) (fuel : nat) (w : W) :
  let m : Machine W R := snd (run cfg fuel w) in
  fst (run cfg fuel w) = Ret 0 ->
  send_fail (m_stats m) = 0 /\
  Forall (fun a => a_ok a = true) (m_attempts m) /\
  sent (m_stats m) = len (m_attempts m) /\
  m_seq m = sent (m_stats m) /\
  match m_csv m with
  | Some lines =>
      exists rows,
        lines = csv_header :: rows /\ len rows = sent (m_stats m) /\
        Forall (fun line => exists s t b, line = Row s t b "ok"%string) rows
  | None => log_enabled cfg = false
  end.
Proof.
  intros m Hr.
  destruct (run_trace cfg fuel w) as [[_ [e He]]|[[HT [[HS _]|Hres]]|[_ Hres]]];
    fold m in HT || idtac.
  - congruence.
  - fold m in HS. pose proof (sy_all_ok _ HS) as Hall.
    destruct (all_ok_counts _ Hall) as [Hc Hf].
    split; [rewrite (tr_fail _ _ HT); exact Hf|]. split; [exact Hall|].
    assert (Hsent : sent (m_stats m) = len (m_attempts m))
      by (rewrite (tr_sent _ _ HT); exact Hc).
    split; [exact Hsent|]. split; [rewrite (sy_seq _ HS); lia|].
    pose proof (tr_csv _ _ HT) as Hcsv. unfold csv_matches in Hcsv.
    destruct (m_csv m) as [lines|]; [|exact Hcsv].
    destruct Hcsv as (_ & rows & -> & Hrows). exists rows.
    split; [reflexivity|]. split.
    + rewrite Hsent. unfold len. rewrite (Forall2_length Hrows). reflexivity.
    + eapply ok_rows; eauto.
  - destruct Hres as [Hres|[_ [e Hres]]]; congruence.
  - destruct Hres as [Hres|[_ [e Hres]]]; congruence.
Qed.

Lemma run_clean_exit_witness :
  let m := snd (run (R := Z) sample_config 20 (sim_host 1 [])) in
  send_fail (m_stats m) = 0 /\ sent (m_stats m) = len (m_attempts m).
Proof.
  destruct (run_clean_exit (R := Z) sample_config 20 (sim_host 1 []))
    as (H1 & _ & H2 & _).
  - vm_compute. reflexivity.
  - split; assumption.
Defined.

(* ------------------------------------------------------------------ *)
(** ** Runs that send nothing, and the reply counters *)

Section Quiet.
Context {W : Type} {OSW : OS W} {R : Type} {RS : RandomSource R}.
Local Open Scope run_scope.

(** If the body of the [try] keeps "nothing sent", so does the run. *)
Lemma run_keeps_nothing_sent (cfg : GenConfig) (fuel : nat) (w : W) :
  keeps nothing_sent nothing_sent (run_try (R := R) cfg fuel) ->
  nothing_sent (snd (run (R := R) cfg fuel w)).
Proof.
  intros Hk. unfold run. destruct (perf_counter w) as [t w1].
  destruct (if log_enabled cfg
            then open_csv match log_csv cfg with
                          | Some p => p
                          | None => EmptyString
                          end w1
            else (inr tt, w1)) as [[e|u] w2].
  - cbn. unfold nothing_sent. cbn. auto.
  - destruct (if log_enabled cfg then csv_writerow csv_header w2
              else (inr tt, w2)) as [[e|u1] w2'];
      [cbn; unfold nothing_sent; cbn; auto|].
    destruct (socket_create w2') as [[e|u2] w3];
      [cbn; unfold nothing_sent; cbn; auto|].
    assert (Hinit : nothing_sent (initial_machine (R := R) cfg t w3))
      by (unfold nothing_sent; cbn; auto).
    specialize (Hk _ Hinit).
    destruct (run_try cfg fuel (initial_machine cfg t w3)) as [[c|e|] m0];
      cbn [is_raise fst snd] in Hk.
    + eapply nothing_sent_observed; [|exact Hk]. apply run_finally_cases.
    + eapply nothing_sent_observed; [|exact Hk]. apply run_finally_cases.
    + exact Hk.
Qed.

Lemma run_connect_refused (cfg : GenConfig) (m : Machine W R) :
  (forall w, exists e w', sock_connect (host cfg) (port cfg) w = (inl e, w')) ->
  exists e, fst (run_connect cfg m) = Raise e.
Proof.
  intros Href. unfold run_connect, bind, os_call.
  destruct (sock_settimeout (Some 5%float) (m_world m)) as [[e|u] w1];
    [cbn; eauto|].
  cbn [m_world set_world].
  destruct (Href w1) as (e & w2 & Hc). rewrite Hc. cbn. eauto.
Qed.

Lemma neutral_burst_idle (cfg : GenConfig) (end_time : float) (fuel : nat) :
  burst cfg = true -> burst_msgs cfg <= 0 ->
  neutral (R := R) (main_loop cfg end_time fuel).
Proof.
  intros Hb Hn. induction fuel as [|fuel IH]; cbn [main_loop].
  - apply neutral_lift.
  - apply neutral_bind; [apply neutral_clock|]. intros now.
    destruct (now <? end_time)%float; [|apply neutral_ret].
    apply neutral_bind.
    + unfold loop_body. rewrite Hb.
      replace (Z.to_nat (burst_msgs cfg)) with 0%nat by lia. cbn [burst_loop].
      apply neutral_bind; [apply neutral_ret|]. intros _.
      apply neutral_bind; [apply neutral_lift|]. intros ms.
      apply neutral_bind; [apply neutral_os_call|]. intros _. apply neutral_ret.
    + intros [|]; [exact IH|apply neutral_ret].
Qed.

Lemma nothing_sent_run_setup (cfg : GenConfig) :
  keeps nothing_sent nothing_sent (run_setup (W := W) (R := R) cfg).
Proof. intros m H. exact H. Qed.

End Quiet.

(** X12: when the peer refuses the connection, [run] never enters its
    loop: whatever the budget, it ends, nothing is sent, and the result
    is 1 (or an exception from opening or closing the log, or from
    creating the socket). *)
Theorem run_connect_failure_is_fatal {W : Type} {OSW : OS W} {R : Type}
    {RS : RandomSource R} (cfg : GenConfig) (fuel : nat) (w : W) :
  (forall w0, exists e w', sock_connect (host cfg) (port cfg) w0 = (inl e, w')) ->
  let r := fst (run (R := R) cfg fuel w) in
  nothing_sent (snd (run (R := R) cfg fuel w)) /\
  (r = Ret 1 \/ exists e, r = Raise e).
Proof.
  intros Href r.
  assert (Htry : forall m : Machine W R,
             exists e, fst (run_try cfg fuel m) = Raise e /\
                       observed (snd (run_try cfg fuel m)) = observed m).
  { intros m. unfold run_try, bind.
    destruct (run_connect_refused cfg m Href) as [e He].
    pose proof (neutral_run_connect cfg m) as Hobs.
    destruct (run_connect cfg m) as [[u|e'|] m1]; cbn [fst snd] in *;
      try discriminate.
    exists e'. auto. }
  split.
  - apply run_keeps_nothing_sent. intros m Hm.
    destruct (Htry m) as (e & He & Hobs). rewrite He. cbn [is_raise].
    eapply nothing_sent_observed; eauto.
  - subst r. unfold run. destruct (perf_counter w) as [t w1].
    destruct (if log_enabled cfg
              then open_csv match log_csv cfg with
                            | Some p => p
                            | None => EmptyString
                            end w1
              else (inr tt, w1)) as [[e|u] w2]; [cbn; eauto|].
    destruct (if log_enabled cfg then csv_writerow csv_header w2
              else (inr tt, w2)) as [[e|u1] w2']; [cbn; eauto|].
    destruct (socket_create w2') as [[e|u2] w3]; [cbn; eauto|].
    destruct (Htry (initial_machine cfg t w3)) as (e & He & _).
    destruct (run_try cfg fuel (initial_machine cfg t w3)) as [r0 m0].
    cbn [fst] in He. subst r0.
    destruct (run_finally_cases cfg (Ret 1) m0) as [_ [Hres|[_ Hres]]]; auto.
Qed.

Lemma run_connect_failure_is_fatal_witness :
  fst (run (R := Z) sample_config 0 {| down_inner := sim_host 1 [] |}) = Ret 1 \/
  exists e,
    fst (run (R := Z) sample_config 0 {| down_inner := sim_host 1 [] |}) = Raise e.
Proof.
  apply (run_connect_failure_is_fatal (R := Z) sample_config 0
           {| down_inner := sim_host 1 [] |}).
  intros w0. exists (OSError "connection refused"), w0. reflexivity.
Defined.

(** X13: in burst mode with a batch size of 0 or less, no message is
    ever sent: every pass of the loop is only the idle sleep. *)
Theorem burst_without_messages_sends_nothing {W : Type} {OSW : OS W} {R : Type}
    {RS : RandomSource R} (cfg : GenConfig) (fuel : nat) (w : W) :
  burst cfg = true -> burst_msgs cfg <= 0 ->
  nothing_sent (snd (run (R := R) cfg fuel w)).
Proof.
  intros Hb Hn. apply run_keeps_nothing_sent. unfold run_try.
  assert (Hneutral : forall A (c : M W R A), neutral c ->
                       keeps nothing_sent nothing_sent c).
  { intros A c. apply keeps_neutral; [apply nothing_sent_observed|auto]. }
  apply keeps_bind; [apply Hneutral, neutral_run_connect|]. intros _.
  apply keeps_bind; [apply nothing_sent_run_setup|]. intros end_time.
  apply keeps_bind; [apply Hneutral, neutral_burst_idle; assumption|]. intros _.
  apply keeps_bind; [apply Hneutral, neutral_final_report|]. intros _.
  apply Hneutral, neutral_ret.
Qed.

Lemma burst_without_messages_sends_nothing_witness :
  nothing_sent (snd (run (R := Z) (burst_config 0) 20 (sim_host 1 []))).
Proof.
  apply (burst_without_messages_sends_nothing (R := Z) (burst_config 0) 20
           (sim_host 1 [])).
  - reflexivity.
  - cbn. lia.
Defined.

Section Replies.
Context {W : Type} {OSW : OS W} {R : Type} {RS : RandomSource R}.
Variable cfg : GenConfig.
Local Open Scope run_scope.

Lemma replies_counted_same (m m' : Machine W R) :
  replies (m_stats m') = replies (m_stats m) ->
  recv_bytes (m_stats m') = recv_bytes (m_stats m) ->
  replies_counted cfg m -> replies_counted cfg m'.
Proof. unfold replies_counted. intros -> ->. auto. Qed.

Lemma replies_os_call {A : Type} (f : W -> (exn + A) * W) :
  keeps (replies_counted cfg) (replies_counted cfg) (os_call (R := R) f).
Proof.
  intros m H. unfold os_call. destruct (f (m_world m)) as [[e|a] w']; exact H.
Qed.

Lemma replies_clock :
  keeps (replies_counted cfg) (replies_counted cfg) (clock (W := W) (R := R)).
Proof.
  intros m H. unfold clock. destruct (perf_counter (m_world m)). exact H.
Qed.

Lemma replies_next_deadline (rate : float) :
  keeps (replies_counted cfg) (replies_counted cfg) (next_deadline (R := R) rate).
Proof.
  intros m H. unfold next_deadline.
  destruct (rate_controller_next_deadline rate (m_deadlines m) (m_world m))
    as [[d g] w']. exact H.
Qed.

Lemma replies_recv_reply :
  recv_replies cfg = true ->
  keeps (replies_counted cfg) (replies_counted cfg) (recv_reply (W := W) (R := R)).
Proof.
  intros Hon m [Hle Hoff]. unfold recv_reply.
  destruct (sock_recv 4096 (m_world m)) as [[e|data] w'].
  - destruct e; cbn; split; auto.
  - destruct data as [|b data]; [cbn; split; auto|].
    unfold replies_counted.
    cbn [fst snd is_raise m_stats set_stats set_world replies recv_bytes].
    split.
    + rewrite len_cons. pose proof (len_nonneg data). lia.
    + intros Hoff'. congruence.
Qed.

Lemma replies_maybe_report (every_s : float) :
  keeps (replies_counted cfg) (replies_counted cfg) (_maybe_report (R := R) every_s).
Proof.
  unfold _maybe_report. apply keeps_bind; [exact replies_clock|].
  intros now m H.
  destruct (every_s <=? now - t_last_report (m_stats m))%float; exact H.
Qed.

Lemma _send_one_replies (msg : bytes) (s : Z) (m : Machine W R) :
  replies (m_stats (snd (_send_one cfg msg s m))) = replies (m_stats m) /\
  recv_bytes (m_stats (snd (_send_one cfg msg s m))) = recv_bytes (m_stats m).
Proof.
  destruct (_send_one_effect cfg msg s m)
    as (t & ok & _ & _ & _ & _ & _ & Hr & Hb & _).
  split; assumption.
Qed.

Lemma replies_send_next :
  keeps (replies_counted cfg) (replies_counted cfg) (send_next cfg).
Proof.
  intros m H. unfold send_next, bind.
  destruct (next_message_world cfg m) as (_ & _ & Hst).
  destruct (next_message cfg m) as [[msg|e|] m1]; cbn [fst snd] in *;
    [|cbn; eapply replies_counted_same; [| |exact H]; rewrite Hst; reflexivity
     |cbn; eapply replies_counted_same; [| |exact H]; rewrite Hst; reflexivity].
  destruct (_send_one_replies msg (m_seq m1) m1) as [Hr Hb].
  destruct (_send_one cfg msg (m_seq m1) m1) as [[u|e|] m2]; cbn [fst snd] in *;
    cbn; (eapply replies_counted_same; [| |exact H]); cbn; congruence.
Qed.

Lemma replies_run_try (fuel : nat) :
  keeps (replies_counted cfg) (replies_counted cfg) (run_try (R := R) cfg fuel).
Proof.
  apply step_run_try.
  - auto.
  - exact replies_clock.
  - intros d. apply replies_os_call.
  - intros t. apply replies_os_call.
  - apply replies_os_call.
  - apply replies_os_call.
  - exact replies_next_deadline.
  - exact replies_recv_reply.
  - exact replies_maybe_report.
  - intros m H. exact H.
  - exact replies_send_next.
Qed.

End Replies.

(** X14: at the end of every run the reply counters are consistent:
    every counted reply brought at least one byte, so
    [0 <= replies <= recv_bytes]; and when replies are not read, both
    counters are 0. *)
Theorem run_reply_counters {W : Type} {OSW : OS W} {R : Type}
    {RS : RandomSource R} (cfg : GenConfig) (fuel : nat) (w : W) :
  let m : Machine W R := snd (run cfg fuel w) in
  0 <= replies (m_stats m) <= recv_bytes (m_stats m) /\
  (recv_replies cfg = false ->
   replies (m_stats m) = 0 /\ recv_bytes (m_stats m) = 0).
Proof.
  intros m. change (replies_counted cfg m). subst m.
  assert (Hinit : forall t (w' : W),
             replies_counted cfg (initial_machine (R := R) cfg t w')).
  { intros t w'. unfold replies_counted. cbn. split; [lia|auto]. }
  unfold run. destruct (perf_counter w) as [t w1].
  destruct (if log_enabled cfg
            then open_csv match log_csv cfg with
                          | Some p => p
                          | None => EmptyString
                          end w1
            else (inr tt, w1)) as [[e|u] w2].
  - exact (Hinit t w2).
  - destruct (if log_enabled cfg then csv_writerow csv_header w2
              else (inr tt, w2)) as [[e|u1] w2']; [exact (Hinit t w2')|].
    destruct (socket_create w2') as [[e|u2] w3]; [exact (Hinit t w3)|].
    pose proof (replies_run_try cfg fuel _ (Hinit t w3)) as Hk.
    assert (Hfin : forall r0 (m0 : Machine W R), replies_counted cfg m0 ->
                     replies_counted cfg (snd (run_finally cfg r0 m0))).
    { intros r0 m0 H0. unfold run_finally.
      destruct (sock_close (m_world m0)) as [x w4].
      destruct (log_enabled cfg); [destruct (close_csv w4) as [[e|u3] w5]|];
        exact H0. }
    destruct (run_try cfg fuel (initial_machine cfg t w3)) as [[c|e|] m0];
      cbn [fst snd is_raise] in Hk; [apply Hfin|apply Hfin|]; exact Hk.
Qed.

(** X15: [maybe_sleep_until] sleeps only for a duration [dt] with
    [dt > 0]: on any system whose [sleep] accepts every such duration it
    never raises, it touches nothing but the clock and the sleep, and for
    a deadline [<= 0] it does nothing at all, not even read the clock. *)
Theorem maybe_sleep_until_never_fails {W : Type} {OSW : OS W} {R : Type}
    (deadline : float) (m : Machine W R) :
  (forall d w, (0 <? d)%float = true -> exists w', sleep d w = (inr tt, w')) ->
  (exists m', maybe_sleep_until deadline m = (Ret tt, m') /\
              observed m' = observed m /\
              m_stats m' = m_stats m /\ m_deadlines m' = m_deadlines m) /\
  ((deadline <=? 0)%float = true -> maybe_sleep_until deadline m = (Ret tt, m)).
Proof.
  intros Hsleep. unfold maybe_sleep_until.
  destruct (deadline <=? 0)%float; [split; [exists m|]; auto|].
  split; [|discriminate].
  unfold bind, clock. destruct (perf_counter (m_world m)) as [now w1].
  destruct (0 <? deadline - now)%float eqn:Edt.
  - unfold os_call. cbn [m_world set_world].
    destruct (Hsleep _ w1 Edt) as [w2 Hw2]. rewrite Hw2.
    eexists. split; [reflexivity|]. cbn. auto.
  - eexists. split; [reflexivity|]. cbn. auto.
Qed.

Lemma maybe_sleep_until_never_fails_witness :
  exists m',
    maybe_sleep_until 5
      (initial_machine (R := Z) sample_config 0 {| down_inner := sim_host 1 [] |})
      = (Ret tt, m').
Proof.
  destruct (maybe_sleep_until_never_fails (R := Z) 5
              (initial_machine (R := Z) sample_config 0
                               {| down_inner := sim_host 1 [] |}))
    as [(m' & Hm & _) _].
  - intros d w _. exists w. reflexivity.
  - exists m'. exact Hm.
Defined.

Lemma Forall2_nth_error_r {A B : Type} (P : A -> B -> Prop) (l : list A) (l' : list B) :
  Forall2 P l l' ->
  forall k b, nth_error l' k = Some b -> exists a, nth_error l k = Some a /\ P a b.
Proof.
  induction 1 as [|x y l l' Hxy Hrest IH]; intros k b Hk.
  - destruct k; discriminate.
  - destruct k as [|k]; cbn in *.
    + injection Hk as <-. eauto.
    + apply IH. exact Hk.
Qed.

(** X16: the log of a run, as the rows handed to [csv_writer.writerow].
    There is a log only when [log_csv] is set and not the empty string.
    It is the header followed by [sent + send_fail] records; the record
    at position [k] is that of the [k]-th send attempt: sequence number
    [k], then the message length and "ok" if the write went through, 0
    and "send_fail" if it did not.  That is one record per attempt, with
    one exception: when it was the write of the last attempt's "ok"
    record that raised, a record (k, time, 0, "send_fail") for that same
    attempt follows it and closes the log. *)
Theorem run_log_shape {W : Type} {OSW : OS W} {R : Type}
    {RS : RandomSource R} (cfg : GenConfig) (fuel : nat) (w : W) :
  let m : Machine W R := snd (run cfg fuel w) in
  forall lines, m_csv m = Some lines ->
    (exists p, log_csv cfg = Some p /\ p <> EmptyString) /\
    exists rows,
      lines = csv_header :: rows /\
      len rows = sent (m_stats m) + send_fail (m_stats m) /\
      (forall k a, nth_error (m_attempts m) k = Some a ->
         exists t,
           nth_error rows k =
             Some (Row (Z.of_nat k) t
                       (if a_ok a then len (a_msg a) else 0)
                       (if a_ok a then "ok"%string else "send_fail"%string))) /\
      (len rows = len (m_attempts m) \/
       (Forall (fun a => a_ok a = true) (m_attempts m) /\
        exists rows' t,
          rows = rows' ++ [Row (len (m_attempts m) - 1) t 0 "send_fail"] /\
          len rows' = len (m_attempts m))).
Proof.
  intros m lines Hlines.
  assert (Hen : log_enabled cfg = true ->
                exists p, log_csv cfg = Some p /\ p <> EmptyString).
  { unfold log_enabled. destruct (log_csv cfg) as [[|c p]|]; try discriminate.
    intros _. eexists. split; [reflexivity|discriminate]. }
  destruct (run_ends cfg fuel w) as [(Ha & Hs & _ & Hf & Hcsv)|[HT|HL]];
    fold m in Ha, Hs, Hf, Hcsv || fold m in HT || fold m in HL.
  - destruct Hcsv as [Hnone|[Hlog Hcsv]]; [congruence|].
    rewrite Hlines in Hcsv. injection Hcsv as ->.
    split; [apply Hen; exact Hlog|]. exists []. rewrite Hs, Hf, Ha.
    repeat split; auto.
    intros [|k] a Hk; discriminate.
  - pose proof (tr_csv _ _ HT) as Hcsv. unfold csv_matches in Hcsv.
    rewrite Hlines in Hcsv. destruct Hcsv as (Hlog & rows & -> & Hrows).
    split; [apply Hen; exact Hlog|]. exists rows.
    assert (Hlen : len rows = len (m_attempts m)).
    { unfold len. rewrite (Forall2_length Hrows). reflexivity. }
    split; [reflexivity|]. split.
    + destruct (failure_last_counts _ (tr_failure_last _ _ HT)) as (Hsum & _).
      rewrite (tr_sent _ _ HT), (tr_fail _ _ HT), Hsum. exact Hlen.
    + split; [|left; exact Hlen].
      intros k a Hk.
      destruct (Forall2_nth_error _ _ _ Hrows k a Hk) as (line & Hline & [t ->]).
      exists t. rewrite Hline, (tr_numbered _ _ HT k a Hk). reflexivity.
  - destruct (lf_csv _ _ HL) as (rows & t0 & Hcsv & Hrows).
    rewrite Hlines in Hcsv. injection Hcsv as ->.
    split; [apply Hen; exact (lf_log _ _ HL)|].
    exists (rows ++ [Row (len (m_attempts m) - 1) t0 0 "send_fail"]).
    assert (Hlen : len rows = len (m_attempts m)).
    { unfold len. rewrite (Forall2_length Hrows). reflexivity. }
    split; [reflexivity|]. split.
    + rewrite len_app, (lf_sent _ _ HL), (lf_fail _ _ HL), Hlen. reflexivity.
    + split.
      * intros k a Hk.
        destruct (Forall2_nth_error _ _ _ Hrows k a Hk) as (line & Hline & [t ->]).
        exists t. rewrite nth_error_app1 by (apply nth_error_Some; congruence).
        rewrite Hline, (lf_numbered _ _ HL k a Hk). reflexivity.
      * right. split; [exact (lf_all_ok _ _ HL)|]. exists rows, t0. auto.
Qed.

Lemma run_log_shape_witness :
  exists rows,
    m_csv (snd (run (R := Z) sample_config 20 failing_host))
      = Some (csv_header :: rows) /\
    len rows = 3.
Proof.
  assert (E : exists lines,
             m_csv (snd (run (R := Z) sample_config 20 failing_host)) = Some lines)
    by (vm_compute; eauto).
  destruct E as [lines E].
  destruct (run_log_shape (R := Z) sample_config 20 failing_host lines E)
    as (_ & rows & -> & Hlen & _).
  exists rows. split; [exact E|]. rewrite Hlen. vm_compute. reflexivity.
Defined.

(** The closing record happens: with room for the header and one row in
    the log, the rows handed to it are those of message 0, of message 1,
    and of message 1 again as a failure. *)
Example run_log_after_full_disk :
  option_map
    (map (fun line => match line with
                      | Header _ => None
                      | Row s _ b note => Some (s, b, note)
                      end))
    (m_csv (snd (run (R := Z) sample_config 20
                     (full_disk_host 2 (sim_host 1 [])))))
  = Some [None; Some (0, 5, "ok"%string); Some (1, 5, "ok"%string);
          Some (1, 0, "send_fail"%string)].
Proof.
  vm_compute. reflexivity.
Qed.

(* ------------------------------------------------------------------ *)
(** ** Reading the stream back *)

Lemma decode_stream_frames (msgs : list (Z * bytes)) (frames : list bytes) :
  Forall2 (fun tp f => build_message (fst tp) (snd tp) = Ret f) msgs frames ->
  forall fuel, (List.length frames <= fuel)%nat ->
    decode_stream fuel (List.concat frames) = Some msgs.
Proof.
  induction 1 as [|[mt p] f msgs frames Hb Hrest IH]; intros fuel Hfuel.
  - destruct fuel; reflexivity.
  - cbn [fst snd] in Hb.
    destruct (build_message_returns _ _ _ Hb) as (Hmt & Hlen & l & t & -> & Hl & Ht).
    destruct fuel as [|fuel]; [cbn in Hfuel; lia|].
    cbn [List.concat app decode_stream]. rewrite Hl.
    pose proof (len_nonneg p) as Hp.
    replace (1 + len p - 1) with (len p) by lia.
    replace ((1 <=? 1 + len p) && (len p <=? len (p ++ List.concat frames)))
      with true.
    2:{ symmetry. apply andb_true_iff. split; apply Z.leb_le; [lia|].
        rewrite len_app. pose proof (len_nonneg (List.concat frames)). lia. }
    unfold len at 1 2. rewrite Nat2Z.id, firstn_app, Nat.sub_diag, firstn_all.
    cbn [firstn]. rewrite app_nil_r.
    rewrite skipn_app, Nat.sub_diag, skipn_all. cbn [skipn app].
    rewrite IH by (cbn in Hfuel; lia). cbn [option_map]. rewrite Ht. reflexivity.
Qed.

Lemma concat_frames_length (msgs : list (Z * bytes)) (frames : list bytes) :
  Forall2 (fun tp f => build_message (fst tp) (snd tp) = Ret f) msgs frames ->
  (List.length frames <= List.length (List.concat frames))%nat.
Proof.
  induction 1 as [|[mt p] f msgs frames Hb Hrest IH]; [cbn; lia|].
  cbn [fst snd] in Hb.
  destruct (build_message_returns _ _ _ Hb) as (_ & _ & l & t & -> & _).
  cbn [List.concat List.length app]. rewrite length_app. lia.
Qed.

Lemma frames_stream_decoded (msgs : list (Z * bytes)) (frames : list bytes) :
  Forall2 (fun tp f => build_message (fst tp) (snd tp) = Ret f) msgs frames ->
  decode_wire (List.concat frames) = Some msgs.
Proof.
  intros Hall. unfold decode_wire.
  apply decode_stream_frames; [exact Hall|].
  eapply concat_frames_length; eauto.
Qed.

(** X17: the framing is self-delimiting: the frames that [build_message]
    returns for any sequence of messages, written back to back, read
    back by the [LEN][TYPE][PAYLOAD] rule as exactly that sequence of
    types and payloads. *)
Theorem frames_stream_roundtrip (msgs : list (Z * bytes)) (frames : list bytes) :
  Forall2 (fun tp f => build_message (fst tp) (snd tp) = Ret f) msgs frames ->
  decode_wire (List.concat frames) = Some msgs.
Proof.
  intros Hall. apply (decode_stream_frames msgs frames Hall).
  eapply concat_frames_length; eauto.
Qed.

Lemma frames_stream_roundtrip_witness :
  decode_wire
    (List.concat [[x04; x44; x01; x02; x03]; [x01; x41]; [x02; xff; xff]])
    = Some sample_messages.
Proof.
  apply (frames_stream_roundtrip sample_messages
           [[x04; x44; x01; x02; x03]; [x01; x41]; [x02; xff; xff]]).
  repeat constructor.
Defined.

Lemma framed_messages {R : Type} {RS : RandomSource R} (cfg : GenConfig)
    (l : list attempt) :
  Forall (framed (R := R) cfg) l ->
  exists msgs,
    Forall2 (fun tp f => build_message (fst tp) (snd tp) = Ret f) msgs (map a_msg l) /\
    Forall2 (fun a tp =>
               fst tp = msg_type cfg /\ len (snd tp) = payload_len cfg /\
               map byte_to_Z (firstn 4 (snd tp)) =
                 high_bytes (Z.min (payload_len cfg) 4)
                            (be32_digits (a_seq a mod 4294967296)))
            l msgs.
Proof.
  induction 1 as [|a l Ha Hl (msgs & H1 & H2)]; [exists []; split; constructor|].
  destruct Ha as (rng & rng' & payload & Hp & Hb).
  destruct (make_payload_prefix cfg _ rng payload rng' Hp) as [Hlen Hd].
  exists ((msg_type cfg, payload) :: msgs). split; constructor; auto.
Qed.

(** X18: end to end, over an honest transport on a connection whose wire
    starts empty, a run that returns 0 leaves on the wire a stream that
    reads back, by the [LEN][TYPE][PAYLOAD] rule, as exactly [sent]
    messages: the [k]-th has the configured type and a payload of the
    configured length whose leading bytes are those of [k mod 2^32],
    whether or not the writes were fragmented. *)
Theorem run_stream_reads_back {W : Type} {OSW : OS W} {R : Type}
    {RS : RandomSource R} (wire : W -> bytes) (cfg : GenConfig) (fuel : nat)
    (w : W) :
  honest wire -> wire w = [] ->
  fst (run (R := R) cfg fuel w) = Ret 0 ->
  let m : Machine W R := snd (run cfg fuel w) in
  exists msgs,
    decode_wire (wire (m_world m)) = Some msgs /\
    len msgs = sent (m_stats m) /\
    forall k tp, nth_error msgs k = Some tp ->
      fst tp = msg_type cfg /\ len (snd tp) = payload_len cfg /\
      map byte_to_Z (firstn 4 (snd tp)) =
        high_bytes (Z.min (payload_len cfg) 4)
                   (be32_digits (Z.of_nat k mod 4294967296)).
Proof.
  intros Hh Hempty Hr m.
  destruct (run_clean_all_ok cfg fuel w Hr) as [HT HS]. fold m in HT, HS.
  destruct (run_Wired (R := R) wire cfg fuel w Hh) as (bs & Hbs & Hwire).
  fold m in Hbs, Hwire.
  rewrite Hempty in Hwire. cbn [app] in Hwire.
  rewrite (wired_all_ok _ _ Hbs (sy_all_ok _ HS)) in Hwire.
  destruct (framed_messages cfg _ (tr_framed _ _ HT)) as (msgs & Hframes & Hprops).
  exists msgs. split; [|split].
  - rewrite Hwire. apply frames_stream_decoded. exact Hframes.
  - rewrite (tr_sent _ _ HT). destruct (all_ok_counts _ (sy_all_ok _ HS)) as [-> _].
    unfold len. rewrite (Forall2_length Hprops). reflexivity.
  - intros k tp Hk.
    destruct (Forall2_nth_error_r _ _ _ Hprops k tp Hk) as (a & Ha & H1 & H2 & H3).
    rewrite (tr_numbered _ _ HT k a Ha) in H3. auto.
Qed.

Lemma run_stream_reads_back_witness :
  exists msgs,
    decode_wire
      (sim_wire (m_world (snd (run (R := Z) sample_config 20 (sim_host 1 [])))))
      = Some msgs /\
    len msgs = sent (m_stats (snd (run (R := Z) sample_config 20 (sim_host 1 [])))).
Proof.
  destruct (run_stream_reads_back (R := Z) sim_wire sample_config 20 (sim_host 1 [])
              sim_wire_honest) as (msgs & H1 & H2 & _).
  - reflexivity.
  - vm_compute. reflexivity.
  - exists msgs. split; assumption.
Defined.

(* ------------------------------------------------------------------ *)
(** ** How much one pass of the loop sends *)

Section PassBound.
Context {W : Type} {OSW : OS W} {R : Type} {RS : RandomSource R}.
Local Open Scope run_scope.

Lemma extends_by_refl (k : nat) (m : Machine W R) : extends_by k m m.
Proof. exists []. rewrite app_nil_r. split; [reflexivity|cbn; lia]. Qed.

Lemma extends_by_trans (j k : nat) (m1 m2 m3 : Machine W R) :
  extends_by j m1 m2 -> extends_by k m2 m3 -> extends_by (j + k) m1 m3.
Proof.
  intros (a & Ha & Hla) (b & Hb & Hlb). exists (a ++ b).
  rewrite Hb, Ha, app_assoc, length_app. split; [reflexivity|lia].
Qed.

Lemma extends_by_weaken (j k : nat) (m m' : Machine W R) :
  (j <= k)%nat -> extends_by j m m' -> extends_by k m m'.
Proof.
  intros Hle (more & H1 & H2). exists more. split; [exact H1|lia].
Qed.

Lemma extends_by_neutral {A : Type} (c : M W R A) (m : Machine W R) :
  neutral c -> extends_by 0 m (snd (c m)).
Proof.
  intros Hn. specialize (Hn m). unfold observed in Hn.
  injection Hn as _ _ _ _ _ _ Ha. exists []. rewrite Ha, app_nil_r.
  split; [reflexivity|cbn; lia].
Qed.

Lemma extends_by_bind {A B : Type} (c : M W R A) (k : A -> M W R B)
    (i j : nat) (m : Machine W R) :
  extends_by i m (snd (c m)) ->
  (forall a m1, extends_by j m1 (snd (k a m1))) ->
  extends_by (i + j) m (snd (bind c k m)).
Proof.
  intros Hc Hk. unfold bind.
  destruct (c m) as [[a|e|] m1]; cbn [snd] in *.
  - eapply extends_by_trans; [exact Hc|apply Hk].
  - replace (i + j)%nat with (i + 0 + j)%nat by lia.
    destruct Hc as (more & H1 & H2). exists more. split; [exact H1|lia].
  - destruct Hc as (more & H1 & H2). exists more. split; [exact H1|lia].
Qed.

Lemma send_next_extends (cfg : GenConfig) (m : Machine W R) :
  extends_by 1 m (snd (send_next cfg m)).
Proof.
  unfold send_next, bind.
  destruct (next_message_world cfg m) as (_ & Ha & _).
  destruct (next_message cfg m) as [[msg|e|] m1]; cbn [snd] in *;
    [|exists []; rewrite Ha, app_nil_r; split; [reflexivity|cbn; lia]
     |exists []; rewrite Ha, app_nil_r; split; [reflexivity|cbn; lia]].
  destruct (_send_one_effect cfg msg (m_seq m1) m1)
    as (t & ok & Hatt & _).
  destruct (_send_one cfg msg (m_seq m1) m1) as [[u|e|] m2]; cbn [fst snd] in *;
    eexists; (split; [cbn; rewrite Hatt, Ha; reflexivity|cbn; lia]).
Qed.

Lemma burst_loop_extends (cfg : GenConfig) (end_time : float) (n : nat) :
  forall m : Machine W R, extends_by n m (snd (burst_loop cfg end_time n m)).
Proof.
  induction n as [|n IH]; intros m; cbn [burst_loop].
  - apply extends_by_refl.
  - apply (extends_by_weaken (0 + (1 + n))); [lia|].
    apply extends_by_bind; [apply extends_by_neutral, neutral_clock|].
    intros now m1. destruct (end_time <=? now)%float.
    + apply (extends_by_weaken 0); [lia|apply extends_by_refl].
    + apply extends_by_bind; [apply send_next_extends|]. intros _ m2. apply IH.
Qed.

End PassBound.

(** X19: one pass of the loop of [run] only adds send attempts, and at
    most one in paced mode and at most [burst_msgs] in burst mode (none
    when [burst_msgs] is 0 or less). *)
Theorem loop_body_sends_at_most {W : Type} {OSW : OS W} {R : Type}
    {RS : RandomSource R} (cfg : GenConfig) (end_time : float) (m : Machine W R) :
  extends_by (if burst cfg then Z.to_nat (burst_msgs cfg) else 1) m
             (snd (loop_body cfg end_time m)).
Proof.
  unfold loop_body. destruct (burst cfg).
  - apply (extends_by_weaken (Z.to_nat (burst_msgs cfg) + (0 + (0 + 0)))); [lia|].
    apply extends_by_bind; [apply burst_loop_extends|]. intros _ m1.
    apply extends_by_bind; [apply extends_by_neutral, neutral_lift|]. intros ms m2.
    apply extends_by_bind; [apply extends_by_neutral, neutral_os_call|]. intros _ m3.
    apply extends_by_refl.
  - apply (extends_by_weaken (0 + (0 + (1 + (0 + 0))))); [lia|].
    apply extends_by_bind; [apply extends_by_neutral, neutral_next_deadline|].
    intros d m1.
    apply extends_by_bind; [apply extends_by_neutral, neutral_maybe_sleep_until|].
    intros _ m2.
    apply extends_by_bind; [apply send_next_extends|]. intros _ m3.
    apply extends_by_bind.
    + destruct (recv_replies cfg);
        [apply extends_by_neutral, neutral_recv_reply
        |apply extends_by_neutral, neutral_ret].
    + intros [|] m4.
      * apply (extends_by_weaken (0 + 0)); [lia|].
        apply extends_by_bind; [apply extends_by_neutral, neutral_maybe_report|].
        intros _ m5. apply extends_by_refl.
      * apply extends_by_refl.
Qed.

Lemma send_all_terminates_witness :
  send_all_loop 50 sample_data 0 (sim_host 1 [inr 2; inr 100])
    = send_all sample_data (sim_host 1 [inr 2; inr 100]).
Proof.
  apply (proj1 (proj2 (send_all_terminates sample_data
                         (sim_host 1 [inr 2; inr 100])))).
  cbn. lia.
Defined.

Lemma run_reply_counters_witness :
  replies (m_stats (snd (run (R := Z) sample_config 20 (sim_host 1 [])))) = 0 /\
  recv_bytes (m_stats (snd (run (R := Z) sample_config 20 (sim_host 1 [])))) = 0.
Proof.
  apply (proj2 (run_reply_counters (R := Z) sample_config 20 (sim_host 1 []))).
  reflexivity.
Defined.
